(** * Cleartext JWS: signing and verification orchestration

    A shallow embedding of [lib/ct-jws/sign.js] (the signer and
    [createSign]) and of the verifier ([jws/verify.js], with [getAlgKey]),
    together with the properties of the orchestration logic.

    JavaScript values are trees; an object is the list of its own
    properties in enumeration order, which is the order [JSON.stringify],
    [Object.keys], [omit] and [merge] follow.  Property names are taken
    not to be canonical array indices (those JavaScript enumerates first).
    Promises are represented by the way they settle.  The cryptographic
    keys, the key store, the base64url codec, the algorithm allow-list and
    the JSON serializer are collaborators of the code and appear as the
    operations of a class. *)

From Stdlib Require Import String List ZArith Bool Arith Lia DecimalString.
Import ListNotations.

Open Scope string_scope.
Open Scope list_scope.

Set Implicit Arguments.
Set Warnings "-register-all".

(** ** JavaScript values *)

Inductive value : Type :=
| VUndef
| VNull
| VBool (b : bool)
| VNum (n : Z)
| VStr (s : string)
| VArr (items : list value)
| VObj (fields : list (string * value)).

(** An object: its own enumerable properties, in enumeration order. *)
Definition obj := list (string * value).

(** [Buffer] contents. *)
Definition bytes := string.

(** ToBoolean. *)
Definition truthy (v : value) : bool :=
  match v with
  | VUndef | VNull => false
  | VBool b => b
  | VNum n => negb (Z.eqb n 0)
  | VStr s => negb (String.eqb s "")
  | VArr _ | VObj _ => true
  end.

(** [a === b].  Primitives are compared by value.  Two objects (or arrays)
    are equal only when they are the same object; the operands compared by
    the code are header values of two different signatories, whose headers
    [createSign] builds by [merge] into a fresh object, or the boolean of
    the previous comparison, so two object operands are never the same
    object. *)
Definition strict_eq (a b : value) : bool :=
  match a, b with
  | VUndef, VUndef => true
  | VNull, VNull => true
  | VBool x, VBool y => Bool.eqb x y
  | VNum x, VNum y => Z.eqb x y
  | VStr x, VStr y => String.eqb x y
  | _, _ => false
  end.

(** ToString, as string concatenation applies it. *)
Fixpoint js_string (v : value) : string :=
  match v with
  | VUndef => "undefined"
  | VNull => "null"
  | VBool true => "true"
  | VBool false => "false"
  | VNum n => NilZero.string_of_int (Z.to_int n)
  | VStr s => s
  | VArr items =>
      (fix join (l : list value) : string :=
         match l with
         | [] => ""
         | x :: r =>
             let sx := match x with VUndef | VNull => "" | _ => js_string x end in
             match r with [] => sx | _ => (sx ++ "," ++ join r)%string end
         end) items
  | VObj _ => "[object Object]"
  end.

(** ** Objects *)

Module Obj.

(** Own property lookup. *)
Fixpoint lookup (o : obj) (k : string) : option value :=
  match o with
  | [] => None
  | (k', v) :: r => if String.eqb k' k then Some v else lookup r k
  end.

(** [o[k]]: [undefined] when the property is absent. *)
Definition get (o : obj) (k : string) : value :=
  match lookup o k with Some v => v | None => VUndef end.

(** [k in o]. *)
Definition has (o : obj) (k : string) : bool :=
  match lookup o k with Some _ => true | None => false end.

(** [o[k] = v]: an existing property keeps its place, a new one is
    added last. *)
Fixpoint set (o : obj) (k : string) (v : value) : obj :=
  match o with
  | [] => [(k, v)]
  | (k', v') :: r =>
      if String.eqb k' k then (k, v) :: r else (k', v') :: set r k v
  end.

(** [delete o[k]]. *)
Definition delete (o : obj) (k : string) : obj :=
  filter (fun kv => negb (String.eqb (fst kv) k)) o.

(** [Object.keys(o)]. *)
Definition keys (o : obj) : list string := map fst o.

Definition mem (k : string) (ks : list string) : bool :=
  existsb (String.eqb k) ks.

(** lodash [omit(o, ks)]: a new object without the properties [ks]. *)
Definition omit (o : obj) (ks : list string) : obj :=
  filter (fun kv => negb (mem (fst kv) ks)) o.

End Obj.

(** lodash [merge]: the properties of [src] are merged into [dst], which
    it returns.  A source property that is [undefined] is skipped when the
    destination has the property; objects and arrays are merged
    recursively (into a new object or array when the destination holds
    none); any other value is assigned. *)
Fixpoint merge_value (d s : value) : value :=
  match s with
  | VObj so =>
      let base := match d with VObj o => o | _ => [] end in
      VObj ((fix into (acc : obj) (fs : list (string * value)) : obj :=
               match fs with
               | [] => acc
               | (k, v) :: r =>
                   into (match v, Obj.has acc k with
                         | VUndef, true => acc
                         | _, _ => Obj.set acc k (merge_value (Obj.get acc k) v)
                         end) r
               end) base so)
  | VArr sa =>
      let base := match d with VArr a => a | _ => [] end in
      VArr ((fix zip (a : list value) (l : list value) : list value :=
               match l with
               | [] => a
               | v :: r =>
                   match a with
                   | [] => merge_value VUndef v :: zip [] r
                   | x :: a' =>
                       match v with
                       | VUndef => x
                       | _ => merge_value x v
                       end :: zip a' r
                   end
               end) base sa)
  | _ => s
  end.

Definition merge (dst src : obj) : obj :=
  match merge_value (VObj dst) (VObj src) with
  | VObj o => o
  | _ => dst
  end.

(** lodash [intersection(...arrays)]: the unique values of the first array
    that every other array includes. *)
Definition intersection (arrays : list (list string)) : list string :=
  match arrays with
  | [] => []
  | first :: others =>
      filter (fun k => forallb (Obj.mem k) others) (nodup string_dec first)
  end.

(** [item && typeof item === "object" && !Array.isArray(item)]. *)
Definition isObject (item : value) : bool :=
  match item with VObj _ => true | _ => false end.

(** ** Promises and completions *)

(** A settled promise; an [Error] is represented by its [message]. *)
Inductive promise (A : Type) : Type :=
| Resolved (a : A)
| Rejected (message : string).
Arguments Resolved {A} a.
Arguments Rejected {A} message.

Definition then_ {A B} (p : promise A) (f : A -> promise B) : promise B :=
  match p with
  | Resolved a => f a
  | Rejected m => Rejected m
  end.

Definition catch_ {A} (p : promise A) (f : string -> promise A) : promise A :=
  match p with
  | Resolved a => Resolved a
  | Rejected m => f m
  end.

(** The values of promises that all resolve, in order.  When one of
    them rejects this is the first rejection of the list, which is what
    [Promise.all] rejects with when the promises settle in the order of
    the list; [promise_all_at] below takes the order they settle in. *)
Fixpoint promise_all {A} (ps : list (promise A)) : promise (list A) :=
  match ps with
  | [] => Resolved []
  | Rejected m :: _ => Rejected m
  | Resolved a :: r =>
      match promise_all r with
      | Resolved l => Resolved (a :: l)
      | Rejected m => Rejected m
      end
  end.

(** The rejection that [Promise.all] meets first, with its tick.  [ts]
    gives for each promise the tick at which it is settled, counted from
    the call of [Promise.all]: a promise that is settled before the call,
    or that has no tick, counts as settled at tick 0.  Rejections of the
    same tick are met in the order of the list, which is the order in
    which [Promise.all] subscribes to the promises. *)
Fixpoint earliest {A} (ts : list nat) (ps : list (promise A))
  : option (nat * string) :=
  match ps with
  | [] => None
  | Resolved _ :: rest => earliest (tl ts) rest
  | Rejected m :: rest =>
      match earliest (tl ts) rest with
      | Some (t', m') =>
          if Nat.ltb t' (hd 0 ts) then Some (t', m') else Some (hd 0 ts, m)
      | None => Some (hd 0 ts, m)
      end
  end.

(** [Promise.all]: the values in order when every promise resolves, else
    the rejection that settles first. *)
Definition promise_all_at {A} (ts : list nat) (ps : list (promise A))
  : promise (list A) :=
  match earliest ts ps with
  | Some (_, m) => Rejected m
  | None => promise_all ps
  end.

(** A synchronous call either returns or throws. *)
Inductive completion (A : Type) : Type :=
| Returned (a : A)
| Thrown (message : string).
Arguments Returned {A} a.
Arguments Thrown {A} message.

(** ** The collaborators

    The key and key store capabilities ([lib/jwk]), the base64url codec
    ([lib/util]), the algorithm allow-list ([lib/util/algconfig]), the
    serializer and the signing defaults ([./defaults]) are used by the
    code and defined elsewhere. *)

Class Jose : Type := {
  Key : Type;
  KeyStore : Type;
  (** what [JWK.asKey] accepts: a key, or its JSON or encoded form *)
  KeyRef : Type;
  json_ref : value -> KeyRef;
  (** [key.kty] *)
  kty : Key -> string;
  (** [key.algorithms(JWK.MODE_SIGN)] *)
  algorithms : Key -> list string;
  (** [key.toJSON()] *)
  toJSON : Key -> obj;
  (** [key.keystore] *)
  key_keystore : Key -> KeyStore;
  (** [key.sign(alg, tbs, header)], settled with [result.mac] *)
  key_sign : Key -> value -> bytes -> obj -> promise bytes;
  (** the tick at which the promise of [key.sign(alg, tbs, header)] is
      settled, counted from the call *)
  key_sign_settles : Key -> value -> bytes -> obj -> nat;
  (** [key.verify(alg, tbv, signature)], settled with [result.valid] *)
  key_verify : Key -> value -> bytes -> bytes -> promise bool;
  (** [JWK.asKey(ref)] *)
  asKey : KeyRef -> promise Key;
  (** the tick at which the promise of [JWK.asKey(ref)] is settled,
      counted from the call: 0 when it is returned settled *)
  asKey_settles : KeyRef -> nat;
  (** [JWK.asKey(new Buffer(v, "base64"), "pkix")]; the [Buffer]
      constructor may throw *)
  asKey_pkix : value -> completion (promise Key);
  (** [JWK.createKeyStore()] *)
  createKeyStore : KeyStore;
  (** [keystore.get(selector)]: a key, or none *)
  keystore_get : KeyStore -> obj -> option Key;
  (** [util.base64url.encode] and [base64url.decode] *)
  base64url_encode : bytes -> string;
  base64url_decode : string -> bytes;
  (** [new AlgConfig(spec).match(alg)] *)
  AlgConfig_match : value -> value -> bool;
  (** [new Buffer(JSON.stringify(v), "utf8")] *)
  JSON_stringify : value -> bytes;
  (** [require("./defaults")] of the signer *)
  DEFAULTS : obj
}.

(** The reserved field of a signed document. *)
Definition CLEARTEXT : string := "__cleartext_signature".

(** ** Signing ([lib/ct-jws/sign.js]) *)

Module Sign.
Section Sign.

Context {J : Jose}.

(** A resolved signatory, as [createSign] freezes it. *)
Record Signatory : Type := { key : Key; header : obj }.

(** [values.reduce((a, b) => a === b)]: without an initial value the
    accumulator starts as the first element and is from then on the
    boolean of the previous comparison.  On an empty array [reduce]
    throws; the array has one value per signatory and is only built for
    a key of the intersection, which is empty when there is none. *)
Definition reduce_strict_eq (values : list value) : value :=
  match values with
  | [] => VUndef
  | v :: rest => fold_left (fun a b => VBool (strict_eq a b)) rest v
  end.

(** The callback of [inter.forEach] (lines 72-77), on the global headers
    collected so far. *)
Definition collect (sigs : list Signatory) (g : obj) (k : string) : obj :=
  let values := map (fun a => Obj.get (header a) k) sigs in
  if truthy (reduce_strict_eq values)
  then Obj.set g k (hd VUndef values)
  else g.

(** The first [then] of [sign] (lines 66-80): the headers common to the
    signatories. *)
Definition globalHeaders (sigs : list Signatory) : obj :=
  if Nat.eqb (length sigs) 1 then []
  else
    let inter := intersection (map (fun s => Obj.keys (header s)) sigs) in
    fold_left (collect sigs) inter [].

(** One invocation of the signing capability. *)
Record SignCall : Type := {
  call_key : Key;
  call_alg : value;
  call_tbs : bytes;
  call_header : obj
}.

(** What the [map] callback of the second [then] shares between the
    signatories: [input.globalHeaders] and the caller's [data]. *)
Record Shared : Type := { shared_globalHeaders : obj; shared_data : obj }.

(** The document a signatory's bytes are serialized from (lines 85-90):
    the reserved field of [data] is rewritten in place; with several
    signatories it is made to be [input.globalHeaders] itself, which
    receives the [signers] property. *)
Definition materialize (n : nat) (sh : Shared) (s : Signatory) : Shared :=
  if Nat.eqb n 1 then
    {| shared_globalHeaders := shared_globalHeaders sh;
       shared_data := Obj.set (shared_data sh) CLEARTEXT (VObj (header s)) |}
  else
    let g := shared_globalHeaders sh in
    let g' := Obj.set g "signers"
                (VArr [VObj (Obj.omit (header s) (Obj.keys g))]) in
    {| shared_globalHeaders := g';
       shared_data := Obj.set (shared_data sh) CLEARTEXT (VObj g') |}.

(** The rest of the callback (lines 92-99): the signatory's own header
    fields, the bytes, the call of the key and the record the signature
    is stored in once the key has answered. *)
Definition sign_one (n : nat) (sh : Shared) (s : Signatory)
  : Shared * SignCall * promise obj :=
  let sh' := materialize n sh s in
  let headers := Obj.omit (header s) (Obj.keys (shared_globalHeaders sh')) in
  let tbs := JSON_stringify (VObj (shared_data sh')) in
  let call := {| call_key := key s; call_alg := Obj.get (header s) "alg";
                 call_tbs := tbs; call_header := header s |} in
  let p := then_ (key_sign (key s) (Obj.get (header s) "alg") tbs (header s))
             (fun mac =>
                Resolved (Obj.set headers "signature"
                            (VStr (base64url_encode mac)))) in
  (sh', call, p).

(** [sigs.map(...)]: the callback runs for every signatory in order,
    before any key has answered. *)
Fixpoint sign_map (n : nat) (sh : Shared) (sigs : list Signatory)
  : Shared * list SignCall * list (promise obj) :=
  match sigs with
  | [] => (sh, [], [])
  | s :: rest =>
      let '(sh1, c, p) := sign_one n sh s in
      let '(sh2, cs, ps) := sign_map n sh1 rest in
      (sh2, c :: cs, p :: ps)
  end.

(** The last [then] (lines 104-111). *)
Definition assemble (data : obj) (sigs : list obj) : obj :=
  match sigs with
  | [s] => Obj.set data CLEARTEXT (VObj s)
  | _ =>
      match Obj.get data CLEARTEXT with
      | VObj c =>
          Obj.set data CLEARTEXT
            (VObj (Obj.set c "signers" (VArr (map VObj sigs))))
      | _ => data
      end
  end.

(** A signer: the signatory promises it was constructed with and its
    [finalized] flag.  [settles] gives for each of the promises the tick
    at which it is settled, counted from the call of [sign]: 0 for a
    promise that is settled when [sign] is called. *)
Record JWSSigner : Type := {
  signatories : list (promise Signatory);
  settles : list nat;
  finalized : bool
}.

(** The tick at which the promise a key returned for a call is settled.
    Every promise of the [map] of [sign] is one [then] after the promise
    of its key, so that these ticks order them. *)
Definition call_settles (c : SignCall) : nat :=
  key_sign_settles (call_key c) (call_alg c) (call_tbs c) (call_header c).

(** What a call of [sign] leaves behind: the promise it returns, the
    caller's [data] as the call and its continuations leave it, the
    signer, and the calls made to the keys. *)
Record SignResult : Type := {
  sign_promise : promise value;
  sign_data : value;
  sign_signer : JWSSigner;
  sign_calls : list SignCall
}.

(** [signer.sign(data)]. *)
Definition sign (signer : JWSSigner) (data : value) : SignResult :=
  if finalized signer then
    {| sign_promise := Rejected "already final"; sign_data := data;
       sign_signer := signer; sign_calls := [] |}
  else
    match data with
    | VObj d =>
        let signer' := {| signatories := signatories signer;
                          settles := settles signer;
                          finalized := true |} in
        let d0 := Obj.set d CLEARTEXT (VObj []) in
        match promise_all_at (settles signer) (signatories signer) with
        | Rejected m =>
            {| sign_promise := Rejected m; sign_data := VObj d0;
               sign_signer := signer'; sign_calls := [] |}
        | Resolved sigs =>
            let sh0 := {| shared_globalHeaders := globalHeaders sigs;
                          shared_data := d0 |} in
            let '(sh, calls, ps) := sign_map (length sigs) sh0 sigs in
            match promise_all_at (map call_settles calls) ps with
            | Rejected m =>
                {| sign_promise := Rejected m;
                   sign_data := VObj (shared_data sh);
                   sign_signer := signer'; sign_calls := calls |}
            | Resolved recs =>
                let d' := assemble (shared_data sh) recs in
                {| sign_promise := Resolved (VObj d');
                   sign_data := VObj d';
                   sign_signer := signer'; sign_calls := calls |}
            end
        end
    | _ =>
        {| sign_promise := Rejected "Data to sign must be an object";
           sign_data := data; sign_signer := signer; sign_calls := [] |}
    end.

(** *** [createSign] *)

(** [signs.reference]: absent, a boolean or a field name. *)
Inductive reference : Type :=
| RefUndefined
| RefBool (b : bool)
| RefString (s : string).

(** An element of the signatory list: a key ([s] has [kty]), a
    descriptor [{key, header, reference}], or nothing. *)
Inductive signatory_spec : Type :=
| SpecKey (k : KeyRef)
| SpecDescriptor (k : KeyRef) (hdr : option obj) (ref : reference)
| SpecNothing.

(** The key reference to embed (lines 210-221): a field name, or none. *)
Definition key_reference (ref : reference) (hdr : obj) : option string :=
  match ref with
  | RefUndefined =>
      if existsb (Obj.has hdr) ["kid"; "jku"; "x5c"; "x5t"; "x5u"]
      then None else Some "kid"
  | RefBool b => if b then Some "kid" else None
  | RefString s => if String.eqb s "" then None else Some s
  end.

(** The second [then] of a signatory (lines 196-238). *)
Definition complete (allFields : obj) (k : Key) (hdr : option obj)
    (ref : reference) : promise Signatory :=
  let h0 := merge (merge [] allFields)
              (match hdr with Some h => h | None => [] end) in
  let h1 := if truthy (Obj.get h0 "alg") then h0
            else Obj.set h0 "alg" (VStr (hd "" (algorithms k))) in
  match key_reference ref h1 with
  | Some r =>
      let jwk := toJSON k in
      if String.eqb "jwk" r then
        if String.eqb "oct" (kty k) then Rejected "cannot embed key"
        else Resolved {| key := k; header := Obj.set h1 "jwk" (VObj jwk) |}
      else if Obj.has jwk r then
        Resolved {| key := k; header := Obj.set h1 r (Obj.get jwk r) |}
      else Resolved {| key := k; header := h1 |}
  | None => Resolved {| key := k; header := h1 |}
  end.

(** The callback of [signList.map] (lines 170-241). *)
Definition resolve (allFields : obj) (s : signatory_spec) (idx : nat)
  : promise Signatory :=
  match s with
  | SpecKey r =>
      then_ (asKey r) (fun k => complete allFields k None RefUndefined)
  | SpecDescriptor r hdr ref =>
      then_ (asKey r) (fun k => complete allFields k hdr ref)
  | SpecNothing =>
      Rejected ("missing key for signatory "
                ++ NilEmpty.string_of_uint (Nat.to_uint idx))%string
  end.

(** The tick at which the promise of a signatory is settled, counted
    from [createSign] (lines 170-241).  A missing signatory is a rejected
    promise followed by one [then]: it is settled at tick 1.  The others
    are the promise of [JWK.asKey] followed by two [then]: they are
    settled two ticks after it, and four ticks after it when the second
    [then] returns the rejected promise of line 227, which the promise
    has to adopt. *)
Definition resolve_settles (allFields : obj) (s : signatory_spec) : nat :=
  let chain (r : KeyRef) (hdr : option obj) (ref : reference) : nat :=
    asKey_settles r + 2
    + match asKey r with
      | Resolved k =>
          match complete allFields k hdr ref with
          | Resolved _ => 0
          | Rejected _ => 2
          end
      | Rejected _ => 0
      end in
  match s with
  | SpecKey r => chain r None RefUndefined
  | SpecDescriptor r hdr ref => chain r hdr ref
  | SpecNothing => 1
  end.

Fixpoint resolve_from (allFields : obj) (idx : nat)
    (signList : list signatory_spec) : list (promise Signatory) :=
  match signList with
  | [] => []
  | s :: rest => resolve allFields s idx :: resolve_from allFields (S idx) rest
  end.

(** [createSign(opts, signs)], once the arguments are sorted out into
    the options and the list of signatories (lines 139-162);
    [opts.fields] is an object when given.  The ticks of the signer are
    those of a [sign] that is called at once. *)
Definition createSign (opts : obj) (signList : list signatory_spec)
  : JWSSigner :=
  let options := merge DEFAULTS opts in
  let allFields := match Obj.get options "fields" with
                   | VObj f => f
                   | _ => []
                   end in
  {| signatories := resolve_from allFields 0 signList;
     settles := map (resolve_settles allFields) signList;
     finalized := false |}.

End Sign.
End Sign.

(** ** Verification ([jws/verify.js]) *)

Module Verify.
Section Verify.

Context {J : Jose}.

(** *** The options objects

    [DEFAULT_OPTIONS] is one object of the module; [merge] writes into
    its first argument and returns it.  The objects that hold options
    live in a store and are named by their location. *)
Definition loc := nat.
Definition store := list obj.

Definition read (st : store) (l : loc) : obj := nth l st [].

Fixpoint write (st : store) (l : loc) (o : obj) : store :=
  match st, l with
  | [], _ => []
  | _ :: r, O => o :: r
  | x :: r, S l' => x :: write r l' o
  end.

(** The location of [DEFAULT_OPTIONS] and the store when the module is
    loaded (lines 16-19). *)
Definition DEFAULT_OPTIONS : loc := 0.

Definition loaded : store :=
  [[("algorithms", VStr "*"); ("allowEmbeddedKey", VBool false)]].

(** [merge(dst, src)] on a stored destination: the destination is
    updated where it is, and is the result. *)
Definition merge_into (st : store) (dst : loc) (src : option obj)
  : store * loc :=
  match src with
  | Some o => (write st dst (merge (read st dst) o), dst)
  | None => (st, dst)
  end.

(** *** [getAlgKey] *)

(** The signer record the callback builds (lines 98-102). *)
Record Sig : Type := { signee : obj; header : obj; signature : bytes }.

(** [v[0]]. *)
Definition first_of (v : value) : value :=
  match v with
  | VArr (x :: _) => x
  | VStr (String c _) => VStr (String c "")
  | VObj o => Obj.get o "0"
  | _ => VUndef
  end.

(** [getAlgKey(opts, sig, assumedKey, keystore)] (lines 25-38).  The
    first branch passes [sig.jwk]; the record [sig] has the properties
    [signee], [header] and [signature] only, so that is [undefined]. *)
Definition getAlgKey (opts : obj) (sig : Sig) (assumedKey : option Key)
    (keystore : KeyStore) : completion (promise (option Key)) :=
  if truthy (Obj.get opts "allowEmbeddedKey")
     && truthy (Obj.get (header sig) "jwk")
  then Returned (then_ (asKey (json_ref VUndef))
                   (fun k => Resolved (Some k)))
  else if truthy (Obj.get opts "allowEmbeddedKey")
          && truthy (Obj.get (header sig) "x5c")
  then match asKey_pkix (first_of (Obj.get (header sig) "x5c")) with
       | Returned p => Returned (then_ p (fun k => Resolved (Some k)))
       | Thrown m => Thrown m
       end
  else Returned (Resolved
         (match assumedKey with
          | Some k => Some k
          | None =>
              keystore_get keystore
                [("use", VStr "sig");
                 ("alg", Obj.get (header sig) "alg");
                 ("kid", Obj.get (header sig) "kid")]
          end)).

(** *** The verifier *)

(** The first argument of the constructor: a key, a key store, or
    anything else. *)
Inductive ks_arg : Type :=
| KsKey (k : Key)
| KsStore (s : KeyStore)
| KsOther.

(** A verifier: the variables its [verify] closes over. *)
Record JWSVerifier : Type := {
  defaultKey : option Key;
  keystore : KeyStore;
  globalOpts : loc
}.

(** [new JWSVerifier(ks, globalOpts)] (lines 48-70), which is
    [createVerify(ks, opts)]. *)
Definition createVerify (st : store) (ks : ks_arg) (opts : option obj)
  : store * JWSVerifier :=
  let '(st', g) := merge_into st DEFAULT_OPTIONS opts in
  (st',
   match ks with
   | KsKey k =>
       {| defaultKey := Some k; keystore := key_keystore k; globalOpts := g |}
   | KsStore s =>
       {| defaultKey := None; keystore := s; globalOpts := g |}
   | KsOther =>
       {| defaultKey := None; keystore := createKeyStore; globalOpts := g |}
   end).

(** [merge({}, globalOpts, opts || {})] (line 74). *)
Definition effective_options (st : store) (v : JWSVerifier)
    (opts : option obj) : obj :=
  merge (merge [] (read st (globalOpts v)))
    (match opts with Some o => o | None => [] end).

(** What the synchronous part of the [map] callback (lines 91-103) comes
    to for one signer record: it throws, it returns a rejected promise
    that nothing handles, or it returns the chain started by
    [getAlgKey]. *)
Inductive prepared : Type :=
| PThrow (m : string)
| PReject (m : string)
| PChain (sig : Sig) (k : promise (option Key)).

(** The header of a signer record [r] under the reserved field [cs]
    (lines 91-92): [merge({}, signee, omit(cs, ['signers']))]. *)
Definition effective_header (cs r : obj) : obj :=
  merge (merge [] (Obj.omit r ["valid"; "message"]))
    (Obj.omit cs ["signers"]).

(** [base64url.decode] of a value that is not a string throws; [omit]
    of a value that is not an object gives an object without a
    [signature]. *)
Definition prepare (opts : obj) (v : JWSVerifier) (cs : obj) (rec : value)
  : prepared :=
  match rec with
  | VObj r =>
      let signee0 := Obj.omit r ["valid"; "message"] in
      let hdr := effective_header cs r in
      match Obj.get signee0 "signature" with
      | VStr s =>
          let sig := {| signee := Obj.delete signee0 "signature";
                        header := hdr;
                        signature := base64url_decode s |} in
          if negb (AlgConfig_match (Obj.get opts "algorithms")
                     (Obj.get hdr "alg"))
          then PReject ("Algorithm not allowed: "
                        ++ js_string (Obj.get hdr "alg"))%string
          else match getAlgKey opts sig (defaultKey v) (keystore v) with
               | Returned p => PChain sig p
               | Thrown m => PThrow m
               end
      | _ => PThrow "TypeError"
      end
  | _ => PThrow "TypeError"
  end.

(** [sigs.map(...)]: the records are prepared in order, up to the first
    that throws. *)
Fixpoint prepare_all (opts : obj) (v : JWSVerifier) (cs : obj)
    (recs : list value) : list prepared :=
  match recs with
  | [] => []
  | r :: rest =>
      match prepare opts v cs r with
      | PThrow m => [PThrow m]
      | p => p :: prepare_all opts v cs rest
      end
  end.

(** The rewriting of the scratch document before it is serialized
    (lines 110-114); [n] is [sigs.length]. *)
Definition snapshot (n : nat) (data : obj) (sgn : obj) : obj :=
  if Nat.eqb n 1 then Obj.set data CLEARTEXT (VObj sgn)
  else
    match Obj.get data CLEARTEXT with
    | VObj c =>
        Obj.set data CLEARTEXT
          (VObj (Obj.set c "signers" (VArr [VObj sgn])))
    | _ => data
    end.

(** One invocation of the verification capability. *)
Record VerifyCall : Type := {
  call_key : Key;
  call_alg : value;
  call_tbv : bytes;
  call_signature : bytes
}.

(** The first two [then] of a chain (lines 103-116): the scratch
    document as they leave it, the call made, and how the verification
    settles. *)
Definition check (n : nat) (data : obj) (sig : Sig)
    (k : promise (option Key)) : obj * list VerifyCall * promise bool :=
  match then_ k (fun key =>
                   match key with
                   | Some key' => Resolved key'
                   | None => Rejected "Key does not match"
                   end) with
  | Resolved key =>
      let data' := snapshot n data (signee sig) in
      let tbv := JSON_stringify (VObj data') in
      (data',
       [{| call_key := key; call_alg := Obj.get (header sig) "alg";
           call_tbv := tbv; call_signature := signature sig |}],
       key_verify key (Obj.get (header sig) "alg") tbv (signature sig))
  | Rejected m => (data, [], Rejected m)
  end.

(** [input.__cleartext_signature.signers[index]] updated by [f]. *)
Fixpoint update_nth (l : list value) (index : nat) (f : obj -> obj)
  : list value :=
  match l, index with
  | [], _ => []
  | VObj e :: r, O => VObj (f e) :: r
  | x :: r, O => x :: r
  | x :: r, S i => x :: update_nth r i f
  end.

Definition update_signer (input : obj) (index : nat) (f : obj -> obj) : obj :=
  match Obj.get input CLEARTEXT with
  | VObj c =>
      match Obj.get c "signers" with
      | VArr l =>
          Obj.set input CLEARTEXT
            (VObj (Obj.set c "signers" (VArr (update_nth l index f))))
      | _ => input
      end
  | _ => input
  end.

Definition update_top (input : obj) (f : obj -> obj) : obj :=
  match Obj.get input CLEARTEXT with
  | VObj c => Obj.set input CLEARTEXT (VObj (f c))
  | _ => input
  end.

(** The last [then] and the [catch] of a chain (lines 117-131). *)
Definition write_back (n index : nat) (input : obj) (r : promise bool) : obj :=
  match r with
  | Resolved valid =>
      if negb (Nat.eqb n 1)
      then update_signer input index
             (fun e => Obj.set e "valid" (VBool valid))
      else input
  | Rejected m =>
      let failed e :=
        Obj.set (Obj.set e "valid" (VBool false)) "message" (VStr m) in
      if negb (Nat.eqb n 1)
      then update_signer input index failed
      else update_top input failed
  end.

(** The scratch document, the caller's document and the calls made, as
    the chains of a call share them. *)
Record Shared : Type := {
  shared_data : obj;
  shared_input : obj;
  shared_calls : list VerifyCall
}.

(** The chains run; those of the records [index], [index + 1], ... in
    this order. *)
Fixpoint run (n index : nat) (sh : Shared) (ps : list prepared) : Shared :=
  match ps with
  | [] => sh
  | PChain sig k :: rest =>
      let '(data', calls, r) := check n (shared_data sh) sig k in
      run n (S index)
        {| shared_data := data';
           shared_input := write_back n index (shared_input sh) r;
           shared_calls := shared_calls sh ++ calls |}
        rest
  | _ :: rest => run n (S index) sh rest
  end.

(** How the call ends: a record threw, or [Promise.all] rejects with the
    first rejection nothing handled, or it resolves. *)
Fixpoint outcome (ps : list prepared) (input : value)
  : completion (promise value) :=
  match ps with
  | [] => Returned (Resolved input)
  | PThrow m :: _ => Thrown m
  | PReject m :: rest =>
      match outcome rest input with
      | Thrown m' => Thrown m'
      | _ => Returned (Rejected m)
      end
  | PChain _ _ :: rest => outcome rest input
  end.

(** What a call of [verify] leaves behind: how it completes, the
    caller's [input] as the call and its chains leave it, and the calls
    made to the keys. *)
Record VerifyResult : Type := {
  verify_completion : completion (promise value);
  verify_input : value;
  verify_calls : list VerifyCall
}.

Definition threw (m : string) (input : value) : VerifyResult :=
  {| verify_completion := Thrown m; verify_input := input;
     verify_calls := [] |}.

(** The signer records (line 85): [signers] when it is there, else the
    reserved field itself.  Reading [signers] from [undefined] or
    [null] throws, and so does [map] on a [signers] that is no array. *)
Definition signer_records (data : obj) : completion (obj * list value) :=
  match Obj.get data CLEARTEXT with
  | VObj c =>
      match Obj.get c "signers" with
      | VArr l => Returned (c, l)
      | s => if truthy s then Thrown "TypeError" else Returned (c, [VObj c])
      end
  | _ => Thrown "TypeError"
  end.

(** [verifier.verify(input, opts)] (lines 73-137). *)
Definition verify (st : store) (v : JWSVerifier) (input : value)
    (opts : option obj) : VerifyResult :=
  let o := effective_options st v opts in
  match input with
  | VStr _ => threw "intput is not defined" input
  | VObj i =>
      match signer_records i with
      | Thrown m => threw m input
      | Returned (cs, recs) =>
          let ps := prepare_all o v cs recs in
          let sh := run (length recs) 0
                      {| shared_data := i; shared_input := i;
                         shared_calls := [] |} ps in
          {| verify_completion := outcome ps (VObj (shared_input sh));
             verify_input := VObj (shared_input sh);
             verify_calls := shared_calls sh |}
      end
  | _ => threw "Input has to be a JOSN object." input
  end.

End Verify.
End Verify.

(** ** An instance to run the code on

    Keys with a key id, a type and a secret; the signature of a key over
    some bytes is the secret followed by the algorithm and the bytes, a
    key of type [none] refuses to sign, and verification rejects a
    signature that is not the expected one.  The key store is a list of
    keys searched by key id, the codec leaves the bytes as they are, and
    the serializer prints a value without escaping. *)

Module Toy.

Record key : Type := { key_kid : string; key_kty : string; secret : string }.

Fixpoint show (v : value) : string :=
  (match v with
   | VUndef | VNull => "null"
   | VBool true => "true"
   | VBool false => "false"
   | VNum n => NilZero.string_of_int (Z.to_int n)
   | VStr s => "'" ++ s ++ "'"
   | VArr items =>
       "[" ++ (fix elems (l : list value) : string :=
                 match l with
                 | [] => ""
                 | x :: r =>
                     match r with
                     | [] => show x
                     | _ => show x ++ "," ++ elems r
                     end
                 end) items ++ "]"
   | VObj fields =>
       "{" ++ (fix members (l : list (string * value)) : string :=
                 match l with
                 | [] => ""
                 | (k, x) :: r =>
                     match r with
                     | [] => k ++ ":" ++ show x
                     | _ => k ++ ":" ++ show x ++ "," ++ members r
                     end
                 end) fields ++ "}"
   end)%string.

Definition mac (k : key) (alg : value) (tbs : bytes) : bytes :=
  (secret k ++ "/" ++ js_string alg ++ "/" ++ tbs)%string.

Definition sign_with (k : key) (alg : value) (tbs : bytes) (_ : obj)
  : promise bytes :=
  if String.eqb (key_kty k) "none" then Rejected "unsupported key"
  else Resolved (mac k alg tbs).

Definition verify_with (k : key) (alg : value) (tbv : bytes) (sg : bytes)
  : promise bool :=
  if String.eqb sg (mac k alg tbv) then Resolved true
  else Rejected "verification failed".

Definition get (ks : list key) (selector : obj) : option key :=
  find (fun k => strict_eq (VStr (key_kid k)) (Obj.get selector "kid")) ks.

(** A key from its JSON form [{kid, kty, k}]. *)
Definition of_json (v : value) : option key :=
  match v with
  | VObj o =>
      match Obj.get o "kid", Obj.get o "kty", Obj.get o "k" with
      | VStr i, VStr t, VStr s =>
          Some {| key_kid := i; key_kty := t; secret := s |}
      | _, _, _ => None
      end
  | _ => None
  end.

Definition matches (spec alg : value) : bool :=
  match spec with
  | VStr "*" => true
  | VArr l => existsb (strict_eq alg) l
  | s => strict_eq alg s
  end.

#[export] Instance jose : Jose := {|
  Key := key;
  KeyStore := list key;
  KeyRef := option key;
  json_ref := of_json;
  kty := key_kty;
  algorithms := fun _ => ["HS256"];
  toJSON := fun k => [("kty", VStr (key_kty k)); ("kid", VStr (key_kid k))];
  key_keystore := fun k => [k];
  key_sign := sign_with;
  key_sign_settles := fun _ _ _ _ => 0;
  key_verify := verify_with;
  asKey := fun r => match r with
                    | Some k => Resolved k
                    | None => Rejected "unsupported key"
                    end;
  asKey_settles := fun _ => 0;
  asKey_pkix := fun _ => Returned (Rejected "unsupported key");
  createKeyStore := [];
  keystore_get := get;
  base64url_encode := fun b => b;
  base64url_decode := fun s => s;
  AlgConfig_match := matches;
  JSON_stringify := show;
  DEFAULTS := []
|}.

Definition signatory (k : key) (h : obj) : Sign.Signatory :=
  {| Sign.key := k : Key; Sign.header := h |}.

(** A signatory given as a key, and one that asks for its key to be
    embedded. *)
Definition bare (k : key) : Sign.signatory_spec :=
  Sign.SpecKey (Some k : KeyRef).

Definition embedding (k : key) : Sign.signatory_spec :=
  Sign.SpecDescriptor (Some k : KeyRef) None (Sign.RefString "jwk").

(** The first argument of [createVerify]: a key, or a key store. *)
Definition with_key (k : key) : Verify.ks_arg := Verify.KsKey (k : Key).

Definition with_store (l : list key) : Verify.ks_arg :=
  Verify.KsStore (l : KeyStore).

Definition alice : key := {| key_kid := "a"; key_kty := "oct"; secret := "sa" |}.
Definition bob : key := {| key_kid := "b"; key_kty := "oct"; secret := "sb" |}.
Definition carol : key := {| key_kid := "c"; key_kty := "oct"; secret := "sc" |}.
Definition mute : key := {| key_kid := "m"; key_kty := "none"; secret := "" |}.

End Toy.


(** ** Descriptions used by the properties *)

(** The element a list [x :: l] ends with. *)
Fixpoint last_of {A : Type} (x : A) (l : list A) : A :=
  match l with
  | [] => x
  | y :: r => last_of y r
  end.


(** The record of the signer a document is serialized for, when the call
    handles [n] signers: the reserved field itself when [n] is one, else
    the only element of its [signers]. *)
Definition serialized_record (n : nat) (doc : obj) : option obj :=
  match Obj.get doc CLEARTEXT with
  | VObj c =>
      if Nat.eqb n 1 then Some c
      else match Obj.get c "signers" with
           | VArr [VObj r] => Some r
           | _ => None
           end
  | _ => None
  end.

(** The document a signer's bytes stand for, as a function of the base
    document, the number of signers, the signer's own fields and the
    global headers: the reserved field is the signer's own fields when
    there is one signer, else the global headers with a [signers] that
    holds the signer's own fields only. *)
Definition snapshot_document (document : obj) (n : nat)
    (own globalHeaders : obj) : obj :=
  Obj.set document CLEARTEXT
    (VObj (if Nat.eqb n 1 then own
           else Obj.set globalHeaders "signers" (VArr [VObj own]))).

Definition snapshotForSigner {J : Jose} (document : obj) (n : nat)
    (own globalHeaders : obj) : bytes :=
  JSON_stringify (VObj (snapshot_document document n own globalHeaders)).


(** A value that is neither an object nor an array. *)
Definition primitive (v : value) : bool :=
  match v with
  | VArr _ | VObj _ => false
  | _ => true
  end.

(** The loop of [merge] over the properties of the source. *)
Fixpoint merge_fields (acc : obj) (fs : list (string * value)) : obj :=
  match fs with
  | [] => acc
  | (k, v) :: r =>
      merge_fields
        (match v, Obj.has acc k with
         | VUndef, true => acc
         | _, _ => Obj.set acc k (merge_value (Obj.get acc k) v)
         end) r
  end.

(** The entries of the signers of a document, and a field of an entry. *)
Definition signer_entries (doc : value) : list value :=
  match doc with
  | VObj d =>
      match Verify.signer_records d with
      | Returned (_, recs) => recs
      | Thrown _ => []
      end
  | _ => []
  end.

Definition field (entry : value) (k : string) : value :=
  match entry with
  | VObj e => Obj.get e k
  | _ => VUndef
  end.


(** A record whose preparation leaves nothing to catch its failure. *)
Definition unhandled {J : Jose} (p : Verify.prepared) : bool :=
  match p with
  | Verify.PChain _ _ => false
  | _ => true
  end.

(** The bytes a key is given when signing: a document whose signer record
    has, under [signature], at most what the caller's header has there. *)
Definition signed_as_header {J : Jose} (n : nat)
    (call : Sign.SignCall) : Prop :=
  exists doc rec,
    Sign.call_tbs call = JSON_stringify (VObj doc)
    /\ serialized_record n doc = Some rec
    /\ (Obj.lookup rec "signature" = None
        \/ Obj.lookup rec "signature"
           = Obj.lookup (Sign.call_header call) "signature").

(** The bytes a key is given when signing are those of a document whose
    signer record has no [signature]. *)
Definition signed_without_signature {J : Jose} (n : nat)
    (call : Sign.SignCall) : Prop :=
  exists doc rec,
    Sign.call_tbs call = JSON_stringify (VObj doc)
    /\ serialized_record n doc = Some rec
    /\ Obj.lookup rec "signature" = None.

(** The bytes a key is given when verifying: a document whose signer
    record has no [signature]. *)
Definition verified_without_signature {J : Jose} (n : nat)
    (call : Verify.VerifyCall) : Prop :=
  exists doc rec,
    Verify.call_tbv call = JSON_stringify (VObj doc)
    /\ serialized_record n doc = Some rec
    /\ Obj.lookup rec "signature" = None.

(** The signee of a prepared record has no [signature]. *)
Inductive signee_stripped {J : Jose} : Verify.prepared -> Prop :=
| stripped_throw m : signee_stripped (Verify.PThrow m)
| stripped_reject m : signee_stripped (Verify.PReject m)
| stripped_chain sig k :
    Obj.lookup (Verify.signee sig) "signature" = None ->
    signee_stripped (Verify.PChain sig k).

(** The scratch document [data] gives every signee the bytes of the base
    document [d] with the reserved field [cs]. *)
Definition based_on (n : nat) (d cs data : obj) : Prop :=
  forall sgn, Verify.snapshot n data sgn = snapshot_document d n sgn cs.

(** What the callback of [sign] finds shared, when [d] is the caller's
    document and [g] the global headers computed: the document with some
    reserved field, and the global headers with or without [signers]. *)
Definition shared_from {J : Jose} (d g : obj) (sh : Sign.Shared) : Prop :=
  (exists c, Sign.shared_data sh = Obj.set d CLEARTEXT c)
  /\ (forall x, Obj.set (Sign.shared_globalHeaders sh) "signers" x
                = Obj.set g "signers" x)
  /\ (forall h, Obj.has h "signers" = false ->
                Obj.omit h (Obj.keys (Sign.shared_globalHeaders sh))
                = Obj.omit h (Obj.keys g)).

(** A signatory header that uses none of the names the reserved field
    gives a meaning to. *)
Definition plain_header (h : obj) : Prop :=
  NoDup (Obj.keys h)
  /\ Obj.has h "signature" = false
  /\ Obj.has h "signers" = false
  /\ Obj.has h "valid" = false
  /\ Obj.has h "message" = false.

(** The record [sign] stores for a signatory whose key answered [mac],
    when the global headers are [g]. *)
Definition stored_record {J : Jose} (g : obj) (s : Sign.Signatory)
    (mac : bytes) : obj :=
  Obj.set (Obj.omit (Sign.header s) (Obj.keys g)) "signature"
    (VStr (base64url_encode mac)).

(** The key [getAlgKey] falls back to: the one the verifier was made
    with, else the one the key store has for the algorithm and key id. *)
Definition fallback_key {J : Jose} (v : Verify.JWSVerifier) (h : obj)
  : option Key :=
  match Verify.defaultKey v with
  | Some k => Some k
  | None =>
      keystore_get (Verify.keystore v)
        [("use", VStr "sig"); ("alg", Obj.get h "alg");
         ("kid", Obj.get h "kid")]
  end.

(** A header field that holds a string, and one that does when it is
    there. *)
Definition string_field (h : obj) (k : string) : Prop :=
  exists x, Obj.lookup h k = Some (VStr x).

Definition string_or_absent (h : obj) (k : string) : Prop :=
  Obj.lookup h k = None \/ string_field h k.

(** ** Descriptions of how promises settle *)



(** ** Descriptions of what verification does *)

(** The signee of a signer record: the record without the flags of an
    earlier verification and without its signature. *)
Definition signee_of (r : obj) : obj :=
  Obj.delete (Obj.omit r ["valid"; "message"]) "signature".

(** The decoded signature of a signer record. *)
Definition signature_of {J : Jose} (r : obj) : bytes :=
  match Obj.get r "signature" with
  | VStr s => base64url_decode s
  | _ => ""
  end.

(** How the verification of the signer record [r] settles when the
    embedded keys are not allowed, as a function of the verifier, the
    document [i], its number [n] of records, its reserved field [cs] and
    the record: there is no key for it, or the key answers for the bytes
    of the record's signee. *)
Definition settles {J : Jose} (v : Verify.JWSVerifier) (i : obj) (n : nat)
    (cs r : obj) : promise bool :=
  let hdr := Verify.effective_header cs r in
  match fallback_key v hdr with
  | None => Rejected "Key does not match"
  | Some key =>
      key_verify key (Obj.get hdr "alg")
        (snapshotForSigner i n (signee_of r) cs) (signature_of r)
  end.

(** The entry [e] with the flags of a verification that settled as [r]. *)
Definition flagged (e : obj) (r : promise bool) : obj :=
  match r with
  | Resolved valid => Obj.set e "valid" (VBool valid)
  | Rejected m => Obj.set (Obj.set e "valid" (VBool false)) "message" (VStr m)
  end.

(** The document [i'] has the fields of [i], in the same order, and
    differs from it in the reserved field at most. *)
Definition same_content (i i' : obj) : Prop :=
  Obj.keys i' = Obj.keys i
  /\ forall k, k <> CLEARTEXT -> Obj.lookup i' k = Obj.lookup i k.

(** A signer record that [verify] can process: it has a signature, and
    the allow-list of the options [o] has the algorithm of its header. *)
Definition well_formed {J : Jose} (o cs r : obj) : Prop :=
  (exists s, Obj.get r "signature" = VStr s)
  /\ AlgConfig_match (Obj.get o "algorithms")
       (Obj.get (Verify.effective_header cs r) "alg") = true.

(** The chain of the record [r] when the embedded keys are not allowed:
    it starts from the verifier's own key, or the one its key store has. *)
Definition chain_for {J : Jose} (v : Verify.JWSVerifier) (cs r : obj)
  : Verify.prepared :=
  Verify.PChain
    {| Verify.signee := signee_of r;
       Verify.header := Verify.effective_header cs r;
       Verify.signature := signature_of r |}
    (Resolved (fallback_key v (Verify.effective_header cs r))).

(** * Properties *)

Unset Implicit Arguments.

(** ** Objects *)

Section ObjFacts.

Lemma lookup_set_same (o : obj) (k : string) (v : value) :
  Obj.lookup (Obj.set o k v) k = Some v.
Proof.
  induction o as [|[k' v'] r IH]; simpl.
  - now rewrite String.eqb_refl.
  - destruct (String.eqb k' k) eqn:E; simpl.
    + now rewrite String.eqb_refl.
    + now rewrite E.
Qed.

Lemma lookup_set_other (o : obj) (k k' : string) (v : value) :
  k <> k' -> Obj.lookup (Obj.set o k v) k' = Obj.lookup o k'.
Proof.
  intros N. induction o as [|[k0 v0] r IH]; simpl.
  - destruct (String.eqb k k') eqn:E; [apply String.eqb_eq in E; contradiction|].
    reflexivity.
  - destruct (String.eqb k0 k) eqn:E; simpl.
    + apply String.eqb_eq in E; subst k0.
      destruct (String.eqb k k') eqn:E'; [apply String.eqb_eq in E'; contradiction|].
      reflexivity.
    + destruct (String.eqb k0 k'); [reflexivity | exact IH].
Qed.

Lemma get_set_same (o : obj) (k : string) (v : value) :
  Obj.get (Obj.set o k v) k = v.
Proof. unfold Obj.get. now rewrite lookup_set_same. Qed.

Lemma get_set_other (o : obj) (k k' : string) (v : value) :
  k <> k' -> Obj.get (Obj.set o k v) k' = Obj.get o k'.
Proof. intros N. unfold Obj.get. now rewrite lookup_set_other. Qed.

Lemma has_set (o : obj) (k k' : string) (v : value) :
  Obj.has (Obj.set o k v) k' = String.eqb k k' || Obj.has o k'.
Proof.
  unfold Obj.has. destruct (String.eqb k k') eqn:E.
  - apply String.eqb_eq in E; subst. now rewrite lookup_set_same.
  - apply String.eqb_neq in E. now rewrite lookup_set_other.
Qed.

(** Writing a property twice leaves the second value, in the place of
    the first. *)
Lemma set_set (o : obj) (k : string) (v w : value) :
  Obj.set (Obj.set o k v) k w = Obj.set o k w.
Proof.
  induction o as [|[k' v'] r IH]; simpl.
  - now rewrite String.eqb_refl.
  - destruct (String.eqb k' k) eqn:E; simpl.
    + now rewrite String.eqb_refl.
    + now rewrite E, IH.
Qed.

Lemma lookup_omit (o : obj) (ks : list string) (k : string) :
  Obj.lookup (Obj.omit o ks) k
  = if Obj.mem k ks then None else Obj.lookup o k.
Proof.
  induction o as [|[k' v'] r IH]; simpl.
  - now destruct (Obj.mem k ks).
  - destruct (Obj.mem k' ks) eqn:M; simpl.
    + rewrite IH. destruct (String.eqb k' k) eqn:E; [|reflexivity].
      apply String.eqb_eq in E; subst. now rewrite M.
    + destruct (String.eqb k' k) eqn:E.
      * apply String.eqb_eq in E; subst. now rewrite M.
      * exact IH.
Qed.

Lemma lookup_delete (o : obj) (k k' : string) :
  Obj.lookup (Obj.delete o k) k'
  = if String.eqb k' k then None else Obj.lookup o k'.
Proof.
  induction o as [|[k0 v0] r IH]; simpl.
  - now destruct (String.eqb k' k).
  - destruct (String.eqb k0 k) eqn:M; simpl.
    + rewrite IH. destruct (String.eqb k0 k') eqn:E; [|reflexivity].
      apply String.eqb_eq in E; subst. now rewrite M.
    + destruct (String.eqb k0 k') eqn:E.
      * apply String.eqb_eq in E; subst. now rewrite M.
      * exact IH.
Qed.

(** [omit] only looks at which names are listed. *)
Lemma omit_ext (o : obj) (ks ks' : list string) :
  (forall k, Obj.mem k ks = Obj.mem k ks') ->
  Obj.omit o ks = Obj.omit o ks'.
Proof.
  intros H. unfold Obj.omit. apply filter_ext. intros [k v]; simpl.
  now rewrite H.
Qed.

Lemma mem_keys (o : obj) (k : string) :
  Obj.mem k (Obj.keys o) = Obj.has o k.
Proof.
  unfold Obj.has. induction o as [|[k' v'] r IH]; simpl; [reflexivity|].
  rewrite (String.eqb_sym k k').
  destruct (String.eqb k' k); simpl; [reflexivity | exact IH].
Qed.

Lemma mem_cons (k a : string) (l : list string) :
  Obj.mem k (a :: l) = String.eqb k a || Obj.mem k l.
Proof. reflexivity. Qed.

Lemma mem_keys_set (o : obj) (k k' : string) (v : value) :
  Obj.mem k' (Obj.keys (Obj.set o k v)) = String.eqb k k' || Obj.mem k' (Obj.keys o).
Proof. now rewrite !mem_keys, has_set. Qed.

(** Omitting names the object does not have changes nothing. *)
Lemma omit_absent (o : obj) (ks : list string) :
  (forall k, Obj.mem k ks = true -> Obj.has o k = false) ->
  Obj.omit o ks = o.
Proof.
  intros H. induction o as [|[k v] r IH]; simpl; [reflexivity|].
  destruct (Obj.mem k ks) eqn:M; simpl.
  - apply H in M. unfold Obj.has in M; simpl in M.
    now rewrite String.eqb_refl in M.
  - f_equal. apply IH. intros k' M'. specialize (H k' M').
    unfold Obj.has in *; simpl in H.
    destruct (String.eqb k k'); [discriminate | exact H].
Qed.

Lemma omit_ext_on (o : obj) (ks ks' : list string) :
  (forall k, Obj.has o k = true -> Obj.mem k ks = Obj.mem k ks') ->
  Obj.omit o ks = Obj.omit o ks'.
Proof.
  induction o as [|[k v] r IH]; intros H; simpl; [reflexivity|].
  assert (Hk : Obj.mem k ks = Obj.mem k ks').
  { apply H. unfold Obj.has. simpl. now rewrite String.eqb_refl. }
  rewrite Hk. rewrite IH; [reflexivity|].
  intros k' Hk'. destruct (String.eqb k k') eqn:E.
  - apply String.eqb_eq in E. now subst.
  - apply H. unfold Obj.has in *. simpl. now rewrite E.
Qed.

Lemma omit_nothing (o : obj) : Obj.omit o [] = o.
Proof. apply omit_absent. intros k H. discriminate. Qed.

Lemma delete_set_absent (o : obj) (k : string) (v : value) :
  Obj.has o k = false -> Obj.delete (Obj.set o k v) k = o.
Proof.
  unfold Obj.has, Obj.delete.
  induction o as [|[k' v'] r IH]; simpl.
  - now rewrite String.eqb_refl.
  - destruct (String.eqb k' k) eqn:E; [discriminate|].
    intros H. simpl. rewrite E. simpl. f_equal. now apply IH.
Qed.

Lemma keys_set_absent (o : obj) (k : string) (v : value) :
  Obj.has o k = false -> Obj.keys (Obj.set o k v) = Obj.keys o ++ [k].
Proof.
  unfold Obj.has. induction o as [|[k' v'] r IH]; simpl; [reflexivity|].
  destruct (String.eqb k' k) eqn:E; [discriminate|].
  intros H. simpl. f_equal. now apply IH.
Qed.

Lemma has_false_not_in (o : obj) (k : string) :
  Obj.has o k = false -> ~ In k (Obj.keys o).
Proof.
  unfold Obj.has. induction o as [|[k' v'] r IH]; simpl; [tauto|].
  destruct (String.eqb k' k) eqn:E; [discriminate|].
  apply String.eqb_neq in E. intros H [F|F]; [contradiction | now apply IH].
Qed.

Lemma nodup_set_absent (o : obj) (k : string) (v : value) :
  NoDup (Obj.keys o) -> Obj.has o k = false ->
  NoDup (Obj.keys (Obj.set o k v)).
Proof.
  intros N H. rewrite keys_set_absent by exact H.
  apply NoDup_app; [exact N | repeat constructor; tauto |].
  intros x Hx [<-|[]]. now apply (@has_false_not_in o k).
Qed.

Lemma has_false_get (o : obj) (k : string) :
  Obj.has o k = false -> Obj.get o k = VUndef.
Proof. unfold Obj.has, Obj.get. now destruct (Obj.lookup o k). Qed.

Lemma nodup_set (o : obj) (k : string) (v : value) :
  NoDup (Obj.keys o) -> NoDup (Obj.keys (Obj.set o k v)).
Proof.
  intros N. destruct (Obj.has o k) eqn:H.
  - assert (E : Obj.keys (Obj.set o k v) = Obj.keys o); [|now rewrite E].
    clear N. unfold Obj.has in H. induction o as [|[k' v'] r IH]; [discriminate|].
    simpl in *. destruct (String.eqb k' k) eqn:E.
    + apply String.eqb_eq in E. now subst.
    + simpl. f_equal. now apply IH.
  - now apply nodup_set_absent.
Qed.

Lemma mem_in (k : string) (ks : list string) :
  Obj.mem k ks = true <-> In k ks.
Proof.
  unfold Obj.mem. rewrite existsb_exists. split.
  - intros (x & Hx & E). apply String.eqb_eq in E. now subst.
  - intros H. exists k. split; [exact H | apply String.eqb_refl].
Qed.

Lemma nodup_omit (h : obj) (ks : list string) :
  NoDup (Obj.keys h) -> NoDup (Obj.keys (Obj.omit h ks)).
Proof.
  induction h as [|[k x] r IH]; simpl; intros N; [constructor|].
  inversion N as [|? ? Hk Hr]; subst.
  destruct (Obj.mem k ks); simpl; [now apply IH|].
  constructor; [|now apply IH].
  intros H. apply Hk. clear - H. induction r as [|[k' x'] r IH]; [destruct H|].
  simpl in *. destruct (Obj.mem k' ks); simpl in *; intuition.
Qed.

Lemma has_omit (h : obj) (ks : list string) (k : string) :
  Obj.has h k = false -> Obj.has (Obj.omit h ks) k = false.
Proof.
  unfold Obj.has. rewrite lookup_omit.
  now destruct (Obj.mem k ks), (Obj.lookup h k).
Qed.

Lemma omit_set_absent (c : obj) (k : string) (x : value) :
  Obj.has c k = false -> Obj.omit (Obj.set c k x) [k] = c.
Proof.
  unfold Obj.has, Obj.omit.
  induction c as [|[k' x'] r IH]; simpl.
  - now rewrite String.eqb_refl.
  - destruct (String.eqb k' k) eqn:E; [discriminate|].
    intros H. simpl. rewrite E. simpl. f_equal. now apply IH.
Qed.

End ObjFacts.

(** ** Merging *)

Section MergeFacts.

Lemma merge_is_merge_fields (dst src : obj) :
  merge dst src = merge_fields dst src.
Proof.
  unfold merge. simpl. revert dst.
  induction src as [|[k v] r IH]; intros dst; [reflexivity|].
  simpl. apply IH.
Qed.

Lemma merge_fields_absent (fs : list (string * value)) (acc : obj)
    (k : string) :
  Obj.lookup fs k = None ->
  Obj.get (merge_fields acc fs) k = Obj.get acc k.
Proof.
  revert acc. induction fs as [|[k' v] r IH]; intros acc H; [reflexivity|].
  simpl in H. destruct (String.eqb k' k) eqn:E; [discriminate|].
  apply String.eqb_neq in E. simpl. rewrite (IH _ H).
  destruct v; try (now apply get_set_other).
  destruct (Obj.has acc k'); [reflexivity | now apply get_set_other].
Qed.

(** A source property that holds a primitive value is assigned, unless it
    is [undefined] and the destination has the property. *)
Lemma merge_fields_primitive (fs : list (string * value)) (acc : obj)
    (k : string) (v : value) :
  NoDup (Obj.keys fs) ->
  Obj.lookup fs k = Some v ->
  primitive v = true ->
  Obj.get (merge_fields acc fs) k
  = match v with VUndef => Obj.get acc k | _ => v end.
Proof.
  revert acc. induction fs as [|[k' v'] r IH]; intros acc N H P; [discriminate|].
  simpl in H, N. inversion N as [|? ? Hk Hr]; subst.
  destruct (String.eqb k' k) eqn:E.
  - apply String.eqb_eq in E. subst k'. injection H as ->.
    simpl. rewrite merge_fields_absent.
    + destruct v; try discriminate; try (now apply get_set_same).
      destruct (Obj.has acc k) eqn:Hh; [reflexivity|].
      rewrite get_set_same. unfold Obj.get, Obj.has in *.
      now destruct (Obj.lookup acc k).
    + destruct (Obj.lookup r k) eqn:L; [|reflexivity].
      exfalso. apply Hk. clear - L. revert L.
      induction r as [|[k1 v1] r IH]; [discriminate|].
      simpl. destruct (String.eqb k1 k) eqn:E.
      * apply String.eqb_eq in E. now left.
      * intros L. right. now apply IH.
  - apply String.eqb_neq in E. simpl. rewrite (IH _ Hr H P).
    destruct v; try reflexivity.
    destruct v'; try (now apply get_set_other).
    destruct (Obj.has acc k'); [reflexivity | now apply get_set_other].
Qed.

(** The property [k] of the header of a record: the own value when it is
    primitive and the reserved field has the same or none. *)
Lemma merge_twice_primitive (a b : obj) (k : string) :
  NoDup (Obj.keys a) -> NoDup (Obj.keys b) ->
  primitive (Obj.get a k) = true ->
  Obj.lookup b k = Obj.lookup a k \/ Obj.lookup b k = None ->
  Obj.get (merge (merge [] a) b) k = Obj.get a k.
Proof.
  intros Na Nb P Hb.
  rewrite (merge_is_merge_fields (merge [] a) b), (merge_is_merge_fields [] a).
  assert (Ha : Obj.get (merge_fields [] a) k = Obj.get a k).
  { unfold Obj.get at 2. destruct (Obj.lookup a k) as [v|] eqn:L.
    - rewrite (@merge_fields_primitive a [] k v Na L).
      + now destruct v.
      + unfold Obj.get in P. now rewrite L in P.
    - now rewrite merge_fields_absent. }
  destruct Hb as [Hb|Hb].
  - unfold Obj.get at 2. destruct (Obj.lookup a k) as [v|] eqn:L.
    + rewrite (@merge_fields_primitive b _ k v Nb Hb).
      * rewrite Ha. unfold Obj.get. rewrite L. now destruct v.
      * unfold Obj.get in P. now rewrite L in P.
    + rewrite merge_fields_absent; [|exact Hb]. rewrite Ha.
      unfold Obj.get. now rewrite L.
  - rewrite merge_fields_absent; [exact Ha | exact Hb].
Qed.

End MergeFacts.

(** ** Settling of promises *)

Section Promises.

Context {A : Type}.

Lemma promise_all_rejects (ps : list (promise A)) (m : string) :
  In (Rejected m) ps -> exists m', promise_all ps = Rejected m'.
Proof.
  induction ps as [|p ps IH]; intros H; [destruct H|].
  destruct p as [a|m0]; simpl.
  - destruct H as [H|H]; [discriminate|].
    destruct (IH H) as [m' E]. rewrite E. now exists m'.
  - now exists m0.
Qed.

Lemma promise_all_rejected (ps : list (promise A)) (m : string) :
  promise_all ps = Rejected m -> In (Rejected m) ps.
Proof.
  induction ps as [|p ps IH]; simpl; [discriminate|].
  destruct p as [a|m0].
  - destruct (promise_all ps) as [l|m1]; [discriminate|].
    intros E. injection E as ->. right. now apply IH.
  - intros E. injection E as ->. now left.
Qed.

Lemma promise_all_resolved (ps : list (promise A)) (l : list A) :
  promise_all ps = Resolved l -> ps = map Resolved l.
Proof.
  revert l. induction ps as [|p ps IH]; simpl; intros l E.
  - now injection E as <-.
  - destruct p as [a|m0]; [|discriminate].
    destruct (promise_all ps) as [l'|m1]; [|discriminate].
    injection E as <-. simpl. f_equal. now apply IH.
Qed.

Lemma promise_all_map_resolved (l : list A) :
  promise_all (map Resolved l) = Resolved l.
Proof. induction l as [|a l IH]; simpl; [reflexivity | now rewrite IH]. Qed.

(** [earliest] finds a rejection exactly when there is one. *)
Lemma earliest_none (ts : list nat) (ps : list (promise A)) :
  earliest ts ps = None <-> forall m, ~ In (Rejected m) ps.
Proof.
  revert ts. induction ps as [|p ps IH]; intros ts; simpl.
  - split; [intros _ m [] | reflexivity].
  - destruct p as [a|m].
    + rewrite IH. split; intros H m; [intros [E|E]; [discriminate|]|]; firstorder.
    + split.
      * destruct (earliest (tl ts) ps) as [[t' m']|];
          [destruct (Nat.ltb t' (hd 0 ts))|]; discriminate.
      * intros H. exfalso. apply (H m). now left.
Qed.

Lemma earliest_in (ts : list nat) (ps : list (promise A)) (t : nat)
    (m : string) :
  earliest ts ps = Some (t, m) -> In (Rejected m) ps.
Proof.
  revert ts t m. induction ps as [|p ps IH]; intros ts t m; simpl;
    [discriminate|].
  destruct p as [a|m0].
  - intros H. right. now apply IH with (ts := tl ts) (t := t).
  - destruct (earliest (tl ts) ps) as [[t' m']|] eqn:E.
    + destruct (Nat.ltb t' (hd 0 ts)); intros [= <- <-].
      * right. now apply IH with (ts := tl ts) (t := t').
      * now left.
    + intros [= <- <-]. now left.
Qed.

Lemma promise_all_no_rejection (ps : list (promise A)) :
  (forall m, ~ In (Rejected m) ps) -> exists l, promise_all ps = Resolved l.
Proof.
  induction ps as [|p ps IH]; intros H; [now exists []|].
  destruct p as [a|m]; [|destruct (H m); now left].
  destruct IH as [l E]; [intros m Hm; apply (H m); now right|].
  exists (a :: l). simpl. now rewrite E.
Qed.

Lemma promise_all_at_resolved (ts : list nat) (ps : list (promise A))
    (l : list A) :
  promise_all ps = Resolved l -> promise_all_at ts ps = Resolved l.
Proof.
  intros H. unfold promise_all_at.
  destruct (earliest ts ps) as [[t m]|] eqn:E; [|exact H].
  apply earliest_in in E. apply promise_all_rejects in E.
  destruct E as [m' E]. congruence.
Qed.

Lemma promise_all_at_resolves (ts : list nat) (ps : list (promise A))
    (l : list A) :
  promise_all_at ts ps = Resolved l -> promise_all ps = Resolved l.
Proof.
  unfold promise_all_at. now destruct (earliest ts ps) as [[t m]|].
Qed.

Lemma promise_all_at_rejected (ts : list nat) (ps : list (promise A))
    (m : string) :
  promise_all_at ts ps = Rejected m -> In (Rejected m) ps.
Proof.
  unfold promise_all_at. destruct (earliest ts ps) as [[t m']|] eqn:E.
  - intros [= <-]. now apply earliest_in with (ts := ts) (t := t).
  - intros H. apply earliest_none with (m := m) in E.
    apply promise_all_rejected in H. contradiction.
Qed.

Lemma promise_all_at_rejects (ts : list nat) (ps : list (promise A))
    (m : string) :
  In (Rejected m) ps -> exists m', promise_all_at ts ps = Rejected m'.
Proof.
  intros H. unfold promise_all_at.
  destruct (earliest ts ps) as [[t m']|] eqn:E; [now exists m'|].
  apply earliest_none with (m := m) in E. contradiction.
Qed.

Lemma promise_all_at_map_resolved (ts : list nat) (l : list A) :
  promise_all_at ts (map Resolved l) = Resolved l.
Proof. apply promise_all_at_resolved, promise_all_map_resolved. Qed.





(** Promises that are resolved count for nothing. *)
Lemma earliest_app_resolved (ts1 ts2 : list nat) (l : list A)
    (ps : list (promise A)) :
  length ts1 = length l ->
  earliest (ts1 ++ ts2) (map Resolved l ++ ps) = earliest ts2 ps.
Proof.
  revert ts1. induction l as [|a l IH]; intros [|t ts1]; simpl;
    try discriminate; [reflexivity|].
  intros [= H]. now apply IH.
Qed.

(** No rejection is settled before the least tick. *)
Lemma earliest_least (t : nat) (ts : list nat) (ps : list (promise A))
    (t' : nat) (m : string) :
  Forall (le t) ts ->
  length ps <= length ts ->
  earliest ts ps = Some (t', m) -> t <= t'.
Proof.
  revert ts t' m. induction ps as [|p ps IH]; intros ts t' m F L; simpl;
    [discriminate|].
  destruct ts as [|t0 ts]; [simpl in L; lia|].
  inversion F as [|? ? F0 F1]; subst. simpl in L. simpl tl. simpl hd.
  destruct p as [a|m0].
  - apply IH; [exact F1 | lia].
  - destruct (earliest ts ps) as [[t1 m1]|] eqn:E.
    + destruct (Nat.ltb t1 t0); intros [= <- <-]; [|exact F0].
      apply (IH ts t1 m1 F1); [lia | exact E].
    + now intros [= <- <-].
Qed.

End Promises.

(** ** The global headers *)

Section GlobalHeaders.

Context {J : Jose}.

(** From the third value on, [reduce] compares a boolean with a header
    value: over three or more strings it ends in [false]. *)
Lemma reduce_strings (x y z : string) (rest : list string) :
  Sign.reduce_strict_eq (map VStr (x :: y :: z :: rest)) = VBool false.
Proof.
  unfold Sign.reduce_strict_eq. simpl.
  generalize (String.eqb x y). intros b.
  assert (H : forall l, fold_left (fun a c => VBool (strict_eq a c))
                          (map VStr l) (VBool false) = VBool false).
  { induction l as [|s l IH]; simpl; [reflexivity | exact IH]. }
  destruct b; simpl; apply H.
Qed.

(** With two signatories the comparison is the one intended. *)
Lemma reduce_pair (a b : value) :
  Sign.reduce_strict_eq [a; b] = VBool (strict_eq a b).
Proof. reflexivity. Qed.

End GlobalHeaders.

(** *** What the global headers hold *)

Section GlobalHeaderFacts.

Context {J : Jose}.

Lemma intersection_in (arrays : list (list string)) (k : string) :
  In k (intersection arrays) ->
  forall a, In a arrays -> Obj.mem k a = true.
Proof.
  destruct arrays as [|first others]; [intros []|].
  simpl. rewrite filter_In, nodup_In. intros [Hf Ho] a [<-|Ha].
  - now apply mem_in.
  - rewrite forallb_forall in Ho. now apply Ho.
Qed.

Lemma collect_lookup (sigs : list Sign.Signatory) (ks : list string)
    (g0 : obj) (k : string) (v : value) :
  Obj.lookup (fold_left (Sign.collect sigs) ks g0) k = Some v ->
  Obj.lookup g0 k = Some v
  \/ (In k ks
      /\ truthy (Sign.reduce_strict_eq
                   (map (fun a => Obj.get (Sign.header a) k) sigs)) = true
      /\ v = hd VUndef (map (fun a => Obj.get (Sign.header a) k) sigs)).
Proof.
  revert g0. induction ks as [|k0 ks IH]; intros g0 H; [now left|].
  simpl in H. destruct (IH _ H) as [H'|(Hin & Ht & Hv)].
  - unfold Sign.collect in H'.
    destruct (truthy (Sign.reduce_strict_eq
                        (map (fun a => Obj.get (Sign.header a) k0) sigs))) eqn:T;
      [|now left].
    destruct (String.eqb k0 k) eqn:E.
    + apply String.eqb_eq in E. subst k0. rewrite lookup_set_same in H'.
      injection H' as <-. right. split; [now left | now split].
    + apply String.eqb_neq in E. rewrite lookup_set_other in H' by exact E.
      now left.
  - right. split; [now right | now split].
Qed.

Lemma collect_nodup (sigs : list Sign.Signatory) (ks : list string) (g0 : obj) :
  NoDup (Obj.keys g0) -> NoDup (Obj.keys (fold_left (Sign.collect sigs) ks g0)).
Proof.
  revert g0. induction ks as [|k0 ks IH]; intros g0 N; [exact N|].
  simpl. apply IH. unfold Sign.collect.
  destruct (truthy _); [now apply nodup_set | exact N].
Qed.

Lemma globalHeaders_is_collect (sigs : list Sign.Signatory) :
  Sign.globalHeaders sigs
  = if Nat.eqb (length sigs) 1 then []
    else fold_left (Sign.collect sigs)
           (intersection (map (fun s => Obj.keys (Sign.header s)) sigs)) [].
Proof. reflexivity. Qed.

Lemma globalHeaders_nodup (sigs : list Sign.Signatory) :
  NoDup (Obj.keys (Sign.globalHeaders sigs)).
Proof.
  rewrite globalHeaders_is_collect. destruct (Nat.eqb _ 1); [constructor|].
  apply collect_nodup. constructor.
Qed.

(** A global header is a field of every signatory... *)
Lemma globalHeaders_has (sigs : list Sign.Signatory) (k : string) (v : value) :
  Obj.lookup (Sign.globalHeaders sigs) k = Some v ->
  forall s, In s sigs -> Obj.has (Sign.header s) k = true.
Proof.
  rewrite globalHeaders_is_collect. destruct (Nat.eqb _ 1); [discriminate|].
  intros H s Hs. apply collect_lookup in H.
  destruct H as [H|(Hin & _)]; [discriminate|].
  rewrite <- mem_keys.
  apply (intersection_in _ _ Hin). now apply in_map with (f := fun s => Obj.keys (Sign.header s)).
Qed.

Lemma string_values (sigs : list Sign.Signatory) (k : string) :
  (forall s, In s sigs -> string_field (Sign.header s) k) ->
  exists l, map (fun a => Obj.get (Sign.header a) k) sigs = map VStr l.
Proof.
  intros Hf. induction sigs as [|s sigs IH]; [now exists []|].
  destruct (Hf s (or_introl eq_refl)) as [x Hx].
  destruct IH as [l Hl]; [intros s' H'; apply Hf; now right|].
  exists (x :: l). simpl. rewrite Hl. unfold Obj.get. now rewrite Hx.
Qed.

(** ... and when the field is a string in all of them, it has the value
    of the global header in all of them. *)
Lemma globalHeaders_string (sigs : list Sign.Signatory) (k : string)
    (v : value) :
  Obj.lookup (Sign.globalHeaders sigs) k = Some v ->
  (forall s, In s sigs -> string_field (Sign.header s) k) ->
  forall s, In s sigs -> Obj.get (Sign.header s) k = v.
Proof.
  rewrite globalHeaders_is_collect.
  destruct (Nat.eqb (length sigs) 1) eqn:N; [discriminate|].
  intros H Hf. apply collect_lookup in H.
  destruct H as [H|(_ & Ht & ->)]; [discriminate|].
  destruct (string_values sigs k Hf) as [l V]. rewrite V in Ht.
  assert (L : length l = length sigs).
  { apply (f_equal (@length _)) in V. now rewrite !length_map in V. }
  destruct l as [|x [|y [|z rest]]].
  - discriminate.
  - rewrite <- L in N. discriminate.
  - simpl in Ht. apply String.eqb_eq in Ht. subst y.
    intros s Hs. rewrite V. simpl.
    apply (in_map (fun a => Obj.get (Sign.header a) k)) in Hs.
    rewrite V in Hs. simpl in Hs. intuition congruence.
  - rewrite reduce_strings in Ht. discriminate.
Qed.

End GlobalHeaderFacts.

(** C1: the global header set is not the set of fields shared with equal
    values.  A field that holds a string in each of three or more
    signatories never becomes global, whether the strings are equal or
    not; and of three signatories whose [typ] is ["a"], ["b"] and [false]
    the field [typ] becomes global with the value of the first. *)
Theorem globalHeaders_three_signatories {J : Jose} :
  (forall (sigs : list Sign.Signatory) (k : string),
      3 <= length sigs ->
      (forall s, In s sigs -> string_field (Sign.header s) k) ->
      Obj.lookup (Sign.globalHeaders sigs) k = None)
  /\ (forall k1 k2 k3 : Key,
         Sign.globalHeaders
           [ {| Sign.key := k1; Sign.header := [("typ", VStr "a")] |};
             {| Sign.key := k2; Sign.header := [("typ", VStr "b")] |};
             {| Sign.key := k3; Sign.header := [("typ", VBool false)] |} ]
         = [("typ", VStr "a")]).
Proof.
  split; [|reflexivity].
  intros sigs k Hn Hf.
  destruct (Obj.lookup (Sign.globalHeaders sigs) k) as [v|] eqn:L;
    [|reflexivity].
  exfalso. rewrite globalHeaders_is_collect in L.
  destruct (Nat.eqb (length sigs) 1); [discriminate|].
  apply collect_lookup in L. destruct L as [L|(_ & Ht & _)]; [discriminate|].
  destruct (string_values sigs k Hf) as [l V]. rewrite V in Ht.
  assert (Hl : length l = length sigs).
  { apply (f_equal (@length _)) in V. now rewrite !length_map in V. }
  destruct l as [|x [|y [|z rest]]]; simpl in Hl; try lia.
  rewrite reduce_strings in Ht. discriminate.
Qed.

(** Alice, Bob and Carol all sign with [alg: "HS256"] and [kid: "X"]:
    neither field is made global. *)
Lemma globalHeaders_three_signatories_witness :
  let h := [("alg", VStr "HS256"); ("kid", VStr "X")] in
  let sigs := [Toy.signatory Toy.alice h; Toy.signatory Toy.bob h;
               Toy.signatory Toy.carol h] in
  Obj.lookup (Sign.globalHeaders sigs) "kid" = None
  /\ Sign.globalHeaders sigs = [].
Proof.
  intros h sigs. split; [|reflexivity].
  apply (proj1 (globalHeaders_three_signatories (J := Toy.jose)) sigs "kid").
  - simpl. lia.
  - intros s [<-|[<-|[<-|[]]]]; exists "X"; reflexivity.
Defined.

(** ** Signing *)

Section SignFacts.

Context {J : Jose}.

(** Every key is asked once, in the order of the signatories. *)
Lemma sign_map_calls (n : nat) (sigs : list Sign.Signatory) (sh : Sign.Shared) :
  length (snd (fst (Sign.sign_map n sh sigs))) = length sigs
  /\ length (snd (Sign.sign_map n sh sigs)) = length sigs.
Proof.
  revert sh. induction sigs as [|s sigs IH]; intros sh; simpl; [now split|].
  destruct (Sign.sign_map n (Sign.materialize n sh s) sigs) as [[sh2 cs] ps] eqn:E.
  specialize (IH (Sign.materialize n sh s)). rewrite E in IH. simpl in *.
  destruct IH as [H1 H2]. now rewrite H1, H2.
Qed.


(** With several, the reserved field is the object of the global headers,
    whose [signers] holds the own fields of the signatory the callback ran
    for last; from the second signatory on, [signers] is among the names
    omitted. *)
Lemma sign_map_several (n : nat) (sigs : list Sign.Signatory)
    (sh : Sign.Shared) (s : Sign.Signatory) :
  Nat.eqb n 1 = false ->
  let sh' := fst (fst (Sign.sign_map n sh (s :: sigs))) in
  let g := Sign.shared_globalHeaders sh in
  Sign.shared_globalHeaders sh'
  = Obj.set g "signers"
      (VArr [VObj (Obj.omit (Sign.header (last_of s sigs))
                     (match sigs with
                      | [] => Obj.keys g
                      | _ => "signers" :: Obj.keys g
                      end))])
  /\ Sign.shared_data sh'
     = Obj.set (Sign.shared_data sh) CLEARTEXT (VObj (Sign.shared_globalHeaders sh')).
Proof.
  intros Hn. revert sh s. induction sigs as [|s2 rest IH]; intros sh s.
  - simpl. unfold Sign.materialize. rewrite Hn. simpl. now split.
  - specialize (IH (Sign.materialize n sh s) s2).
    change (Sign.sign_map n sh (s :: s2 :: rest))
      with (let '(sh1, c, p) := Sign.sign_one n sh s in
            let '(sh2, cs, ps) := Sign.sign_map n sh1 (s2 :: rest) in
            (sh2, c :: cs, p :: ps)).
    unfold Sign.sign_one at 1.
    destruct (Sign.sign_map n (Sign.materialize n sh s) (s2 :: rest))
      as [[sh2 cs] ps] eqn:E.
    simpl fst in *. destruct IH as [IHg IHd].
    assert (G1 : Sign.shared_globalHeaders (Sign.materialize n sh s)
                 = Obj.set (Sign.shared_globalHeaders sh) "signers"
                     (VArr [VObj (Obj.omit (Sign.header s)
                                    (Obj.keys (Sign.shared_globalHeaders sh)))])).
    { unfold Sign.materialize. now rewrite Hn. }
    assert (D1 : Sign.shared_data (Sign.materialize n sh s)
                 = Obj.set (Sign.shared_data sh) CLEARTEXT
                     (VObj (Sign.shared_globalHeaders (Sign.materialize n sh s)))).
    { unfold Sign.materialize. now rewrite Hn. }
    split.
    + rewrite IHg, G1, set_set. simpl last_of.
      assert (C : forall g o ks ks',
                 (forall k, Obj.mem k ks = Obj.mem k ks') ->
                 Obj.set g "signers" (VArr [VObj (Obj.omit o ks)])
                 = Obj.set g "signers" (VArr [VObj (Obj.omit o ks')])).
      { intros g o ks ks' H. now rewrite (omit_ext o ks ks' H). }
      assert (X : forall k,
                 Obj.mem k ("signers" :: Obj.keys
                    (Obj.set (Sign.shared_globalHeaders sh) "signers"
                       (VArr [VObj (Obj.omit (Sign.header s)
                                      (Obj.keys (Sign.shared_globalHeaders sh)))])))
                 = Obj.mem k ("signers" :: Obj.keys (Sign.shared_globalHeaders sh))).
      { intros k. rewrite !mem_cons, mem_keys_set, (String.eqb_sym "signers" k).
        now destruct (String.eqb k "signers"). }
      destruct rest as [|s3 rest'].
      * apply C. intros k.
        now rewrite mem_cons, mem_keys_set, (String.eqb_sym k).
      * apply C. exact X.
    + now rewrite IHd, D1, set_set.
Qed.

End SignFacts.

(** When a signatory is not resolved, [sign] rejects before any key is
    asked, and the placeholder stays in the document. *)
Lemma sign_unresolved {J : Jose} (signer : Sign.JWSSigner) (d : obj)
    (m : string) :
  Sign.finalized signer = false ->
  promise_all_at (Sign.settles signer) (Sign.signatories signer) = Rejected m ->
  Sign.sign_promise (Sign.sign signer (VObj d)) = Rejected m
  /\ Sign.sign_calls (Sign.sign signer (VObj d)) = []
  /\ Sign.sign_data (Sign.sign signer (VObj d))
     = VObj (Obj.set d CLEARTEXT (VObj [])).
Proof.
  intros Hf Hm. unfold Sign.sign. rewrite Hf, Hm. now simpl.
Qed.






(** ** Resolution of the signatories *)

Section Resolution.

Context {J : Jose}.

Lemma resolve_from_app (allFields : obj) (idx : nat)
    (before after : list Sign.signatory_spec) :
  Sign.resolve_from allFields idx (before ++ after)
  = Sign.resolve_from allFields idx before
    ++ Sign.resolve_from allFields (idx + length before) after.
Proof.
  revert idx. induction before as [|s before IH]; intros idx; simpl.
  - now rewrite Nat.add_0_r.
  - now rewrite IH, Nat.add_succ_r.
Qed.

(** Asking for the whole key of a symmetric key is refused. *)
Lemma complete_jwk_oct (allFields : obj) (k : Key) (hdr : option obj) :
  kty k = "oct" ->
  Sign.complete allFields k hdr (Sign.RefString "jwk") = Rejected "cannot embed key".
Proof.
  intros Hk. unfold Sign.complete. simpl. now rewrite Hk.
Qed.

(** Whatever the reference asked for, the resolution of a symmetric key
    puts no [jwk] into the header: the field is as the caller's own
    fields have it. *)
Lemma complete_oct_no_jwk (allFields : obj) (k : Key) (hdr : option obj)
    (ref : Sign.reference) (s : Sign.Signatory) :
  kty k = "oct" ->
  Sign.complete allFields k hdr ref = Resolved s ->
  Obj.lookup (Sign.header s) "jwk"
  = Obj.lookup (merge (merge [] allFields)
                  (match hdr with Some h => h | None => [] end)) "jwk".
Proof.
  intros Hk. unfold Sign.complete.
  set (h0 := merge (merge [] allFields) (match hdr with Some h => h | None => [] end)).
  set (h1 := if truthy (Obj.get h0 "alg") then h0
             else Obj.set h0 "alg" (VStr (hd "" (algorithms k)))).
  assert (H1 : Obj.lookup h1 "jwk" = Obj.lookup h0 "jwk").
  { unfold h1. destruct (truthy (Obj.get h0 "alg")); [reflexivity|].
    now apply lookup_set_other. }
  destruct (Sign.key_reference ref h1) as [r|].
  - destruct (String.eqb "jwk" r) eqn:E.
    + rewrite Hk. simpl. discriminate.
    + apply String.eqb_neq in E.
      destruct (Obj.has (toJSON k) r); intros H; injection H as <-; simpl.
      * rewrite lookup_set_other; [exact H1 | congruence].
      * exact H1.
  - intros H; injection H as <-. exact H1.
Qed.

End Resolution.

(** C9: a signatory that asks for the whole key ([reference: "jwk"]) with
    a symmetric key is rejected with ["cannot embed key"]; a signer that
    has such a signatory rejects [sign] without asking any key for a
    signature and leaves the placeholder in the reserved field; and no
    resolution of a symmetric key writes a [jwk] into the header. *)
Theorem symmetric_key_is_never_embedded {J : Jose} (opts : obj)
    (before after : list Sign.signatory_spec) (r : KeyRef)
    (hdr : option obj) (k : Key) (data : obj) :
  asKey r = Resolved k ->
  kty k = "oct" ->
  let s := Sign.SpecDescriptor r hdr (Sign.RefString "jwk") in
  let res := Sign.sign (Sign.createSign opts (before ++ s :: after)) (VObj data) in
  (forall allFields idx,
      Sign.resolve allFields s idx = Rejected "cannot embed key")
  /\ (exists m, Sign.sign_promise res = Rejected m)
  /\ Sign.sign_calls res = []
  /\ Sign.sign_data res = VObj (Obj.set data CLEARTEXT (VObj []))
  /\ (forall allFields hdr' ref sg,
         Sign.complete allFields k hdr' ref = Resolved sg ->
         Obj.lookup (Sign.header sg) "jwk"
         = Obj.lookup (merge (merge [] allFields)
                         (match hdr' with Some h => h | None => [] end)) "jwk").
Proof.
  intros Hr Hk s res.
  assert (R : forall allFields idx,
             Sign.resolve allFields s idx = Rejected "cannot embed key").
  { intros allFields idx. unfold s. simpl. rewrite Hr. simpl.
    now apply complete_jwk_oct. }
  split; [exact R|].
  assert (P : exists m,
             promise_all_at
               (Sign.settles (Sign.createSign opts (before ++ s :: after)))
               (Sign.signatories
                  (Sign.createSign opts (before ++ s :: after)))
             = Rejected m).
  { apply promise_all_at_rejects with (m := "cannot embed key").
    unfold Sign.createSign. simpl Sign.signatories.
    rewrite resolve_from_app. apply in_or_app. right. left. apply R. }
  destruct P as [m P].
  destruct (sign_unresolved
              (Sign.createSign opts (before ++ s :: after)) data m eq_refl P)
    as (F1 & F2 & F3).
  split; [now exists m|]. split; [exact F2|]. split; [exact F3|].
  intros allFields hdr' ref sg. now apply complete_oct_no_jwk.
Qed.

(** Alice is resolved, Bob asks for his symmetric key to be embedded. *)
Lemma symmetric_key_is_never_embedded_witness :
  let res :=
    Sign.sign (Sign.createSign (J := Toy.jose) []
                 [Toy.bare Toy.alice; Toy.embedding Toy.bob])
      (VObj [("a", VNum 1)]) in
  Sign.sign_promise res = Rejected "cannot embed key"
  /\ Sign.sign_calls res = [].
Proof.
  destruct (@symmetric_key_is_never_embedded Toy.jose []
              [Toy.bare Toy.alice] [] (Some Toy.bob) None Toy.bob
              [("a", VNum 1)] eq_refl eq_refl) as (_ & _ & Hc & _).
  split; [reflexivity | exact Hc].
Defined.

(** ** The signature is not among the bytes *)

Section SignatureAbsent.

Context {J : Jose}.

Lemma materialize_record (n : nat) (sh : Sign.Shared) (s : Sign.Signatory) :
  exists rec,
    serialized_record n (Sign.shared_data (Sign.materialize n sh s)) = Some rec
    /\ (Obj.lookup rec "signature" = None
        \/ Obj.lookup rec "signature" = Obj.lookup (Sign.header s) "signature").
Proof.
  unfold Sign.materialize, serialized_record.
  destruct (Nat.eqb n 1) eqn:E; cbn [Sign.shared_data Sign.shared_globalHeaders];
    rewrite get_set_same.
  - eexists. split; [reflexivity|]. now right.
  - rewrite get_set_same. eexists. split; [reflexivity|]. rewrite lookup_omit.
    destruct (Obj.mem "signature" _); [now left | now right].
Qed.

Lemma sign_map_as_header (n : nat) (sigs : list Sign.Signatory)
    (sh : Sign.Shared) (call : Sign.SignCall) :
  In call (snd (fst (Sign.sign_map n sh sigs))) ->
  signed_as_header n call.
Proof.
  revert sh. induction sigs as [|s sigs IH]; intros sh; simpl; [intros []|].
  destruct (Sign.sign_map n (Sign.materialize n sh s) sigs) as [[sh2 cs] ps] eqn:E.
  simpl. intros [<-|H].
  - destruct (materialize_record n sh s) as (rec & Hr & Hl).
    exists (Sign.shared_data (Sign.materialize n sh s)), rec. now simpl.
  - apply (IH (Sign.materialize n sh s)). now rewrite E.
Qed.

Lemma sign_as_header (signer : Sign.JWSSigner) (data : value)
    (call : Sign.SignCall) :
  In call (Sign.sign_calls (Sign.sign signer data)) ->
  signed_as_header (length (Sign.sign_calls (Sign.sign signer data))) call.
Proof.
  unfold Sign.sign. destruct (Sign.finalized signer); [intros []|].
  destruct data as [| | | | |items|d]; try (intros []).
  destruct (promise_all_at (Sign.settles signer) (Sign.signatories signer))
    as [sigs|m]; [|intros []].
  set (sh0 := {| Sign.shared_globalHeaders := Sign.globalHeaders sigs;
                 Sign.shared_data := Obj.set d CLEARTEXT (VObj []) |}).
  pose proof (sign_map_calls (length sigs) sigs sh0) as [Hc _].
  pose proof (@sign_map_as_header (length sigs) sigs sh0 call) as Hw.
  destruct (Sign.sign_map (length sigs) sh0 sigs) as [[sh calls] ps].
  simpl in Hc, Hw.
  destruct (promise_all_at _ ps); simpl; rewrite Hc; exact Hw.
Qed.

Lemma prepare_stripped (o : obj) (v : Verify.JWSVerifier) (cs : obj)
    (rec : value) :
  signee_stripped (Verify.prepare o v cs rec).
Proof.
  unfold Verify.prepare. destruct rec; try constructor.
  destruct (Obj.get _ "signature"); try constructor.
  destruct (negb _); [constructor|].
  destruct (Verify.getAlgKey _ _ _ _); constructor.
  simpl. now rewrite lookup_delete.
Qed.

Lemma prepare_all_stripped (o : obj) (v : Verify.JWSVerifier) (cs : obj)
    (recs : list value) :
  Forall signee_stripped (Verify.prepare_all o v cs recs).
Proof.
  induction recs as [|r recs IH]; simpl; [constructor|].
  pose proof (prepare_stripped o v cs r) as H.
  destruct (Verify.prepare o v cs r); repeat constructor; trivial;
    now inversion H.
Qed.

(** The scratch document keeps an object in its reserved field. *)
Lemma snapshot_reserved (n : nat) (data sgn : obj) :
  (exists c, Obj.get data CLEARTEXT = VObj c) ->
  exists c, Obj.get (Verify.snapshot n data sgn) CLEARTEXT = VObj c.
Proof.
  intros [c Hc]. unfold Verify.snapshot.
  destruct (Nat.eqb n 1); [|rewrite Hc]; rewrite get_set_same; eauto.
Qed.

Lemma snapshot_record (n : nat) (data sgn : obj) :
  (exists c, Obj.get data CLEARTEXT = VObj c) ->
  serialized_record n (Verify.snapshot n data sgn) = Some sgn.
Proof.
  intros [c Hc]. unfold Verify.snapshot, serialized_record.
  destruct (Nat.eqb n 1) eqn:E.
  - now rewrite get_set_same.
  - now rewrite Hc, !get_set_same.
Qed.

Lemma run_without_signature (n : nat) (ps : list Verify.prepared)
    (index : nat) (sh : Verify.Shared) :
  Forall signee_stripped ps ->
  (exists c, Obj.get (Verify.shared_data sh) CLEARTEXT = VObj c) ->
  Forall (verified_without_signature n) (Verify.shared_calls sh) ->
  Forall (verified_without_signature n)
    (Verify.shared_calls (Verify.run n index sh ps)).
Proof.
  intros Hps. revert index sh.
  induction Hps as [|p ps Hp Hps IH]; intros index sh Hd Hc; simpl; [exact Hc|].
  destruct Hp as [m|m|sig k Hs]; try (now apply IH).
  unfold Verify.check.
  destruct (then_ k _) as [key|m]; simpl.
  - apply IH; simpl.
    + now apply snapshot_reserved.
    + apply Forall_app. split; [exact Hc|]. constructor; [|constructor].
      exists (Verify.snapshot n (Verify.shared_data sh) (Verify.signee sig)),
             (Verify.signee sig).
      simpl. split; [reflexivity|]. split; [|exact Hs].
      now apply snapshot_record.
  - apply IH; simpl; [exact Hd|]. now rewrite app_nil_r.
Qed.

Lemma signer_records_reserved (i cs : obj) (recs : list value) :
  Verify.signer_records i = Returned (cs, recs) ->
  Obj.get i CLEARTEXT = VObj cs.
Proof.
  unfold Verify.signer_records.
  destruct (Obj.get i CLEARTEXT) as [| | | | | |c]; try discriminate.
  destruct (Obj.get c "signers") as [| |b|z|s|l|o]; simpl;
    try destruct b; try destruct (negb _); try discriminate;
    intros H; congruence.
Qed.

End SignatureAbsent.

(** C5: the code breaks the claim when signing.  The bytes a key signs
    are made before the signature exists, from the signatory's header as
    it is: for every signatory whose header has no field named
    [signature], they are serialized from a document whose record for
    that signer has no [signature]; but with one signatory the record is
    the header itself, so that a header field named [signature] is among
    the bytes signed.  When verifying, the bytes a key is asked to verify
    are serialized from a document whose record for that signer has no
    [signature] at all: it was deleted from the signee. *)
Theorem signature_never_in_signed_bytes {J : Jose} :
  (forall (signer : Sign.JWSSigner) (data : value) (call : Sign.SignCall),
      In call (Sign.sign_calls (Sign.sign signer data)) ->
      Obj.lookup (Sign.call_header call) "signature" = None ->
      signed_without_signature
        (length (Sign.sign_calls (Sign.sign signer data))) call)
  /\ (forall (ticks : list nat) (d : obj) (s : Sign.Signatory),
         let res := Sign.sign {| Sign.signatories := [Resolved s];
                                 Sign.settles := ticks;
                                 Sign.finalized := false |} (VObj d) in
         let doc := Obj.set d CLEARTEXT (VObj (Sign.header s)) in
         map Sign.call_tbs (Sign.sign_calls res) = [JSON_stringify (VObj doc)]
         /\ serialized_record 1 doc = Some (Sign.header s))
  /\ (forall (st : Verify.store) (v : Verify.JWSVerifier) (opts : option obj)
        (i cs : obj) (recs : list value) (call : Verify.VerifyCall),
         Verify.signer_records i = Returned (cs, recs) ->
         In call (Verify.verify_calls (Verify.verify st v (VObj i) opts)) ->
         verified_without_signature (length recs) call).
Proof.
  split; [|split].
  - intros signer data call H N.
    destruct (sign_as_header signer data call H) as (doc & rec & T & R & L).
    exists doc, rec. split; [exact T|]. split; [exact R|].
    destruct L as [L|L]; [exact L | now rewrite L].
  - intros ticks d s res doc. split.
    + subst res. unfold Sign.sign. simpl.
      unfold Sign.sign_one, Sign.materialize. simpl. rewrite set_set.
      now destruct (key_sign _ _ _ _).
    + unfold serialized_record, doc. now rewrite get_set_same.
  - intros st v opts i cs recs call Hr. unfold Verify.verify. rewrite Hr.
    simpl. apply Forall_forall. apply run_without_signature.
    + apply prepare_all_stripped.
    + exists cs. simpl. now apply signer_records_reserved with (recs := recs).
    + constructor.
Qed.

(** Alice signs a document and a verifier with her key verifies it: the
    one call made to her key on either side is on bytes without her
    signature.  Then she signs with a header that has a field named
    [signature]: the bytes her key signs have that field, the bytes the
    verifier rebuilds from the signed document have none, and the
    document just signed is flagged as not valid. *)
Lemma signature_never_in_signed_bytes_witness :
  let signer := Sign.createSign (J := Toy.jose) [] [Toy.bare Toy.alice] in
  let signing := Sign.sign signer (VObj [("content", VStr "x")]) in
  let v := snd (Verify.createVerify Verify.loaded (Toy.with_key Toy.alice) None) in
  let verifying := Verify.verify Verify.loaded v (Sign.sign_data signing) None in
  let header := [("alg", VStr "HS256"); ("kid", VStr "a");
                 ("signature", VStr "mine")] in
  let signing' :=
    Sign.sign {| Sign.signatories := [Resolved (Toy.signatory Toy.alice header)];
                 Sign.settles := [0];
                 Sign.finalized := false |} (VObj [("content", VStr "x")]) in
  let verifying' := Verify.verify Verify.loaded v (Sign.sign_data signing') None in
  (Forall (signed_without_signature 1) (Sign.sign_calls signing)
   /\ Forall (verified_without_signature 1) (Verify.verify_calls verifying))
  /\ (map Sign.call_tbs (Sign.sign_calls signing')
      = ["{content:'x',__cleartext_signature:{alg:'HS256',kid:'a',signature:'mine'}}"%string]
      /\ map Verify.call_tbv (Verify.verify_calls verifying')
         = ["{content:'x',__cleartext_signature:{alg:'HS256',kid:'a'}}"%string]
      /\ Verify.verify_completion verifying'
         = Returned (Resolved (Verify.verify_input verifying'))
      /\ Verify.verify_input verifying'
         = VObj [("content", VStr "x");
                 (CLEARTEXT,
                  VObj [("alg", VStr "HS256"); ("kid", VStr "a");
                        ("signature",
                         VStr "sa/HS256/{content:'x',__cleartext_signature:{alg:'HS256',kid:'a',signature:'mine'}}");
                        ("valid", VBool false);
                        ("message", VStr "verification failed")])]).
Proof.
  intros signer signing v verifying header signing' verifying'.
  destruct (signature_never_in_signed_bytes (J := Toy.jose)) as (S & H & V).
  split; [split|]; [apply Forall_forall; intros call Hc ..|].
  - apply (S signer (VObj [("content", VStr "x")]) call Hc).
    destruct Hc as [<-|[]]. reflexivity.
  - eapply (V Verify.loaded v None _ _ [_] call); cycle 1;
      [exact Hc | reflexivity].
  - split; [|repeat split].
    exact (proj1 (H [0] [("content", VStr "x")]
                    (Toy.signatory Toy.alice header))).
Defined.

(** ** The bytes of a signer *)

Section Snapshots.

Context {J : Jose}.

(** *** Verification *)

Lemma based_on_start (n : nat) (d cs : obj) :
  Obj.get d CLEARTEXT = VObj cs -> based_on n d cs d.
Proof.
  intros H sgn. unfold Verify.snapshot, snapshot_document.
  destruct (Nat.eqb n 1); [reflexivity | now rewrite H].
Qed.

Lemma based_on_step (n : nat) (d cs data sgn : obj) :
  based_on n d cs data -> based_on n d cs (Verify.snapshot n data sgn).
Proof.
  intros B sgn'. rewrite (B sgn).
  unfold Verify.snapshot, snapshot_document.
  destruct (Nat.eqb n 1).
  - apply set_set.
  - now rewrite get_set_same, !set_set.
Qed.



(** *** Signing *)

Lemma shared_from_materialize (n : nat) (d g : obj) (sh : Sign.Shared)
    (s : Sign.Signatory) :
  Nat.eqb n 1 = false ->
  shared_from d g sh -> shared_from d g (Sign.materialize n sh s).
Proof.
  intros Hn ([c Hd] & Hg & Ho). unfold shared_from, Sign.materialize.
  rewrite Hn. cbn [Sign.shared_data Sign.shared_globalHeaders]. split; [|split].
  - rewrite Hd, set_set. eexists. reflexivity.
  - intros x. now rewrite set_set.
  - intros h Hh. rewrite <- (Ho h Hh). apply omit_ext_on.
    intros k Hk. rewrite mem_keys_set.
    destruct (String.eqb "signers" k) eqn:E; [|reflexivity].
    apply String.eqb_eq in E. subst k. congruence.
Qed.

Lemma sign_map_pure (n : nat) (d g : obj) (sigs : list Sign.Signatory)
    (sh : Sign.Shared) :
  Nat.eqb n 1 = false ->
  shared_from d g sh ->
  (forall s, In s sigs -> Obj.has (Sign.header s) "signers" = false) ->
  map Sign.call_tbs (snd (fst (Sign.sign_map n sh sigs)))
  = map (fun s => snapshotForSigner d n
                    (Obj.omit (Sign.header s) (Obj.keys g)) g) sigs.
Proof.
  intros Hn. revert sh. induction sigs as [|s sigs IH]; intros sh Hsh Hs;
    simpl; [reflexivity|].
  pose proof (@shared_from_materialize n d g sh s Hn Hsh) as Hsh'.
  specialize (IH (Sign.materialize n sh s) Hsh' (fun s' H => Hs s' (or_intror H))).
  destruct (Sign.sign_map n (Sign.materialize n sh s) sigs) as [[sh2 cs] ps].
  simpl in *. f_equal; [|exact IH].
  unfold snapshotForSigner, snapshot_document, Sign.materialize.
  rewrite Hn. cbn [Sign.shared_data]. destruct Hsh as ([c Hd] & Hg & Ho).
  rewrite Hd, set_set, Hg, Ho; [reflexivity|]. apply Hs. now left.
Qed.

End Snapshots.




(** ** Key resolution *)

(** C7: with [allowEmbeddedKey] enabled and an embedded [jwk] in the
    header, the key is not made from the header's [jwk]: [JWK.asKey] is
    given [sig.jwk], which is [undefined], whatever the header embeds. *)
Theorem getAlgKey_ignores_embedded_jwk {J : Jose} (opts : obj)
    (sig : Verify.Sig) (assumedKey : option Key) (keystore : KeyStore) :
  truthy (Obj.get opts "allowEmbeddedKey") = true ->
  truthy (Obj.get (Verify.header sig) "jwk") = true ->
  Verify.getAlgKey opts sig assumedKey keystore
  = Returned (then_ (asKey (json_ref VUndef)) (fun k => Resolved (Some k))).
Proof.
  intros Ha Hj. unfold Verify.getAlgKey. now rewrite Ha, Hj.
Qed.

(** The header embeds the JSON form of a key the collaborator accepts, and
    the resolution is rejected all the same. *)
Lemma getAlgKey_ignores_embedded_jwk_witness :
  let embedded := VObj [("kid", VStr "a"); ("kty", VStr "oct"); ("k", VStr "sa")] in
  let sig := {| Verify.signee := []; Verify.signature := "";
                Verify.header := [("alg", VStr "HS256"); ("jwk", embedded)] |} in
  asKey (Jose := Toy.jose) (json_ref embedded) = Resolved Toy.alice
  /\ Verify.getAlgKey (J := Toy.jose) [("allowEmbeddedKey", VBool true)] sig
       None []
     = Returned (Rejected "unsupported key").
Proof.
  split; [reflexivity|].
  exact (getAlgKey_ignores_embedded_jwk
           (J := Toy.jose) [("allowEmbeddedKey", VBool true)]
           {| Verify.signee := []; Verify.signature := "";
              Verify.header :=
                [("alg", VStr "HS256");
                 ("jwk", VObj [("kid", VStr "a"); ("kty", VStr "oct");
                               ("k", VStr "sa")])] |}
           None [] eq_refl eq_refl).
Defined.

(** Without an embedded key or certificate the caller's key is used, and
    without one the key store is asked for
    [{use: "sig", alg: header.alg, kid: header.kid}]. *)
Lemma getAlgKey_fallback {J : Jose} (opts : obj) (sig : Verify.Sig)
    (assumedKey : option Key) (keystore : KeyStore) :
  truthy (Obj.get (Verify.header sig) "jwk") = false ->
  truthy (Obj.get (Verify.header sig) "x5c") = false ->
  Verify.getAlgKey opts sig assumedKey keystore
  = Returned (Resolved
      (match assumedKey with
       | Some k => Some k
       | None =>
           keystore_get keystore
             [("use", VStr "sig");
              ("alg", Obj.get (Verify.header sig) "alg");
              ("kid", Obj.get (Verify.header sig) "kid")]
       end)).
Proof.
  intros Hj Hx. unfold Verify.getAlgKey.
  now rewrite Hj, Hx, !andb_false_r.
Qed.

(** ** The options of a verifier *)

(** C10: the default options are state of the module, not of the
    instance.  A verifier constructed without options has the defaults
    [{algorithms: "*", allowEmbeddedKey: false}]; constructing a second
    verifier with [{allowEmbeddedKey: true}] changes the effective options
    of the first, and a third, constructed later without options, has
    them too.  Options given to a call take precedence over them. *)
Theorem constructor_options_are_shared {J : Jose} :
  let '(st1, first) := Verify.createVerify Verify.loaded Verify.KsOther None in
  let '(st2, second) :=
    Verify.createVerify st1 Verify.KsOther
      (Some [("allowEmbeddedKey", VBool true)]) in
  let '(st3, third) := Verify.createVerify st2 Verify.KsOther None in
  Verify.effective_options st1 first None
  = [("algorithms", VStr "*"); ("allowEmbeddedKey", VBool false)]
  /\ Verify.effective_options st2 first None
     = [("algorithms", VStr "*"); ("allowEmbeddedKey", VBool true)]
  /\ Verify.effective_options st3 third None
     = [("algorithms", VStr "*"); ("allowEmbeddedKey", VBool true)]
  /\ Verify.effective_options st3 third
       (Some [("allowEmbeddedKey", VBool false)])
     = [("algorithms", VStr "*"); ("allowEmbeddedKey", VBool false)].
Proof. repeat split. Qed.

(** ** Verification: how the call ends *)

Section Outcome.

Context {J : Jose}.

Lemma outcome_unhandled (ps : list Verify.prepared) (input : value) :
  existsb unhandled ps = true ->
  forall d, Verify.outcome ps input <> Returned (Resolved d).
Proof.
  induction ps as [|p ps IH]; simpl; [discriminate|].
  destruct p as [m|m|sig k]; simpl; intros H d.
  - discriminate.
  - destruct (Verify.outcome ps input) as [[?|?]|?]; discriminate.
  - now apply IH.
Qed.

Lemma outcome_chains (ps : list Verify.prepared) (input : value) :
  existsb unhandled ps = false ->
  Verify.outcome ps input = Returned (Resolved input).
Proof.
  induction ps as [|p ps IH]; simpl; [reflexivity|].
  destruct p as [m|m|sig k]; simpl; try discriminate. exact IH.
Qed.

Lemma prepare_all_unhandled (o : obj) (v : Verify.JWSVerifier) (cs : obj)
    (recs : list value) (r : value) :
  In r recs ->
  unhandled (Verify.prepare o v cs r) = true ->
  existsb unhandled (Verify.prepare_all o v cs recs) = true.
Proof.
  induction recs as [|r0 recs IH]; intros Hin Hu; [destruct Hin|].
  simpl. destruct (Verify.prepare o v cs r0) as [m|m|sig k] eqn:E;
    try reflexivity.
  destruct Hin as [->|Hin]; [rewrite E in Hu; discriminate|].
  simpl. now apply IH.
Qed.

(** A record with a signature and an algorithm the allow-list refuses
    comes to a rejected promise that nothing handles. *)
Lemma prepare_disallowed (o : obj) (v : Verify.JWSVerifier) (cs r : obj)
    (s : string) :
  Obj.get (Obj.omit r ["valid"; "message"]) "signature" = VStr s ->
  AlgConfig_match (Obj.get o "algorithms")
    (Obj.get (Verify.effective_header cs r) "alg") = false ->
  Verify.prepare o v cs (VObj r)
  = Verify.PReject
      ("Algorithm not allowed: "
       ++ js_string (Obj.get (Verify.effective_header cs r) "alg")).
Proof.
  intros Hs Ha. unfold Verify.prepare. now rewrite Hs, Ha.
Qed.

End Outcome.

(** C3: a disallowed algorithm is not recorded on the signer's entry; it
    keeps the call from resolving.  When a signer record carries a
    signature and an algorithm that the allow-list refuses, [verify] does
    not resolve with any document; when it is the only record, [verify]
    rejects with ["Algorithm not allowed: ..."] and the document is left
    without [valid] and [message]. *)
Theorem disallowed_algorithm_rejects_verify {J : Jose} (st : Verify.store)
    (v : Verify.JWSVerifier) (opts : option obj) (i cs r : obj)
    (recs : list value) (s : string) :
  Verify.signer_records i = Returned (cs, recs) ->
  In (VObj r) recs ->
  Obj.get (Obj.omit r ["valid"; "message"]) "signature" = VStr s ->
  AlgConfig_match (Obj.get (Verify.effective_options st v opts) "algorithms")
    (Obj.get (Verify.effective_header cs r) "alg") = false ->
  let res := Verify.verify st v (VObj i) opts in
  (forall d, Verify.verify_completion res <> Returned (Resolved d))
  /\ (recs = [VObj r] ->
      Verify.verify_completion res
      = Returned (Rejected
          ("Algorithm not allowed: "
           ++ js_string (Obj.get (Verify.effective_header cs r) "alg")))
      /\ Verify.verify_input res = VObj i).
Proof.
  intros Hr Hin Hs Ha res. subst res. unfold Verify.verify. rewrite Hr.
  pose proof (@prepare_disallowed J _ v cs r s Hs Ha) as P.
  cbv beta iota zeta. split.
  - apply outcome_unhandled.
    apply prepare_all_unhandled with (r := VObj r); [exact Hin|].
    now rewrite P.
  - intros ->. unfold Verify.prepare_all. rewrite P. now simpl.
Qed.

(** The allow-list is ["HS256"], the document says ["RS256"]. *)
Lemma disallowed_algorithm_rejects_verify_witness :
  let input :=
    [("a", VNum 1);
     (CLEARTEXT, VObj [("alg", VStr "RS256"); ("kid", VStr "a");
                       ("signature", VStr "c2ln")])] in
  let v := snd (Verify.createVerify (J := Toy.jose) Verify.loaded
                  (Toy.with_key Toy.alice) None) in
  let res := Verify.verify Verify.loaded v (VObj input)
               (Some [("algorithms", VStr "HS256")]) in
  Verify.verify_completion res = Returned (Rejected "Algorithm not allowed: RS256")
  /\ Verify.verify_input res = VObj input.
Proof.
  apply (@disallowed_algorithm_rejects_verify Toy.jose Verify.loaded
           (snd (Verify.createVerify (J := Toy.jose) Verify.loaded
                   (Toy.with_key Toy.alice) None))
           (Some [("algorithms", VStr "HS256")])
           [("a", VNum 1);
            (CLEARTEXT, VObj [("alg", VStr "RS256"); ("kid", VStr "a");
                              ("signature", VStr "c2ln")])]
           [("alg", VStr "RS256"); ("kid", VStr "a");
            ("signature", VStr "c2ln")]
           [("alg", VStr "RS256"); ("kid", VStr "a");
            ("signature", VStr "c2ln")]
           [VObj [("alg", VStr "RS256"); ("kid", VStr "a");
                  ("signature", VStr "c2ln")]]
           "c2ln" eq_refl (or_introl eq_refl) eq_refl eq_refl).
  reflexivity.
Defined.

(** ** One signer, signed and verified *)

Section SingleSigner.

Context {J : Jose}.

(** What [sign] gives for one signatory whose key answers [mac]. *)
Lemma sign_single (ticks : list nat) (d : obj) (s : Sign.Signatory)
    (mac : bytes) :
  key_sign (Sign.key s) (Obj.get (Sign.header s) "alg")
    (snapshotForSigner d 1 (Sign.header s) []) (Sign.header s) = Resolved mac ->
  let signed :=
    VObj (Obj.set d CLEARTEXT
            (VObj (Obj.set (Sign.header s) "signature"
                     (VStr (base64url_encode mac))))) in
  let res := Sign.sign {| Sign.signatories := [Resolved s];
                          Sign.settles := ticks;
                          Sign.finalized := false |} (VObj d) in
  Sign.sign_promise res = Resolved signed /\ Sign.sign_data res = signed.
Proof.
  intros Hk. unfold Sign.sign. simpl.
  unfold Sign.sign_one, Sign.materialize. simpl.
  unfold snapshotForSigner, snapshot_document in Hk. simpl in Hk.
  rewrite set_set, Hk. simpl. rewrite omit_nothing, set_set. now split.
Qed.

(** The record stored for a plain header is prepared into a chain on the
    header itself, with the algorithm and the key id of the header. *)
Lemma prepare_single (o : obj) (v : Verify.JWSVerifier) (h : obj)
    (e : string) (k' : Key) :
  plain_header h ->
  primitive (Obj.get h "alg") = true ->
  primitive (Obj.get h "kid") = true ->
  truthy (Obj.get o "allowEmbeddedKey") = false ->
  AlgConfig_match (Obj.get o "algorithms") (Obj.get h "alg") = true ->
  fallback_key v h = Some k' ->
  let rec := Obj.set h "signature" (VStr e) in
  exists hdr,
    Obj.get hdr "alg" = Obj.get h "alg"
    /\ Verify.prepare o v rec (VObj rec)
       = Verify.PChain
           {| Verify.signee := h; Verify.header := hdr;
              Verify.signature := base64url_decode e |}
           (Resolved (Some k')).
Proof.
  intros (N & Hsig & Hsgn & Hval & Hmsg) Pa Pk Ho Hm Hk rec.
  assert (Nr : NoDup (Obj.keys rec)) by now apply nodup_set_absent.
  assert (O1 : Obj.omit rec ["valid"; "message"] = rec).
  { apply omit_absent. intros k Hk'. unfold rec. rewrite has_set.
    simpl in Hk'. destruct (String.eqb k "valid") eqn:E1.
    - apply String.eqb_eq in E1. subst k. now rewrite Hval.
    - destruct (String.eqb k "message") eqn:E2; [|discriminate].
      apply String.eqb_eq in E2. subst k. now rewrite Hmsg. }
  assert (O2 : Obj.omit rec ["signers"] = rec).
  { apply omit_absent. intros k Hk'. unfold rec. rewrite has_set.
    simpl in Hk'. destruct (String.eqb k "signers") eqn:E1; [|discriminate].
    apply String.eqb_eq in E1. subst k. now rewrite Hsgn. }
  assert (G : forall k, k <> "signature" ->
                        primitive (Obj.get h k) = true ->
                        Obj.get (Verify.effective_header rec rec) k = Obj.get h k).
  { intros k Hk' P. unfold Verify.effective_header. rewrite O1, O2.
    rewrite merge_twice_primitive; trivial.
    - unfold rec. apply get_set_other. congruence.
    - unfold rec. rewrite get_set_other by congruence. exact P.
    - now left. }
  exists (Verify.effective_header rec rec).
  split; [apply G; [discriminate | exact Pa]|].
  unfold Verify.prepare. rewrite O1.
  replace (Obj.get rec "signature") with (VStr e)
    by (unfold rec; now rewrite get_set_same).
  rewrite (G "alg") by (trivial; discriminate). rewrite Hm. simpl negb.
  cbv iota.
  unfold Verify.getAlgKey. rewrite Ho. simpl andb. cbv iota.
  cbn [Verify.header]. rewrite (G "alg"), (G "kid") by (trivial; discriminate).
  unfold fallback_key in Hk. rewrite Hk. unfold rec.
  now rewrite delete_set_absent.
Qed.

End SingleSigner.

(** C2, for one signatory: the document signed by a key that answers, and
    verified with a key that accepts the signature over the same bytes,
    comes back from [verify] exactly as [sign] made it.  The key is asked
    once and accepts, the content of the document is unchanged, and the
    signer's entry has no [valid]. *)
Theorem single_signer_roundtrip_sets_no_flag {J : Jose} (d : obj)
    (s : Sign.Signatory) (st : Verify.store) (v : Verify.JWSVerifier)
    (opts : option obj) (k' : Key) (mac : bytes) (ticks : list nat) :
  let h := Sign.header s in
  let alg := Obj.get h "alg" in
  let tbs := snapshotForSigner d 1 h [] in
  let o := Verify.effective_options st v opts in
  plain_header h ->
  primitive alg = true ->
  primitive (Obj.get h "kid") = true ->
  key_sign (Sign.key s) alg tbs h = Resolved mac ->
  base64url_decode (base64url_encode mac) = mac ->
  truthy (Obj.get o "allowEmbeddedKey") = false ->
  AlgConfig_match (Obj.get o "algorithms") alg = true ->
  fallback_key v h = Some k' ->
  key_verify k' alg tbs mac = Resolved true ->
  let signing := Sign.sign {| Sign.signatories := [Resolved s];
                              Sign.settles := ticks;
                              Sign.finalized := false |} (VObj d) in
  let signed := Sign.sign_data signing in
  let res := Verify.verify st v signed opts in
  Sign.sign_promise signing = Resolved signed
  /\ Verify.verify_completion res = Returned (Resolved signed)
  /\ Verify.verify_input res = signed
  /\ map (fun c => key_verify (Verify.call_key c) (Verify.call_alg c)
                     (Verify.call_tbv c) (Verify.call_signature c))
       (Verify.verify_calls res) = [Resolved true]
  /\ map (fun e => field e "valid") (signer_entries (Verify.verify_input res))
     = [VUndef]
  /\ (exists f, signed = VObj f
                /\ forall k, k <> CLEARTEXT -> Obj.lookup f k = Obj.lookup d k).
Proof.
  intros h alg tbs o Hp Pa Pk Hs Hc Ho Hm Hk Hv signing signed res.
  destruct (sign_single ticks d s mac Hs) as [S1 S2].
  fold signing in S1, S2. fold signed in S2.
  set (rec := Obj.set h "signature" (VStr (base64url_encode mac))) in *.
  set (f := Obj.set d CLEARTEXT (VObj rec)) in *.
  destruct (@prepare_single J o v h (base64url_encode mac) k' Hp Pa Pk Ho Hm Hk)
    as (hdr & Ha & P).
  fold rec in P. rewrite Hc in P.
  destruct Hp as (N & Hsig & Hsgn & Hval & Hmsg).
  assert (R : Verify.signer_records f = Returned (rec, [VObj rec])).
  { unfold Verify.signer_records, f. rewrite get_set_same.
    unfold rec. rewrite get_set_other by discriminate.
    now rewrite (has_false_get _ _ Hsgn). }
  assert (T : JSON_stringify (VObj (Verify.snapshot 1 f h)) = tbs).
  { unfold Verify.snapshot, f. simpl. now rewrite set_set. }
  assert (V : Verify.verify st v (VObj f) opts
              = {| Verify.verify_completion := Returned (Resolved (VObj f));
                   Verify.verify_input := VObj f;
                   Verify.verify_calls :=
                     [{| Verify.call_key := k'; Verify.call_alg := alg;
                         Verify.call_tbv := tbs;
                         Verify.call_signature := mac |}] |}).
  { unfold Verify.verify. rewrite R. fold o.
    unfold Verify.prepare_all. rewrite P.
    unfold Verify.run, Verify.check. simpl then_.
    cbn [Verify.signee Verify.header Verify.signature Verify.shared_data
         Verify.shared_input Verify.shared_calls length].
    rewrite T, Ha. fold alg. rewrite Hv. reflexivity. }
  assert (S1' : Sign.sign_promise signing = Resolved (VObj f)) by exact S1.
  assert (S2' : signed = VObj f) by exact S2.
  unfold res. rewrite S1', S2', V. cbn [Verify.verify_completion Verify.verify_input
                                  Verify.verify_calls map Verify.call_key
                                  Verify.call_alg Verify.call_tbv
                                  Verify.call_signature].
  split; [reflexivity|]. split; [reflexivity|]. split; [reflexivity|].
  split; [now rewrite Hv|]. split.
  - unfold signer_entries. rewrite R. simpl. unfold rec.
    rewrite get_set_other by discriminate. now rewrite (has_false_get _ _ Hval).
  - exists f. split; [reflexivity|]. intros k Hk'. unfold f.
    apply lookup_set_other. congruence.
Qed.

(** Alice signs a document, and a verifier that holds her key verifies
    it. *)
Lemma single_signer_roundtrip_sets_no_flag_witness :
  let s := Toy.signatory Toy.alice [("alg", VStr "HS256"); ("kid", VStr "a")] in
  let v := snd (Verify.createVerify Verify.loaded
                  (Toy.with_store [Toy.alice; Toy.bob]) None) in
  let signed :=
    Sign.sign_data
      (Sign.sign {| Sign.signatories := [Resolved s];
                    Sign.settles := [0];
                    Sign.finalized := false |}
         (VObj [("content", VStr "x")])) in
  let res := Verify.verify Verify.loaded v signed None in
  Verify.verify_completion res = Returned (Resolved signed)
  /\ map (fun e => field e "valid") (signer_entries (Verify.verify_input res))
     = [VUndef].
Proof.
  intros s v signed res.
  assert (Hp : plain_header (Sign.header s)).
  { repeat split; try reflexivity.
    repeat constructor; simpl; intuition discriminate. }
  pose proof (@single_signer_roundtrip_sets_no_flag Toy.jose
                [("content", VStr "x")] s Verify.loaded v None Toy.alice
                (Toy.mac Toy.alice (VStr "HS256")
                   (snapshotForSigner (J := Toy.jose) [("content", VStr "x")] 1
                      (Sign.header s) []))
                [0]
                Hp eq_refl eq_refl eq_refl eq_refl eq_refl eq_refl eq_refl
                eq_refl) as (_ & H2 & _ & _ & H5 & _).
  split; [exact H2 | exact H5].
Defined.

(** ** The flags written back *)

(** C6: the write-back is not the same in both forms.  When the document
    has one signer record and the key asked for it answers, with
    [valid: true] or [valid: false], [verify] resolves with the document
    as it was given: nothing is written on the signer's entry. *)
Theorem single_signer_success_is_not_flagged {J : Jose} (st : Verify.store)
    (v : Verify.JWSVerifier) (opts : option obj) (i cs : obj) (rec : value)
    (c : Verify.VerifyCall) (valid : bool) :
  let res := Verify.verify st v (VObj i) opts in
  Verify.signer_records i = Returned (cs, [rec]) ->
  Verify.verify_calls res = [c] ->
  key_verify (Verify.call_key c) (Verify.call_alg c) (Verify.call_tbv c)
    (Verify.call_signature c) = Resolved valid ->
  Verify.verify_completion res = Returned (Resolved (VObj i))
  /\ Verify.verify_input res = VObj i.
Proof.
  intros res Hr. subst res. unfold Verify.verify. rewrite Hr.
  unfold Verify.prepare_all.
  destruct (Verify.prepare (Verify.effective_options st v opts) v cs rec)
    as [m|m|sig k]; try discriminate.
  unfold Verify.run, Verify.check.
  destruct k as [[key|]|m]; simpl; try discriminate.
  intros Hc. injection Hc as <-. simpl. intros ->. now split.
Qed.

(** With the keys of Alice and Bob in the key store: a document signed by
    Alice alone verifies and comes back without [valid]; signed by Alice
    and Bob it comes back with [valid: true] on both entries; and when its
    content was changed after Alice alone signed, the entry gets
    [valid: false] and a message. *)
Lemma single_signer_success_is_not_flagged_witness :
  let doc := VObj [("content", VStr "x")] in
  let v := snd (Verify.createVerify Verify.loaded
                  (Toy.with_store [Toy.alice; Toy.bob]) None) in
  let verified signed := Verify.verify Verify.loaded v signed None in
  let flags k res :=
    map (fun e => field e k) (signer_entries (Verify.verify_input res)) in
  let one :=
    Sign.sign_data (Sign.sign (Sign.createSign [] [Toy.bare Toy.alice]) doc) in
  let two :=
    Sign.sign_data
      (Sign.sign (Sign.createSign [] [Toy.bare Toy.alice; Toy.bare Toy.bob])
         doc) in
  let changed :=
    match one with
    | VObj f => VObj (Obj.set f "content" (VStr "y"))
    | _ => one
    end in
  (Verify.verify_completion (verified one) = Returned (Resolved one)
   /\ Verify.verify_input (verified one) = one)
  /\ flags "valid" (verified one) = [VUndef]
  /\ flags "valid" (verified two) = [VBool true; VBool true]
  /\ flags "valid" (verified changed) = [VBool false]
  /\ flags "message" (verified changed) = [VStr "verification failed"].
Proof.
  split; [|repeat split].
  eapply (@single_signer_success_is_not_flagged Toy.jose); reflexivity.
Defined.

(** ** Several signers, signed and verified *)

Section SeveralSigners.

Context {J : Jose}.

Variable d : obj.
Variable sigs : list Sign.Signatory.
Variable mac_of : Sign.Signatory -> bytes.
Variable ticks : list nat.

Let n := length sigs.
Let g := Sign.globalHeaders sigs.

(** The bytes of a signatory. *)
Let tbs_of (s : Sign.Signatory) : bytes :=
  snapshotForSigner d n (Obj.omit (Sign.header s) (Obj.keys g)) g.

Hypothesis several : Nat.eqb n 1 = false.

Hypothesis plain : forall s, In s sigs -> plain_header (Sign.header s).

Hypothesis signing :
  forall s, In s sigs ->
    key_sign (Sign.key s) (Obj.get (Sign.header s) "alg") (tbs_of s)
      (Sign.header s) = Resolved (mac_of s).

Lemma sign_map_records (l : list Sign.Signatory) (sh : Sign.Shared) :
  incl l sigs ->
  shared_from d g sh ->
  snd (Sign.sign_map n sh l)
  = map (fun s => Resolved (stored_record g s (mac_of s))) l.
Proof.
  revert sh. induction l as [|s l IH]; intros sh Hl Hsh; [reflexivity|].
  assert (Hs : In s sigs) by (apply Hl; now left).
  destruct (plain s Hs) as (_ & _ & Hsgn & _).
  pose proof (@shared_from_materialize J n d g sh s several Hsh) as Hsh'.
  specialize (IH (Sign.materialize n sh s)
                (fun x H => Hl x (or_intror H)) Hsh').
  simpl. destruct (Sign.sign_map n (Sign.materialize n sh s) l) as [[sh2 cs] ps].
  simpl in *. f_equal; [|exact IH].
  destruct Hsh' as (_ & _ & Ho'). rewrite (Ho' _ Hsgn).
  assert (T : JSON_stringify (VObj (Sign.shared_data (Sign.materialize n sh s)))
              = tbs_of s).
  { unfold tbs_of, snapshotForSigner, snapshot_document, Sign.materialize.
    rewrite several. cbn [Sign.shared_data].
    destruct Hsh as ([c Hd] & Hg & Ho).
    now rewrite Hd, set_set, Hg, (Ho _ Hsgn). }
  rewrite T, (signing s Hs). reflexivity.
Qed.

(** What [sign] gives when every key answers. *)
Lemma sign_several :
  let recs := map (fun s => stored_record g s (mac_of s)) sigs in
  let signed :=
    VObj (Obj.set d CLEARTEXT
            (VObj (Obj.set g "signers" (VArr (map VObj recs))))) in
  let res := Sign.sign {| Sign.signatories := map Resolved sigs;
                          Sign.settles := ticks;
                          Sign.finalized := false |} (VObj d) in
  Sign.sign_promise res = Resolved signed /\ Sign.sign_data res = signed.
Proof.
  intros recs signed res. subst res. unfold Sign.sign. simpl Sign.finalized.
  cbv iota. simpl Sign.signatories. rewrite promise_all_at_map_resolved.
  set (sh0 := {| Sign.shared_globalHeaders := Sign.globalHeaders sigs;
                 Sign.shared_data := Obj.set d CLEARTEXT (VObj []) |}).
  assert (H0 : shared_from d g sh0).
  { unfold sh0. split; [|split]; simpl; [eexists; reflexivity | easy | easy]. }
  pose proof (@sign_map_records sigs sh0 (incl_refl sigs) H0) as Hp.
  assert (Hd : exists c,
             Sign.shared_data (fst (fst (Sign.sign_map (length sigs) sh0 sigs)))
             = Obj.set d CLEARTEXT (VObj c)
             /\ forall y, Obj.set c "signers" y = Obj.set g "signers" y).
  { pose proof several as E. unfold n in E. unfold g, sh0. revert E. clear.
    destruct sigs as [|s rest]; intros E.
    - exists []. now split.
    - destruct (@sign_map_several J (length (s :: rest)) rest
                    {| Sign.shared_globalHeaders := Sign.globalHeaders (s :: rest);
                       Sign.shared_data := Obj.set d CLEARTEXT (VObj []) |} s E)
          as [Hg Hd].
      rewrite Hd, Hg. simpl Sign.shared_data.
      simpl Sign.shared_globalHeaders. rewrite set_set.
      eexists. split; [reflexivity|]. intros y. apply set_set. }
  unfold n in Hp.
  destruct (Sign.sign_map (length sigs) sh0 sigs) as [[sh calls] ps].
  simpl in Hp, Hd. subst ps. destruct Hd as (c & Hd & Hc).
  replace (map (fun s => Resolved (stored_record g s (mac_of s))) sigs)
    with (map Resolved recs) by (unfold recs; now rewrite map_map).
  rewrite promise_all_at_map_resolved.
  assert (A : Sign.assemble (Sign.shared_data sh) recs
              = Obj.set d CLEARTEXT
                  (VObj (Obj.set g "signers" (VArr (map VObj recs))))).
  { unfold Sign.assemble. rewrite Hd, get_set_same, !set_set, Hc.
    destruct recs as [|r [|r2 rest]] eqn:E; try reflexivity.
    exfalso. unfold recs in E. apply (f_equal (@length _)) in E.
    rewrite length_map in E. fold n in E. simpl in E.
    rewrite E in several. discriminate. }
  simpl. rewrite A. now split.
Qed.

Variable st : Verify.store.
Variable v : Verify.JWSVerifier.
Variable opts : option obj.
Variable key_of : Sign.Signatory -> Key.

Let o := Verify.effective_options st v opts.

Hypothesis strings :
  forall s, In s sigs ->
    string_field (Sign.header s) "alg" /\ string_or_absent (Sign.header s) "kid".

Hypothesis embedded_off : truthy (Obj.get o "allowEmbeddedKey") = false.

Hypothesis allowed :
  forall s, In s sigs ->
    AlgConfig_match (Obj.get o "algorithms") (Obj.get (Sign.header s) "alg") = true.

Hypothesis codec :
  forall s, In s sigs ->
    base64url_decode (base64url_encode (mac_of s)) = mac_of s.

Hypothesis resolving :
  forall s, In s sigs -> fallback_key v (Sign.header s) = Some (key_of s).

(** No global header is named [signers]. *)
Lemma globalHeaders_no_signers (s : Sign.Signatory) :
  In s sigs -> Obj.has g "signers" = false.
Proof.
  intros Hs. unfold Obj.has. destruct (Obj.lookup g "signers") eqn:L;
    [|reflexivity].
  pose proof (globalHeaders_has sigs "signers" _ L s Hs) as H.
  destruct (plain s Hs) as (_ & _ & Hsgn & _). congruence.
Qed.

(** The fields [alg] and [kid] of the header [verify] builds for the
    record of a signatory are those of the signatory's header. *)
Lemma effective_header_field (s : Sign.Signatory) (e : string) (x : value)
    (k : string) :
  In s sigs ->
  k <> "signature" ->
  (forall s', In s' sigs -> string_or_absent (Sign.header s') k) ->
  let rec := Obj.set (Obj.omit (Sign.header s) (Obj.keys g)) "signature"
               (VStr e) in
  Obj.get (merge (merge [] rec) g) k = Obj.get (Sign.header s) k.
Proof.
  intros Hs Hk Hf rec.
  destruct (plain s Hs) as (N & Hsig & _).
  assert (Nr : NoDup (Obj.keys rec)).
  { apply nodup_set_absent; [now apply nodup_omit | now apply has_omit]. }
  assert (P : primitive (Obj.get (Sign.header s) k) = true).
  { unfold Obj.get. destruct (Hf s Hs) as [->|[y ->]]; reflexivity. }
  destruct (Obj.lookup g k) as [gv|] eqn:L.
  - assert (F : forall s', In s' sigs -> string_field (Sign.header s') k).
    { intros s' Hs'. destruct (Hf s' Hs') as [A|A]; [|exact A].
      pose proof (globalHeaders_has sigs k _ L s' Hs') as H.
      unfold Obj.has in H. now rewrite A in H. }
    pose proof (globalHeaders_string sigs k _ L F s Hs) as E.
    destruct (F s Hs) as [y Hy]. unfold Obj.get in E. rewrite Hy in E. subst gv.
    rewrite (merge_is_merge_fields (merge [] rec) g).
    rewrite (@merge_fields_primitive g _ k (VStr y) (globalHeaders_nodup sigs) L eq_refl).
    unfold Obj.get. now rewrite Hy.
  - rewrite merge_twice_primitive; trivial.
    + unfold rec. rewrite get_set_other by congruence.
      unfold Obj.get. rewrite lookup_omit, mem_keys. unfold Obj.has.
      fold g. now rewrite L.
    + apply globalHeaders_nodup.
    + unfold rec. rewrite get_set_other by congruence.
      unfold Obj.get. rewrite lookup_omit, mem_keys. unfold Obj.has.
      fold g. rewrite L. exact P.
    + now right.
Qed.

Hypothesis verifying :
  forall s, In s sigs ->
    key_verify (key_of s) (Obj.get (Sign.header s) "alg") (tbs_of s)
      (mac_of s) = Resolved true.

(** The chain of a signatory's record, when [signers] holds [x]. *)
Let chain_of (x : value) (s : Sign.Signatory) : Verify.prepared :=
  Verify.PChain
    {| Verify.signee := Obj.omit (Sign.header s) (Obj.keys g);
       Verify.header :=
         Verify.effective_header (Obj.set g "signers" x)
           (stored_record g s (mac_of s));
       Verify.signature := mac_of s |}
    (Resolved (Some (key_of s))).

(** The record stored for a signatory is prepared into a chain on the
    signatory's own fields, with its algorithm and its key. *)
Lemma prepare_several (s : Sign.Signatory) (x : value) :
  In s sigs ->
  Obj.get (Verify.effective_header (Obj.set g "signers" x)
             (stored_record g s (mac_of s))) "alg"
  = Obj.get (Sign.header s) "alg"
  /\ Verify.prepare o v (Obj.set g "signers" x)
       (VObj (stored_record g s (mac_of s)))
     = chain_of x s.
Proof.
  intros Hs. unfold chain_of, stored_record.
  set (e := base64url_encode (mac_of s)).
  set (r := Obj.omit (Sign.header s) (Obj.keys g)).
  set (rec := Obj.set r "signature" (VStr e)).
  destruct (plain s Hs) as (N & Hsig & Hsgn & Hval & Hmsg).
  assert (O1 : Obj.omit rec ["valid"; "message"] = rec).
  { apply omit_absent. intros k Hk'. unfold rec, r. rewrite has_set.
    simpl in Hk'. destruct (String.eqb k "valid") eqn:E1.
    - apply String.eqb_eq in E1. subst k. now rewrite has_omit.
    - destruct (String.eqb k "message") eqn:E2; [|discriminate].
      apply String.eqb_eq in E2. subst k. now rewrite has_omit. }
  assert (O2 : Obj.omit (Obj.set g "signers" x) ["signers"] = g).
  { apply omit_set_absent. now apply globalHeaders_no_signers with (s := s). }
  assert (Ga : Obj.get (Verify.effective_header (Obj.set g "signers" x) rec) "alg"
               = Obj.get (Sign.header s) "alg").
  { unfold Verify.effective_header. rewrite O1, O2.
    apply effective_header_field; trivial; [discriminate|].
    intros s' Hs'. right. now apply strings. }
  assert (Gk : Obj.get (Verify.effective_header (Obj.set g "signers" x) rec) "kid"
               = Obj.get (Sign.header s) "kid").
  { unfold Verify.effective_header. rewrite O1, O2.
    apply effective_header_field; trivial; [discriminate|].
    intros s' Hs'. now apply strings. }
  split; [exact Ga|].
  unfold Verify.prepare. rewrite O1.
  replace (Obj.get rec "signature") with (VStr e)
    by (unfold rec; now rewrite get_set_same).
  rewrite Ga, (allowed s Hs). simpl negb. cbv iota.
  unfold Verify.getAlgKey. fold o. rewrite embedded_off. simpl andb. cbv iota.
  cbn [Verify.header]. rewrite Ga, Gk.
  pose proof (resolving s Hs) as R. unfold fallback_key in R. rewrite R.
  unfold rec, e. rewrite delete_set_absent by (now apply has_omit).
  now rewrite (codec s Hs).
Qed.

Lemma prepare_all_several (l : list Sign.Signatory) (x : value) :
  incl l sigs ->
  Verify.prepare_all o v (Obj.set g "signers" x)
    (map (fun s => VObj (stored_record g s (mac_of s))) l)
  = map (chain_of x) l.
Proof.
  induction l as [|s l IH]; intros Hl; [reflexivity|].
  cbn [map Verify.prepare_all].
  destruct (prepare_several s x (Hl s (or_introl eq_refl))) as [_ P].
  rewrite P. unfold chain_of at 1. cbv iota. fold (chain_of x s).
  f_equal. apply IH. intros y Hy. apply Hl. now right.
Qed.

(** The signed document with [l] for its signer entries. *)
Let signed_with (l : list value) : obj :=
  Obj.set d CLEARTEXT (VObj (Obj.set g "signers" (VArr l))).

Lemma update_signer_signed_with (l : list value) (j : nat) (f : obj -> obj) :
  Verify.update_signer (signed_with l) j f
  = signed_with (Verify.update_nth l j f).
Proof.
  unfold Verify.update_signer, signed_with.
  now rewrite !get_set_same, !set_set.
Qed.

Lemma update_nth_middle (pre rest : list value) (r : obj) (f : obj -> obj) :
  Verify.update_nth (pre ++ VObj r :: rest) (length pre) f
  = pre ++ VObj (f r) :: rest.
Proof.
  induction pre as [|p pre IH]; simpl; [reflexivity|].
  destruct p; now rewrite IH.
Qed.

Lemma mark_all (f : obj -> obj) (post : list obj) (pre : list value) :
  fold_left (fun inp j => Verify.update_signer inp j f)
    (seq (length pre) (length post)) (signed_with (pre ++ map VObj post))
  = signed_with (pre ++ map (fun r => VObj (f r)) post).
Proof.
  revert pre. induction post as [|r post IH]; intros pre; [reflexivity|].
  simpl. rewrite update_signer_signed_with, update_nth_middle.
  specialize (IH (pre ++ [VObj (f r)])).
  rewrite length_app, Nat.add_1_r, <- !app_assoc in IH. exact IH.
Qed.

(** The scratch copy of the signed document gives a signatory the bytes
    it signed. *)
Lemma based_on_signed (l : list value) (data : obj) (s : Sign.Signatory) :
  based_on n (signed_with l) (Obj.set g "signers" (VArr l)) data ->
  JSON_stringify
    (VObj (Verify.snapshot n data (Obj.omit (Sign.header s) (Obj.keys g))))
  = tbs_of s.
Proof.
  intros B. rewrite (B _). unfold tbs_of, snapshotForSigner, snapshot_document,
    signed_with. rewrite several. now rewrite !set_set.
Qed.

Lemma run_several (x : list value) (l : list Sign.Signatory) (index : nat)
    (sh : Verify.Shared) :
  incl l sigs ->
  based_on n (signed_with x) (Obj.set g "signers" (VArr x))
    (Verify.shared_data sh) ->
  Verify.shared_input (Verify.run n index sh (map (chain_of (VArr x)) l))
  = fold_left
      (fun inp j =>
         Verify.update_signer inp j (fun e => Obj.set e "valid" (VBool true)))
      (seq index (length l)) (Verify.shared_input sh).
Proof.
  revert index sh. induction l as [|s l IH]; intros index sh Hl B; [reflexivity|].
  assert (Hs : In s sigs) by (apply Hl; now left).
  simpl. unfold Verify.check. simpl then_.
  cbn [Verify.signee Verify.header Verify.signature].
  rewrite (based_on_signed x _ s B).
  destruct (prepare_several s (VArr x) Hs) as [Ga _]. rewrite Ga.
  rewrite (verifying s Hs).
  rewrite IH.
  - cbn [Verify.shared_input]. unfold Verify.write_back. now rewrite several.
  - intros y Hy. apply Hl. now right.
  - cbn [Verify.shared_data]. now apply based_on_step.
Qed.

Lemma signer_records_signed_with (l : list value) :
  Verify.signer_records (signed_with l)
  = Returned (Obj.set g "signers" (VArr l), l).
Proof.
  unfold Verify.signer_records, signed_with. now rewrite !get_set_same.
Qed.

Lemma chains_are_handled (x : value) (l : list Sign.Signatory) :
  existsb unhandled (map (chain_of x) l) = false.
Proof. induction l as [|s l IH]; [reflexivity | exact IH]. Qed.

(** Signed by several signatories whose keys answer and verified with
    keys that accept, the document comes back with [valid: true] on
    every entry. *)
Lemma several_signers_verified :
  let made := Sign.sign {| Sign.signatories := map Resolved sigs;
                              Sign.settles := ticks;
                              Sign.finalized := false |} (VObj d) in
  let signed := Sign.sign_data made in
  let res := Verify.verify st v signed opts in
  Sign.sign_promise made = Resolved signed
  /\ Verify.verify_completion res = Returned (Resolved (Verify.verify_input res))
  /\ map (fun e => field e "valid") (signer_entries (Verify.verify_input res))
     = map (fun _ => VBool true) sigs
  /\ (exists f, Verify.verify_input res = VObj f
                /\ forall k, k <> CLEARTEXT -> Obj.lookup f k = Obj.lookup d k).
Proof.
  intros made signed res.
  destruct sign_several as [S1 S2]. fold made in S1, S2. fold signed in S2.
  set (recs := map (fun s => stored_record g s (mac_of s)) sigs) in *.
  set (x := map VObj recs) in *.
  assert (S1' : Sign.sign_promise made = Resolved (VObj (signed_with x)))
    by exact S1.
  assert (S2' : signed = VObj (signed_with x)) by exact S2.
  assert (X : x = map (fun s => VObj (stored_record g s (mac_of s))) sigs).
  { unfold x, recs. now rewrite map_map. }
  assert (L : length x = n).
  { rewrite X. apply length_map. }
  set (mark := fun e => Obj.set e "valid" (VBool true)).
  pose proof (prepare_all_several sigs (VArr x) (incl_refl _)) as P.
  rewrite <- X in P.
  assert (R : Verify.shared_input
                (Verify.run n 0
                   {| Verify.shared_data := signed_with x;
                      Verify.shared_input := signed_with x;
                      Verify.shared_calls := [] |}
                   (map (chain_of (VArr x)) sigs))
              = signed_with (map (fun r => VObj (mark r)) recs)).
  { rewrite run_several.
    - cbn [Verify.shared_input].
      replace (length sigs) with (length recs) by apply length_map.
      pose proof (mark_all mark recs []) as M. simpl in M. fold x in M.
      exact M.
    - apply incl_refl.
    - apply based_on_start. unfold signed_with. apply get_set_same. }
  assert (V : Verify.verify_completion
                (Verify.verify st v (VObj (signed_with x)) opts)
              = Returned (Resolved
                  (VObj (signed_with (map (fun r => VObj (mark r)) recs))))
              /\ Verify.verify_input
                   (Verify.verify st v (VObj (signed_with x)) opts)
                 = VObj (signed_with (map (fun r => VObj (mark r)) recs))).
  { unfold Verify.verify. rewrite signer_records_signed_with. fold o.
    rewrite L, P. cbn [Verify.verify_completion Verify.verify_input].
    rewrite outcome_chains by apply chains_are_handled.
    now rewrite R. }
  destruct V as [Vc Vi].
  unfold res. rewrite S1', S2', Vc, Vi.
  split; [reflexivity|]. split; [reflexivity|]. split.
  - unfold signer_entries. rewrite signer_records_signed_with.
    unfold recs. rewrite !map_map. apply map_ext. intros s.
    unfold field, mark. apply get_set_same.
  - eexists. split; [reflexivity|]. intros k Hk. unfold signed_with.
    apply lookup_set_other. congruence.
Qed.

End SeveralSigners.

(** Alice, Bob and Carol sign a document, and a verifier whose key store
    has their keys verifies it. *)
Lemma several_signers_verified_example :
  let sigs :=
    [Toy.signatory Toy.alice [("alg", VStr "HS256"); ("kid", VStr "a")];
     Toy.signatory Toy.bob [("alg", VStr "HS256"); ("kid", VStr "b")];
     Toy.signatory Toy.carol [("alg", VStr "HS256"); ("kid", VStr "c")]] in
  let v := snd (Verify.createVerify Verify.loaded
                  (Toy.with_store [Toy.alice; Toy.bob; Toy.carol]) None) in
  let signed :=
    Sign.sign_data
      (Sign.sign {| Sign.signatories := map Resolved sigs;
                    Sign.settles := [0; 0; 0];
                    Sign.finalized := false |}
         (VObj [("content", VStr "x")])) in
  map (fun e => field e "valid")
    (signer_entries (Verify.verify_input (Verify.verify Verify.loaded v signed None)))
  = [VBool true; VBool true; VBool true].
Proof.
  intros sigs v signed.
  refine (proj1 (proj2 (proj2
    (several_signers_verified (J := Toy.jose) [("content", VStr "x")] sigs
       (fun s => Toy.mac (Sign.key s) (Obj.get (Sign.header s) "alg")
                   (snapshotForSigner (J := Toy.jose) [("content", VStr "x")] 3
                      (Obj.omit (Sign.header s)
                         (Obj.keys (Sign.globalHeaders sigs)))
                      (Sign.globalHeaders sigs)))
       [0; 0; 0]
       eq_refl _ _ Verify.loaded v None (fun s => Sign.key s) _ eq_refl _ _ _ _))));
    intros s [<-|[<-|[<-|[]]]]; try reflexivity;
    try (repeat split; try reflexivity;
         try (repeat constructor; simpl; intuition discriminate);
         try (now left); try (right; eexists; reflexivity);
         try (eexists; reflexivity)).
Defined.

(** * Further properties of the code *)

(** ** The guards of [sign] *)

Section SignGuards.

Context {J : Jose}.

Lemma sign_finalizes (signer : Sign.JWSSigner) (d : obj) :
  Sign.finalized (Sign.sign_signer (Sign.sign signer (VObj d))) = true.
Proof.
  unfold Sign.sign. destruct (Sign.finalized signer) eqn:F; [exact F|].
  destruct (promise_all_at (Sign.settles signer) (Sign.signatories signer))
    as [sigs|m]; [|reflexivity].
  destruct (Sign.sign_map _ _ sigs) as [[sh calls] ps].
  now destruct (promise_all_at _ ps).
Qed.

End SignGuards.

(** X1: a signer signs once.  After a call of [sign] on an object,
    whether that call resolved or rejected, every further call rejects
    with ["already final"], asks no key and leaves its argument as it
    is.  A call on something that is not an object rejects with
    ["Data to sign must be an object"] and does not use the signer up. *)
Theorem sign_is_single_use {J : Jose} (signer : Sign.JWSSigner) (d : obj)
    (data : value) :
  let first := Sign.sign signer (VObj d) in
  let second := Sign.sign (Sign.sign_signer first) data in
  (Sign.sign_promise second = Rejected "already final"
   /\ Sign.sign_data second = data
   /\ Sign.sign_calls second = []
   /\ Sign.sign_signer second = Sign.sign_signer first)
  /\ (Sign.finalized signer = false ->
      isObject data = false ->
      let refused := Sign.sign signer data in
      Sign.sign_promise refused = Rejected "Data to sign must be an object"
      /\ Sign.sign_data refused = data
      /\ Sign.sign_calls refused = []
      /\ Sign.sign_signer refused = signer).
Proof.
  intros first second. split.
  - subst second.
    pose proof (sign_finalizes signer d) as F. fold first in F.
    unfold Sign.sign. rewrite F. now repeat split.
  - intros F O refused. subst refused. unfold Sign.sign. rewrite F.
    destruct data; now repeat split.
Qed.

Lemma sign_is_single_use_witness :
  let signer := Sign.createSign (J := Toy.jose) [] [Toy.bare Toy.alice] in
  let refused := Sign.sign signer (VStr "x") in
  let first := Sign.sign (Sign.sign_signer refused) (VObj [("content", VStr "x")]) in
  let second := Sign.sign (Sign.sign_signer first) (VObj [("content", VStr "y")]) in
  Sign.sign_promise refused = Rejected "Data to sign must be an object"
  /\ (exists doc, Sign.sign_promise first = Resolved doc)
  /\ Sign.sign_promise second = Rejected "already final"
  /\ Sign.sign_data second = VObj [("content", VStr "y")].
Proof.
  intros signer refused first second.
  destruct (sign_is_single_use (J := Toy.jose) signer [] (VStr "x"))
    as [_ R]. destruct (R eq_refl eq_refl) as (R1 & _).
  destruct (sign_is_single_use (J := Toy.jose) (Sign.sign_signer refused)
              [("content", VStr "x")] (VObj [("content", VStr "y")]))
    as [(S1 & S2 & _) _].
  split; [exact R1|]. split; [eexists; reflexivity|]. split; [exact S1 | exact S2].
Defined.

(** ** What [sign] writes *)

Section SignWrites.

Context {J : Jose}.

Lemma sign_map_reserved (n : nat) (d : obj) (sigs : list Sign.Signatory)
    (sh : Sign.Shared) :
  (exists c, Sign.shared_data sh = Obj.set d CLEARTEXT (VObj c)) ->
  exists c, Sign.shared_data (fst (fst (Sign.sign_map n sh sigs)))
            = Obj.set d CLEARTEXT (VObj c).
Proof.
  revert sh. induction sigs as [|s sigs IH]; intros sh [c Hc]; [now exists c|].
  simpl. specialize (IH (Sign.materialize n sh s)).
  destruct (Sign.sign_map n (Sign.materialize n sh s) sigs) as [[sh2 cs] ps].
  simpl in *. apply IH. unfold Sign.materialize.
  destruct (Nat.eqb n 1); cbn [Sign.shared_data]; rewrite Hc, set_set;
    eexists; reflexivity.
Qed.

Lemma assemble_reserved (d c : obj) (recs : list obj) :
  exists c', Sign.assemble (Obj.set d CLEARTEXT (VObj c)) recs
             = Obj.set d CLEARTEXT (VObj c').
Proof.
  unfold Sign.assemble.
  destruct recs as [|r [|r' rest]]; rewrite ?get_set_same, !set_set;
    eexists; reflexivity.
Qed.

Lemma sign_map_asks (n : nat) (sigs : list Sign.Signatory) (sh : Sign.Shared) :
  map (fun c => (Sign.call_key c, Sign.call_alg c, Sign.call_header c))
    (snd (fst (Sign.sign_map n sh sigs)))
  = map (fun s => (Sign.key s, Obj.get (Sign.header s) "alg", Sign.header s))
      sigs.
Proof.
  revert sh. induction sigs as [|s sigs IH]; intros sh; [reflexivity|].
  simpl. specialize (IH (Sign.materialize n sh s)).
  destruct (Sign.sign_map n (Sign.materialize n sh s) sigs) as [[sh2 cs] ps].
  simpl in *. now rewrite IH.
Qed.

End SignWrites.

(** X2: [sign] writes the reserved field of the caller's document and
    nothing else.  However the call ends, the document it leaves is the
    one it was given with an object in the reserved field, the other
    fields and their order being kept; and the document it resolves with
    is that same document. *)
Theorem sign_writes_reserved_field_only {J : Jose} (signer : Sign.JWSSigner)
    (d : obj) :
  Sign.finalized signer = false ->
  let res := Sign.sign signer (VObj d) in
  (exists c, Sign.sign_data res = VObj (Obj.set d CLEARTEXT (VObj c)))
  /\ (forall doc, Sign.sign_promise res = Resolved doc ->
                  doc = Sign.sign_data res).
Proof.
  intros F res. subst res. unfold Sign.sign. rewrite F.
  destruct (promise_all_at (Sign.settles signer) (Sign.signatories signer))
    as [sigs|m].
  - pose proof (sign_map_reserved (length sigs) d sigs
                  {| Sign.shared_globalHeaders := Sign.globalHeaders sigs;
                     Sign.shared_data := Obj.set d CLEARTEXT (VObj []) |}
                  (ex_intro _ [] eq_refl)) as [c Hc].
    destruct (Sign.sign_map _ _ sigs) as [[sh calls] ps]. simpl in Hc.
    destruct (promise_all_at _ ps) as [recs|m]; simpl.
    + rewrite Hc. destruct (assemble_reserved d c recs) as [c' ->].
      split; [now exists c' | now intros doc [= <-]].
    + rewrite Hc. split; [now exists c | discriminate].
  - simpl. split; [now exists [] | discriminate].
Qed.

Lemma sign_writes_reserved_field_only_witness :
  let d := [("content", VStr "x"); (CLEARTEXT, VStr "earlier"); ("more", VNum 1)] in
  let failing := Sign.sign (Sign.createSign (J := Toy.jose) [] [Toy.bare Toy.mute])
                   (VObj d) in
  Sign.sign_promise failing = Rejected "unsupported key"
  /\ exists c, Sign.sign_data failing
               = VObj [("content", VStr "x"); (CLEARTEXT, VObj c); ("more", VNum 1)].
Proof.
  intros d failing. split; [reflexivity|].
  exact (proj1 (sign_writes_reserved_field_only (J := Toy.jose)
                  (Sign.createSign (J := Toy.jose) [] [Toy.bare Toy.mute]) d
                  eq_refl)).
Defined.

(** X3: once the signatories are resolved, the key of every signatory is
    asked, once and in the order of the signatories, with the algorithm
    of the signatory's header and with the whole header, whether or not
    the key of an earlier signatory refuses. *)
Theorem sign_asks_every_key {J : Jose} (signer : Sign.JWSSigner) (d : obj)
    (sigs : list Sign.Signatory) :
  Sign.finalized signer = false ->
  promise_all (Sign.signatories signer) = Resolved sigs ->
  map (fun c => (Sign.call_key c, Sign.call_alg c, Sign.call_header c))
    (Sign.sign_calls (Sign.sign signer (VObj d)))
  = map (fun s => (Sign.key s, Obj.get (Sign.header s) "alg", Sign.header s))
      sigs.
Proof.
  intros F P. unfold Sign.sign. rewrite F, (promise_all_at_resolved _ _ _ P).
  pose proof (sign_map_asks (length sigs) sigs
                {| Sign.shared_globalHeaders := Sign.globalHeaders sigs;
                   Sign.shared_data := Obj.set d CLEARTEXT (VObj []) |}) as H.
  destruct (Sign.sign_map _ _ sigs) as [[sh calls] ps]. simpl in H.
  now destruct (promise_all_at _ ps).
Qed.

Lemma sign_asks_every_key_witness :
  let res :=
    Sign.sign (Sign.createSign (J := Toy.jose) []
                 [Toy.bare Toy.mute; Toy.bare Toy.alice])
      (VObj [("content", VStr "x")]) in
  Sign.sign_promise res = Rejected "unsupported key"
  /\ map (fun c => (Sign.call_key c, Sign.call_alg c, Sign.call_header c))
       (Sign.sign_calls res)
     = [(Toy.mute : Key (Jose := Toy.jose), VStr "HS256",
         [("alg", VStr "HS256"); ("kid", VStr "m")]);
        (Toy.alice : Key (Jose := Toy.jose), VStr "HS256",
         [("alg", VStr "HS256"); ("kid", VStr "a")])].
Proof.
  intros res. split; [reflexivity|].
  exact (sign_asks_every_key (J := Toy.jose)
           (Sign.createSign (J := Toy.jose) []
              [Toy.bare Toy.mute; Toy.bare Toy.alice])
           [("content", VStr "x")]
           [Toy.signatory Toy.mute [("alg", VStr "HS256"); ("kid", VStr "m")];
            Toy.signatory Toy.alice [("alg", VStr "HS256"); ("kid", VStr "a")]]
           eq_refl eq_refl).
Defined.

(** ** No signatory, no signer *)

(** X4: without signatories [sign] resolves with the reserved field
    [{signers: []}] and asks no key; and a document whose [signers] is
    the empty array is resolved by [verify] as it is, without a flag and
    without a key being asked. *)
Theorem empty_signers_round_trip {J : Jose} :
  (forall opts d : obj,
      let res := Sign.sign (Sign.createSign opts []) (VObj d) in
      let signed := VObj (Obj.set d CLEARTEXT (VObj [("signers", VArr [])])) in
      Sign.sign_promise res = Resolved signed
      /\ Sign.sign_data res = signed
      /\ Sign.sign_calls res = [])
  /\ (forall (st : Verify.store) (v : Verify.JWSVerifier) (opts : option obj)
         (i cs : obj),
         Obj.get i CLEARTEXT = VObj cs ->
         Obj.get cs "signers" = VArr [] ->
         let res := Verify.verify st v (VObj i) opts in
         Verify.verify_completion res = Returned (Resolved (VObj i))
         /\ Verify.verify_input res = VObj i
         /\ Verify.verify_calls res = []).
Proof.
  split.
  - intros opts d res signed. subst res signed.
    unfold Sign.sign, Sign.createSign. simpl.
    unfold Sign.assemble. rewrite get_set_same, set_set. now repeat split.
  - intros st v opts i cs Hi Hs res. subst res.
    unfold Verify.verify, Verify.signer_records.
    rewrite Hi, Hs. now repeat split.
Qed.

Lemma empty_signers_round_trip_witness :
  let signed :=
    Sign.sign_data (Sign.sign (Sign.createSign (J := Toy.jose) [] [])
                      (VObj [("content", VStr "x")])) in
  let v := snd (Verify.createVerify Verify.loaded
                  (Toy.with_store [Toy.alice]) None) in
  let res := Verify.verify Verify.loaded v signed None in
  signed = VObj [("content", VStr "x"); (CLEARTEXT, VObj [("signers", VArr [])])]
  /\ Verify.verify_completion res = Returned (Resolved signed)
  /\ Verify.verify_input res = signed
  /\ Verify.verify_calls res = [].
Proof.
  intros signed v res. split.
  - exact (proj1 (proj2 (proj1 (empty_signers_round_trip (J := Toy.jose)) []
                           [("content", VStr "x")]))).
  - exact (proj2 (empty_signers_round_trip (J := Toy.jose)) Verify.loaded v None
             [("content", VStr "x"); (CLEARTEXT, VObj [("signers", VArr [])])]
             [("signers", VArr [])] eq_refl eq_refl).
Defined.

(** ** The global headers of two signatories *)

Section GlobalHeadersOfTwo.

Context {J : Jose}.

Lemma collect_keeps (sigs : list Sign.Signatory) (ks : list string) (g0 : obj)
    (k : string) :
  Obj.lookup g0 k
  = Some (hd VUndef (map (fun a => Obj.get (Sign.header a) k) sigs)) ->
  Obj.lookup (fold_left (Sign.collect sigs) ks g0) k
  = Some (hd VUndef (map (fun a => Obj.get (Sign.header a) k) sigs)).
Proof.
  revert g0. induction ks as [|a ks IH]; intros g0 H; [exact H|].
  simpl. apply IH. unfold Sign.collect.
  destruct (truthy _); [|exact H].
  destruct (String.eqb a k) eqn:E.
  - apply String.eqb_eq in E. subst a. apply lookup_set_same.
  - apply String.eqb_neq in E. now rewrite lookup_set_other.
Qed.

Lemma collect_sets (sigs : list Sign.Signatory) (ks : list string) (g0 : obj)
    (k : string) :
  In k ks ->
  truthy (Sign.reduce_strict_eq
            (map (fun a => Obj.get (Sign.header a) k) sigs)) = true ->
  Obj.lookup (fold_left (Sign.collect sigs) ks g0) k
  = Some (hd VUndef (map (fun a => Obj.get (Sign.header a) k) sigs)).
Proof.
  revert g0. induction ks as [|a ks IH]; intros g0 Hin T; [destruct Hin|].
  simpl. destruct (string_dec a k) as [->|N].
  - apply collect_keeps. unfold Sign.collect. rewrite T. apply lookup_set_same.
  - destruct Hin as [E|Hin]; [contradiction|]. now apply IH.
Qed.

Lemma in_keys_has (o : obj) (k : string) :
  In k (Obj.keys o) <-> Obj.has o k = true.
Proof.
  rewrite <- mem_keys. symmetry. apply mem_in.
Qed.

Lemma has_lookup_get (o : obj) (k : string) :
  Obj.has o k = true -> Obj.lookup o k = Some (Obj.get o k).
Proof.
  unfold Obj.has, Obj.get. now destruct (Obj.lookup o k).
Qed.

End GlobalHeadersOfTwo.

(** X5: for two signatories the global headers are exact.  A field is
    global with the value [v] just when the first header has it with the
    value [v], the second header has it, and the two values are equal
    under [===]. *)
Theorem globalHeaders_two_signatories {J : Jose} (s1 s2 : Sign.Signatory)
    (k : string) (v : value) :
  Obj.lookup (Sign.globalHeaders [s1; s2]) k = Some v
  <-> Obj.lookup (Sign.header s1) k = Some v
      /\ Obj.has (Sign.header s2) k = true
      /\ strict_eq v (Obj.get (Sign.header s2) k) = true.
Proof.
  rewrite globalHeaders_is_collect. cbn [length Nat.eqb map]. split.
  - intros L.
    apply collect_lookup in L. destruct L as [L|(Hin & T & ->)]; [discriminate|].
    pose proof (intersection_in _ k Hin) as M.
    assert (H1 : Obj.has (Sign.header s1) k = true).
    { rewrite <- mem_keys. apply M. now left. }
    assert (H2 : Obj.has (Sign.header s2) k = true).
    { rewrite <- mem_keys. apply M. right. now left. }
    simpl in T |- *. split; [now apply has_lookup_get|]. now split.
  - intros (L & H2 & E).
    assert (G : Obj.get (Sign.header s1) k = v) by (unfold Obj.get; now rewrite L).
    replace v with (hd VUndef (map (fun a => Obj.get (Sign.header a) k) [s1; s2]))
      by exact G.
    apply collect_sets.
    + unfold intersection. apply filter_In. split.
      * apply nodup_In, in_keys_has. unfold Obj.has. now rewrite L.
      * simpl. now rewrite mem_keys, H2.
    + simpl. now rewrite G.
Qed.

Lemma globalHeaders_two_signatories_witness :
  let s1 := Toy.signatory Toy.alice [("alg", VStr "HS256"); ("kid", VStr "a")] in
  let s2 := Toy.signatory Toy.bob [("alg", VStr "HS256"); ("kid", VStr "b")] in
  Obj.lookup (Sign.globalHeaders [s1; s2]) "alg" = Some (VStr "HS256")
  /\ Obj.lookup (Sign.globalHeaders [s1; s2]) "kid" = None.
Proof.
  intros s1 s2. split.
  - apply (proj2 (globalHeaders_two_signatories s1 s2 "alg" (VStr "HS256"))).
    now repeat split.
  - destruct (Obj.lookup (Sign.globalHeaders [s1; s2]) "kid") as [v|] eqn:L;
      [|reflexivity].
    apply (proj1 (globalHeaders_two_signatories s1 s2 "kid" v)) in L.
    destruct L as (L & _ & E). injection L as <-. discriminate.
Defined.

(** X6: for any number of signatories, a global header is a field that
    every signatory's header has, its value is the one of the first
    signatory, there are at least two signatories, and no global header
    is listed twice. *)
Theorem globalHeaders_come_from_every_signatory {J : Jose}
    (sigs : list Sign.Signatory) (k : string) (v : value) :
  Obj.lookup (Sign.globalHeaders sigs) k = Some v ->
  (forall s, In s sigs -> Obj.has (Sign.header s) k = true)
  /\ (exists s0 rest, sigs = s0 :: rest /\ rest <> []
                       /\ Obj.lookup (Sign.header s0) k = Some v)
  /\ NoDup (Obj.keys (Sign.globalHeaders sigs)).
Proof.
  intros L. pose proof (globalHeaders_has sigs k v L) as H.
  split; [exact H|]. split; [|apply globalHeaders_nodup].
  rewrite globalHeaders_is_collect in L.
  destruct sigs as [|s0 [|s1 rest]]; try discriminate.
  exists s0, (s1 :: rest). split; [reflexivity|]. split; [discriminate|].
  cbn [length Nat.eqb] in L.
  apply collect_lookup in L. destruct L as [L|(_ & _ & ->)]; [discriminate|].
  simpl. apply has_lookup_get, H. now left.
Qed.

Lemma globalHeaders_come_from_every_signatory_witness :
  let s1 := Toy.signatory Toy.alice [("alg", VStr "HS256"); ("kid", VStr "a")] in
  let s2 := Toy.signatory Toy.bob [("alg", VStr "HS256"); ("kid", VStr "b")] in
  Forall (fun s => Obj.has (Sign.header s) "alg" = true) [s1; s2].
Proof.
  intros s1 s2. apply Forall_forall.
  exact (proj1 (globalHeaders_come_from_every_signatory [s1; s2] "alg"
                  (VStr "HS256") eq_refl)).
Defined.

(** ** Several signatories: the document assembled *)

(** X7: several signatories, all keys answering.  [sign] resolves with
    the reserved field made of the global headers and of [signers], which
    holds one record per signatory in the order of the signatories: the
    signatory's own fields (no global header among them) and the
    base64url form of what its key answered. *)
Theorem sign_keeps_signatory_order {J : Jose} (d : obj)
    (sigs : list Sign.Signatory) (mac_of : Sign.Signatory -> bytes)
    (ticks : list nat) :
  let g := Sign.globalHeaders sigs in
  Nat.eqb (length sigs) 1 = false ->
  (forall s, In s sigs -> plain_header (Sign.header s)) ->
  (forall s, In s sigs ->
     key_sign (Sign.key s) (Obj.get (Sign.header s) "alg")
       (snapshotForSigner d (length sigs)
          (Obj.omit (Sign.header s) (Obj.keys g)) g)
       (Sign.header s) = Resolved (mac_of s)) ->
  let res := Sign.sign {| Sign.signatories := map Resolved sigs;
                          Sign.settles := ticks;
                          Sign.finalized := false |} (VObj d) in
  Sign.sign_promise res
  = Resolved
      (VObj (Obj.set d CLEARTEXT
               (VObj (Obj.set g "signers"
                        (VArr (map (fun s =>
                                      VObj (Obj.set
                                              (Obj.omit (Sign.header s) (Obj.keys g))
                                              "signature"
                                              (VStr (base64url_encode (mac_of s)))))
                                 sigs))))))
  /\ (forall s k, In s sigs -> Obj.has g k = true ->
                   Obj.has (Obj.omit (Sign.header s) (Obj.keys g)) k = false).
Proof.
  intros g Hn Hp Hs res. split.
  - destruct (sign_several d sigs mac_of ticks Hn Hp Hs) as [S _].
    subst res. rewrite S. now rewrite map_map.
  - intros s k _ Hk. unfold Obj.has. now rewrite lookup_omit, mem_keys, Hk.
Qed.

Lemma sign_keeps_signatory_order_witness :
  let sigs :=
    [Toy.signatory Toy.alice [("alg", VStr "HS256"); ("kid", VStr "a")];
     Toy.signatory Toy.bob [("alg", VStr "HS256"); ("kid", VStr "b")]] in
  Sign.sign_promise
    (Sign.sign {| Sign.signatories := map Resolved sigs;
                  Sign.settles := [0; 0];
                  Sign.finalized := false |} (VObj [("content", VStr "x")]))
  = Resolved
      (VObj [("content", VStr "x");
             (CLEARTEXT,
              VObj [("alg", VStr "HS256");
                    ("signers",
                     VArr [VObj [("kid", VStr "a");
                                 ("signature",
                                  VStr "sa/HS256/{content:'x',__cleartext_signature:{alg:'HS256',signers:[{kid:'a'}]}}")];
                           VObj [("kid", VStr "b");
                                 ("signature",
                                  VStr "sb/HS256/{content:'x',__cleartext_signature:{alg:'HS256',signers:[{kid:'b'}]}}")]])])]).
Proof.
  intros sigs.
  refine (proj1 (sign_keeps_signatory_order (J := Toy.jose)
                   [("content", VStr "x")] sigs
                   (fun s => Toy.mac (Sign.key s) (Obj.get (Sign.header s) "alg")
                               (snapshotForSigner (J := Toy.jose)
                                  [("content", VStr "x")] 2
                                  (Obj.omit (Sign.header s)
                                     (Obj.keys (Sign.globalHeaders sigs)))
                                  (Sign.globalHeaders sigs)))
                   [0; 0] eq_refl _ _));
    intros s [<-|[<-|[]]]; try reflexivity;
    repeat split; try reflexivity;
    repeat constructor; simpl; intuition discriminate.
Defined.

(** ** The header of a resolved signatory *)

Section ResolvedHeader.

Context {J : Jose}.

Lemma truthy_get_has (o : obj) (k : string) :
  truthy (Obj.get o k) = true -> Obj.has o k = true.
Proof.
  unfold Obj.get, Obj.has. now destruct (Obj.lookup o k).
Qed.

Lemma key_reference_alg (ref : Sign.reference) (h : obj) :
  Sign.key_reference ref h = Some "alg" -> ref = Sign.RefString "alg".
Proof.
  destruct ref as [|b|r]; unfold Sign.key_reference.
  - destruct (existsb (Obj.has h) ["kid"; "jku"; "x5c"; "x5t"; "x5u"]); discriminate.
  - destruct b; discriminate.
  - destruct (String.eqb r ""); congruence.
Qed.

Lemma key_reference_named (ref : Sign.reference) (h : obj) (r : string) :
  Sign.key_reference ref h = Some r ->
  ref = Sign.RefString r
  \/ (r = "kid" /\ (ref = Sign.RefUndefined \/ ref = Sign.RefBool true)).
Proof.
  destruct ref as [|b|r']; unfold Sign.key_reference.
  - destruct (existsb (Obj.has h) ["kid"; "jku"; "x5c"; "x5t"; "x5u"]); [discriminate|]. intros [= <-]. right. auto.
  - destruct b; [|discriminate]. intros [= <-]. right. auto.
  - destruct (String.eqb r' ""); [discriminate|]. intros [= <-]. now left.
Qed.

End ResolvedHeader.

(** X8: a resolved signatory has the key it was resolved from and a
    header with [alg]: the algorithm given by the options' fields or the
    signatory's header when that is truthy, else the first signing
    algorithm of the key, or [""] when the key has none (unless the
    reference asked for is ["alg"] itself). *)
Theorem resolved_signatory_has_algorithm {J : Jose} (allFields : obj) (k : Key)
    (hdr : option obj) (ref : Sign.reference) (s : Sign.Signatory) :
  Sign.complete allFields k hdr ref = Resolved s ->
  let given :=
    Obj.get (merge (merge [] allFields)
               (match hdr with Some h => h | None => [] end)) "alg" in
  Sign.key s = k
  /\ Obj.has (Sign.header s) "alg" = true
  /\ (ref <> Sign.RefString "alg" ->
       Obj.get (Sign.header s) "alg"
       = if truthy given then given else VStr (hd "" (algorithms k))).
Proof.
  unfold Sign.complete.
  set (h0 := merge (merge [] allFields) (match hdr with Some h => h | None => [] end)).
  set (h1 := if truthy (Obj.get h0 "alg") then h0
             else Obj.set h0 "alg" (VStr (hd "" (algorithms k)))).
  assert (H1 : Obj.has h1 "alg" = true).
  { unfold h1. destruct (truthy (Obj.get h0 "alg")) eqn:T.
    - now apply truthy_get_has.
    - now rewrite has_set. }
  assert (G1 : Obj.get h1 "alg"
               = if truthy (Obj.get h0 "alg") then Obj.get h0 "alg"
                 else VStr (hd "" (algorithms k))).
  { unfold h1. destruct (truthy (Obj.get h0 "alg")); [reflexivity|].
    apply get_set_same. }
  destruct (Sign.key_reference ref h1) as [r|] eqn:R.
  - assert (N : ref <> Sign.RefString "alg" -> r <> "alg").
    { intros N ->. apply N. now apply key_reference_alg with (h := h1). }
    destruct (String.eqb "jwk" r) eqn:E.
    + destruct (String.eqb "oct" (kty k)); [discriminate|].
      intros [= <-]. simpl. apply String.eqb_eq in E. subst r.
      split; [reflexivity|]. split.
      * rewrite has_set. now rewrite H1, orb_true_r.
      * intros _. now rewrite get_set_other by discriminate.
    + destruct (Obj.has (toJSON k) r); intros [= <-]; simpl;
        (split; [reflexivity|]); split; trivial.
      * rewrite has_set. now rewrite H1, orb_true_r.
      * intros N'. rewrite get_set_other by (now apply N). exact G1.
  - intros [= <-]. simpl. split; [reflexivity|]. split; [exact H1|].
    intros _. exact G1.
Qed.

Lemma resolved_signatory_has_algorithm_witness :
  let s := Toy.signatory Toy.alice [("typ", VStr "t"); ("alg", VStr "HS256")] in
  Sign.complete (J := Toy.jose) [("typ", VStr "t")] Toy.alice None
    (Sign.RefBool false) = Resolved s
  /\ Obj.has (Sign.header s) "alg" = true
  /\ Obj.get (Sign.header s) "alg" = VStr "HS256".
Proof.
  intros s. split; [reflexivity|].
  destruct (resolved_signatory_has_algorithm (J := Toy.jose) [("typ", VStr "t")]
              Toy.alice None (Sign.RefBool false) s eq_refl) as (_ & H & G).
  split; [exact H|]. apply G. discriminate.
Defined.

Section FieldOrigin.

Context {J : Jose}.

Lemma lookup_set_cases (o : obj) (k f : string) (x v : value) :
  Obj.lookup (Obj.set o k x) f = Some v ->
  (f = k /\ v = x) \/ (f <> k /\ Obj.lookup o f = Some v).
Proof.
  destruct (string_dec k f) as [->|N].
  - rewrite lookup_set_same. intros [= <-]. now left.
  - rewrite lookup_set_other by exact N. intros H. right. split; congruence.
Qed.

End FieldOrigin.

(** X9: nothing of the key reaches the header but the field the
    reference names.  Every field of a resolved header comes from the
    options' fields merged with the signatory's header, or is the default
    algorithm, or is the [jwk] of a key that is not symmetric when
    ["jwk"] was asked for, or is the one field of the key's JSON form
    that the reference names ([kid] by default or on [true]). *)
Theorem resolved_header_fields_origin {J : Jose} (allFields : obj) (k : Key)
    (hdr : option obj) (ref : Sign.reference) (s : Sign.Signatory)
    (f : string) (v : value) :
  Sign.complete allFields k hdr ref = Resolved s ->
  Obj.lookup (Sign.header s) f = Some v ->
  Obj.lookup (merge (merge [] allFields)
                (match hdr with Some h => h | None => [] end)) f = Some v
  \/ (f = "alg" /\ v = VStr (hd "" (algorithms k)))
  \/ (f = "jwk" /\ ref = Sign.RefString "jwk" /\ v = VObj (toJSON k)
      /\ kty k <> "oct")
  \/ (Obj.lookup (toJSON k) f = Some v
      /\ (ref = Sign.RefString f
          \/ (f = "kid" /\ (ref = Sign.RefUndefined \/ ref = Sign.RefBool true)))).
Proof.
  unfold Sign.complete.
  set (h0 := merge (merge [] allFields) (match hdr with Some h => h | None => [] end)).
  set (h1 := if truthy (Obj.get h0 "alg") then h0
             else Obj.set h0 "alg" (VStr (hd "" (algorithms k)))).
  assert (B : Obj.lookup h1 f = Some v ->
              Obj.lookup h0 f = Some v
              \/ (f = "alg" /\ v = VStr (hd "" (algorithms k)))).
  { unfold h1. destruct (truthy (Obj.get h0 "alg")); [now left|].
    intros L. apply lookup_set_cases in L. destruct L as [L|[_ L]]; auto. }
  destruct (Sign.key_reference ref h1) as [r|] eqn:R.
  - pose proof (key_reference_named ref h1 r R) as Hr.
    destruct (String.eqb "jwk" r) eqn:E.
    + apply String.eqb_eq in E. subst r.
      destruct (String.eqb "oct" (kty k)) eqn:O; [discriminate|].
      apply String.eqb_neq in O.
      intros [= <-]. simpl. intros L. apply lookup_set_cases in L.
      destruct L as [[-> ->]|[_ L]].
      * right. right. left. repeat split; [|congruence].
        destruct Hr as [Hr|[Hr _]]; [exact Hr | discriminate].
      * destruct (B L) as [H|H]; auto.
    + destruct (Obj.has (toJSON k) r) eqn:H; intros [= <-]; simpl; intros L.
      * apply lookup_set_cases in L. destruct L as [[-> ->]|[_ L]].
        -- right. right. right. split; [now apply has_lookup_get|].
           destruct Hr as [Hr|Hr]; auto.
        -- destruct (B L) as [H'|H']; auto.
      * destruct (B L) as [H'|H']; auto.
  - intros [= <-]. simpl. intros L. destruct (B L) as [H|H]; auto.
Qed.

Lemma resolved_header_fields_origin_witness :
  let s := Toy.signatory Toy.alice [("alg", VStr "HS256"); ("kid", VStr "a")] in
  Sign.complete (J := Toy.jose) [] Toy.alice None Sign.RefUndefined = Resolved s
  /\ (Obj.lookup (toJSON (Jose := Toy.jose) Toy.alice) "kty" = Some (VStr "oct")
      /\ Obj.lookup (Sign.header s) "kty" = None).
Proof.
  intros s. split; [reflexivity|]. split; [reflexivity|].
  destruct (Obj.lookup (Sign.header s) "kty") as [v|] eqn:L; [|reflexivity].
  destruct (resolved_header_fields_origin (J := Toy.jose) [] Toy.alice None
              Sign.RefUndefined s "kty" v eq_refl L)
    as [H|[[H _]|[[H _]|[_ [H|[H _]]]]]]; discriminate.
Defined.



(** ** A signatory without a key *)

Section MissingKey.

Context {J : Jose}.

(** A rejection that comes after promises that resolve, and settles no
    later than what follows it, is the one [Promise.all] rejects with. *)
Lemma promise_all_at_app_rejected {A : Type} (ts1 ts2 : list nat) (t : nat)
    (l : list A) (m : string) (rest : list (promise A)) :
  length ts1 = length l ->
  Forall (le t) ts2 ->
  length rest <= length ts2 ->
  promise_all_at (ts1 ++ t :: ts2) (map Resolved l ++ Rejected m :: rest)
  = Rejected m.
Proof.
  intros L F R. unfold promise_all_at.
  rewrite earliest_app_resolved by exact L. simpl.
  destruct (earliest ts2 rest) as [[t' m']|] eqn:E; [|reflexivity].
  pose proof (earliest_least t ts2 rest t' m' F R E) as Q.
  apply Nat.ltb_ge in Q. now rewrite Q.
Qed.

Lemma resolve_from_length (allFields : obj) (idx : nat)
    (l : list Sign.signatory_spec) :
  length (Sign.resolve_from allFields idx l) = length l.
Proof.
  revert idx. induction l as [|s l IH]; intros idx; simpl; [reflexivity|].
  now rewrite IH.
Qed.

(** A signatory that is missing is settled before any that has a key. *)
Lemma resolve_settles_least (allFields : obj) (l : list Sign.signatory_spec) :
  Forall (le 1) (map (Sign.resolve_settles allFields) l).
Proof.
  apply Forall_forall. intros t H. apply in_map_iff in H.
  destruct H as (s & <- & _). destruct s; simpl; lia.
Qed.

End MissingKey.

(** X11: when the signatories before it resolve, a signatory that is
    missing makes [sign] reject with ["missing key for signatory "]
    followed by its index; no key is asked, and the document is left with
    the empty placeholder. *)
Theorem missing_signatory_rejects_sign {J : Jose} (opts d : obj)
    (before after : list Sign.signatory_spec) (sigs : list Sign.Signatory) :
  promise_all (Sign.signatories (Sign.createSign opts before)) = Resolved sigs ->
  let res := Sign.sign (Sign.createSign opts (before ++ Sign.SpecNothing :: after))
               (VObj d) in
  Sign.sign_promise res
  = Rejected ("missing key for signatory "
              ++ NilEmpty.string_of_uint (Nat.to_uint (length before)))
  /\ Sign.sign_calls res = []
  /\ Sign.sign_data res = VObj (Obj.set d CLEARTEXT (VObj [])).
Proof.
  intros P res. subst res. apply sign_unresolved; [reflexivity|].
  unfold Sign.createSign in *. cbn [Sign.signatories Sign.settles] in *.
  rewrite resolve_from_app, map_app. apply promise_all_resolved in P.
  assert (L : length before = length sigs).
  { rewrite <- (length_map Resolved sigs), <- P. symmetry.
    apply resolve_from_length. }
  rewrite P.
  cbn [Sign.resolve_from Sign.resolve Nat.add map Sign.resolve_settles].
  apply promise_all_at_app_rejected.
  - now rewrite length_map.
  - apply resolve_settles_least.
  - now rewrite resolve_from_length, length_map.
Qed.

Lemma missing_signatory_rejects_sign_witness :
  let res :=
    Sign.sign (Sign.createSign (J := Toy.jose) []
                 [Toy.bare Toy.alice; Sign.SpecNothing; Toy.bare Toy.bob])
      (VObj [("content", VStr "x")]) in
  Sign.sign_promise res = Rejected "missing key for signatory 1"
  /\ Sign.sign_calls res = []
  /\ Sign.sign_data res
     = VObj [("content", VStr "x"); (CLEARTEXT, VObj [])].
Proof.
  exact (missing_signatory_rejects_sign (J := Toy.jose) []
           [("content", VStr "x")] [Toy.bare Toy.alice] [Toy.bare Toy.bob]
           [Toy.signatory Toy.alice [("alg", VStr "HS256"); ("kid", VStr "a")]]
           eq_refl).
Defined.

(** ** Verification: the records and the calls *)

Section PreparedRecords.

Context {J : Jose}.

Lemma get_omit_other (o : obj) (ks : list string) (k : string) :
  Obj.mem k ks = false -> Obj.get (Obj.omit o ks) k = Obj.get o k.
Proof.
  intros M. unfold Obj.get. now rewrite lookup_omit, M.
Qed.

(** What a record that is prepared into a chain was. *)
Lemma prepare_chain (o : obj) (v : Verify.JWSVerifier) (cs : obj)
    (rec : value) (sig : Verify.Sig) (k : promise (option Key)) :
  Verify.prepare o v cs rec = Verify.PChain sig k ->
  exists r s,
    rec = VObj r
    /\ Obj.get r "signature" = VStr s
    /\ sig = {| Verify.signee := signee_of r;
                Verify.header := Verify.effective_header cs r;
                Verify.signature := base64url_decode s |}
    /\ AlgConfig_match (Obj.get o "algorithms")
         (Obj.get (Verify.effective_header cs r) "alg") = true
    /\ Verify.getAlgKey o sig (Verify.defaultKey v) (Verify.keystore v)
       = Returned k.
Proof.
  unfold Verify.prepare. destruct rec as [| | | | |?|r]; try discriminate.
  rewrite get_omit_other by reflexivity.
  destruct (Obj.get r "signature") as [| | | |s| |] eqn:S; try discriminate.
  destruct (AlgConfig_match _ _) eqn:M; simpl; [|discriminate].
  destruct (Verify.getAlgKey _ _ _ _) as [p|m] eqn:G; [|discriminate].
  intros [= <- <-]. exists r, s. repeat split; trivial.
Qed.

Lemma prepare_all_chain (o : obj) (v : Verify.JWSVerifier) (cs : obj)
    (recs : list value) (p : Verify.prepared) :
  In p (Verify.prepare_all o v cs recs) ->
  exists rec, In rec recs /\ Verify.prepare o v cs rec = p.
Proof.
  induction recs as [|rec recs IH]; [intros []|]. simpl.
  destruct (Verify.prepare o v cs rec) as [m|m|sig k] eqn:E.
  - intros [<-|[]]. exists rec. split; [now left | exact E].
  - intros [<-|H]; [exists rec; split; [now left | exact E]|].
    destruct (IH H) as (x & Hx & Ex). exists x. split; [now right | exact Ex].
  - intros [<-|H]; [exists rec; split; [now left | exact E]|].
    destruct (IH H) as (x & Hx & Ex). exists x. split; [now right | exact Ex].
Qed.

Lemma run_calls (n : nat) (ps : list Verify.prepared) (index : nat)
    (sh : Verify.Shared) (c : Verify.VerifyCall) :
  In c (Verify.shared_calls (Verify.run n index sh ps)) ->
  In c (Verify.shared_calls sh)
  \/ exists sig,
       In (Verify.PChain sig (Resolved (Some (Verify.call_key c)))) ps
       /\ Verify.call_alg c = Obj.get (Verify.header sig) "alg"
       /\ Verify.call_signature c = Verify.signature sig.
Proof.
  revert index sh. induction ps as [|p ps IH]; intros index sh; [now left|].
  destruct p as [m|m|sig k]; simpl.
  - intros H. destruct (IH _ _ H) as [H'|(sig & H1 & H2)]; [now left|].
    right. exists sig. split; [now right | exact H2].
  - intros H. destruct (IH _ _ H) as [H'|(sig & H1 & H2)]; [now left|].
    right. exists sig. split; [now right | exact H2].
  - unfold Verify.check.
    destruct k as [[key|]|m]; simpl; intros H;
      destruct (IH _ _ H) as [H'|(sig' & H1 & H2)];
      try (right; exists sig'; split; [now right | exact H2]);
      simpl in H'; try rewrite app_nil_r in H'; try (now left).
    apply in_app_or in H'. destruct H' as [H'|[<-|[]]]; [now left|].
    right. exists sig. simpl. split; [now left | now split].
Qed.

End PreparedRecords.

Section CallsOfVerify.

Context {J : Jose}.

(** Every call [verify] makes comes from a record of the document. *)
Lemma verify_call_record (st : Verify.store) (v : Verify.JWSVerifier)
    (opts : option obj) (i cs : obj) (recs : list value)
    (c : Verify.VerifyCall) :
  Verify.signer_records i = Returned (cs, recs) ->
  In c (Verify.verify_calls (Verify.verify st v (VObj i) opts)) ->
  let o := Verify.effective_options st v opts in
  exists r s sig,
    In (VObj r) recs
    /\ Obj.get r "signature" = VStr s
    /\ Verify.header sig = Verify.effective_header cs r
    /\ Verify.call_alg c = Obj.get (Verify.effective_header cs r) "alg"
    /\ Verify.call_signature c = base64url_decode s
    /\ AlgConfig_match (Obj.get o "algorithms") (Verify.call_alg c) = true
    /\ Verify.getAlgKey o sig (Verify.defaultKey v) (Verify.keystore v)
       = Returned (Resolved (Some (Verify.call_key c))).
Proof.
  intros R H o. unfold Verify.verify in H. rewrite R in H.
  cbn [Verify.verify_calls] in H. fold o in H. apply run_calls in H. destruct H as [[]|(sig & H1 & H2 & H3)].
  apply prepare_all_chain in H1. destruct H1 as (rec & Hin & P).
  apply prepare_chain in P. destruct P as (r & s & -> & S & E & M & G).
  exists r, s, sig. rewrite H2, H3. subst sig. simpl in *. now repeat split.
Qed.

End CallsOfVerify.

(** X12: [verify] never asks a key to verify under an algorithm that the
    allow-list of the effective options refuses. *)
Theorem verify_asks_allowed_algorithms_only {J : Jose} (st : Verify.store)
    (v : Verify.JWSVerifier) (opts : option obj) (input : value)
    (c : Verify.VerifyCall) :
  In c (Verify.verify_calls (Verify.verify st v input opts)) ->
  AlgConfig_match (Obj.get (Verify.effective_options st v opts) "algorithms")
    (Verify.call_alg c) = true.
Proof.
  destruct input as [| | | | | |i]; try (simpl; tauto).
  destruct (Verify.signer_records i) as [[cs recs]|m] eqn:R.
  - intros H.
    destruct (verify_call_record st v opts i cs recs c R H)
      as (r & s & sig & _ & _ & _ & _ & _ & M & _).
    exact M.
  - unfold Verify.verify. rewrite R. intros [].
Qed.

Lemma verify_asks_allowed_algorithms_only_witness :
  let signed :=
    Sign.sign_data (Sign.sign (Sign.createSign (J := Toy.jose) []
                                 [Toy.bare Toy.alice; Toy.bare Toy.bob])
                      (VObj [("content", VStr "x")])) in
  let v := snd (Verify.createVerify Verify.loaded
                  (Toy.with_store [Toy.alice; Toy.bob]) None) in
  let opts := Some [("algorithms", VArr [VStr "HS256"; VStr "HS512"])] in
  length (Verify.verify_calls (Verify.verify Verify.loaded v signed opts)) = 2
  /\ Forall (fun c => Toy.matches (VArr [VStr "HS256"; VStr "HS512"])
                        (Verify.call_alg c) = true)
       (Verify.verify_calls (Verify.verify Verify.loaded v signed opts)).
Proof.
  intros signed v opts. split; [reflexivity|].
  apply Forall_forall. intros c H.
  exact (verify_asks_allowed_algorithms_only (J := Toy.jose) Verify.loaded v
           opts signed c H).
Defined.

(** X13: while [allowEmbeddedKey] is off, the key of every call comes
    from the verifier and not from the document: it is the key the
    verifier was made with, or else the one its key store has for
    [{use: "sig", alg, kid}] of the record's header; and the call is made
    with the algorithm of that header and the decoded signature of the
    record. *)
Theorem verify_uses_own_keys_by_default {J : Jose} (st : Verify.store)
    (v : Verify.JWSVerifier) (opts : option obj) (i cs : obj)
    (recs : list value) (c : Verify.VerifyCall) :
  truthy (Obj.get (Verify.effective_options st v opts) "allowEmbeddedKey")
  = false ->
  Verify.signer_records i = Returned (cs, recs) ->
  In c (Verify.verify_calls (Verify.verify st v (VObj i) opts)) ->
  (exists r,
      In (VObj r) recs
      /\ fallback_key v (Verify.effective_header cs r) = Some (Verify.call_key c)
      /\ Verify.call_alg c = Obj.get (Verify.effective_header cs r) "alg"
      /\ Verify.call_signature c = signature_of r)
  /\ (forall k, Verify.defaultKey v = Some k -> Verify.call_key c = k).
Proof.
  intros E R H.
  destruct (verify_call_record st v opts i cs recs c R H)
    as (r & s & sig & Hin & S & Hh & Ha & Hs & _ & G).
  unfold Verify.getAlgKey in G. rewrite E in G. simpl in G.
  injection G as G. rewrite Hh in G.
  assert (F : fallback_key v (Verify.effective_header cs r)
              = Some (Verify.call_key c)) by exact G.
  split.
  - exists r. repeat split; trivial. unfold signature_of. now rewrite S.
  - intros k D. unfold fallback_key in F. rewrite D in F. congruence.
Qed.

Lemma verify_uses_own_keys_by_default_witness :
  let embedded := VObj [("kid", VStr "b"); ("kty", VStr "oct"); ("k", VStr "sb")] in
  let i := [("content", VStr "x");
            (CLEARTEXT, VObj [("alg", VStr "HS256"); ("jwk", embedded);
                              ("signature", VStr "forged")])] in
  let v := snd (Verify.createVerify Verify.loaded (Toy.with_key Toy.alice) None) in
  let calls := Verify.verify_calls (Verify.verify Verify.loaded v (VObj i) None) in
  length calls = 1
  /\ Forall (fun c => Verify.call_key c = (Toy.alice : Key (Jose := Toy.jose)))
       calls.
Proof.
  intros embedded i v calls. split; [reflexivity|].
  apply Forall_forall. intros c H.
  exact (proj2 (verify_uses_own_keys_by_default (J := Toy.jose) Verify.loaded v
                  None i _ _ c eq_refl eq_refl H) Toy.alice eq_refl).
Defined.

(** ** What [verify] writes *)

Section VerifyWrites.

Context {J : Jose}.

Lemma get_object_lookup (o : obj) (k : string) (c : obj) :
  Obj.get o k = VObj c -> Obj.lookup o k = Some (VObj c).
Proof.
  unfold Obj.get. destruct (Obj.lookup o k); [congruence | discriminate].
Qed.

Lemma keys_set_present (o : obj) (k : string) (w v : value) :
  Obj.lookup o k = Some w -> Obj.keys (Obj.set o k v) = Obj.keys o.
Proof.
  induction o as [|[k' v'] o IH]; simpl; [discriminate|].
  destruct (String.eqb k' k) eqn:E; simpl.
  - apply String.eqb_eq in E. now subst k'.
  - intros H. now rewrite (IH H).
Qed.

Lemma set_lookup_same (o : obj) (k : string) (v : value) :
  Obj.lookup o k = Some v -> Obj.set o k v = o.
Proof.
  induction o as [|[k' v'] o IH]; simpl; [discriminate|].
  destruct (String.eqb k' k) eqn:E.
  - apply String.eqb_eq in E. subst k'. now intros [= ->].
  - intros H. now rewrite (IH H).
Qed.

Lemma same_content_set (i i' c : obj) (x : value) :
  same_content i i' ->
  Obj.get i' CLEARTEXT = VObj c ->
  same_content i (Obj.set i' CLEARTEXT x).
Proof.
  intros [K L] G. apply get_object_lookup in G. split.
  - now rewrite (keys_set_present _ _ _ x G).
  - intros k Hk. rewrite lookup_set_other by congruence. now apply L.
Qed.

Lemma write_back_content (n index : nat) (i input : obj) (r : promise bool) :
  same_content i input -> same_content i (Verify.write_back n index input r).
Proof.
  intros S. unfold Verify.write_back, Verify.update_signer, Verify.update_top.
  destruct r as [valid|m]; destruct (negb (Nat.eqb n 1)); trivial;
    destruct (Obj.get input CLEARTEXT) as [| | | | | |c] eqn:G; trivial;
    try (now apply same_content_set with (c := c));
    destruct (Obj.get c "signers") as [| | | | |l|]; trivial;
    now apply same_content_set with (c := c).
Qed.

Lemma run_content (n : nat) (i : obj) (ps : list Verify.prepared)
    (index : nat) (sh : Verify.Shared) :
  same_content i (Verify.shared_input sh) ->
  same_content i (Verify.shared_input (Verify.run n index sh ps)).
Proof.
  revert index sh. induction ps as [|p ps IH]; intros index sh S; [exact S|].
  destruct p as [m|m|sig k]; simpl; try (now apply IH).
  destruct (Verify.check n (Verify.shared_data sh) sig k) as [[data' calls] r].
  apply IH. simpl. now apply write_back_content.
Qed.

End VerifyWrites.

(** X14: [verify] leaves every field of the caller's document other than
    the reserved one as it is, adds no field and changes no order. *)
Theorem verify_writes_reserved_field_only {J : Jose} (st : Verify.store)
    (v : Verify.JWSVerifier) (opts : option obj) (i : obj) :
  exists i',
    Verify.verify_input (Verify.verify st v (VObj i) opts) = VObj i'
    /\ Obj.keys i' = Obj.keys i
    /\ forall k, k <> CLEARTEXT -> Obj.lookup i' k = Obj.lookup i k.
Proof.
  unfold Verify.verify.
  destruct (Verify.signer_records i) as [[cs recs]|m].
  - eexists. split; [reflexivity|]. apply run_content. now split.
  - exists i. now repeat split.
Qed.

(** ** Verification: failures that are kept to their signer *)

Section Handled.

Context {J : Jose}.

Variable o : obj.
Variable v : Verify.JWSVerifier.
Variable cs : obj.

Hypothesis embedded_off : truthy (Obj.get o "allowEmbeddedKey") = false.

Lemma prepare_well_formed (r : obj) :
  well_formed o cs r -> Verify.prepare o v cs (VObj r) = chain_for v cs r.
Proof.
  intros [[s S] M]. unfold Verify.prepare, chain_for, signature_of.
  rewrite get_omit_other by reflexivity. rewrite S, M. simpl negb. cbv iota.
  unfold Verify.getAlgKey. rewrite embedded_off. reflexivity.
Qed.

Lemma prepare_all_well_formed (rs : list obj) :
  (forall r, In r rs -> well_formed o cs r) ->
  Verify.prepare_all o v cs (map VObj rs) = map (chain_for v cs) rs.
Proof.
  induction rs as [|r rs IH]; intros H; [reflexivity|].
  cbn [map Verify.prepare_all]. rewrite prepare_well_formed by (apply H; now left).
  unfold chain_for at 1. cbv iota. fold (chain_for v cs r). f_equal.
  apply IH. intros x Hx. apply H. now right.
Qed.

Lemma chains_for_are_handled (rs : list obj) :
  existsb unhandled (map (chain_for v cs) rs) = false.
Proof. induction rs as [|r rs IH]; [reflexivity | exact IH]. Qed.

End Handled.

(** X15: when every signer record has a signature and an allowed
    algorithm, and embedded keys are off, [verify] resolves with the
    caller's document, whether the keys are found or not and whatever
    they answer. *)
Theorem verify_resolves_whatever_the_keys_do {J : Jose} (st : Verify.store)
    (v : Verify.JWSVerifier) (opts : option obj) (i cs : obj) (rs : list obj) :
  let o := Verify.effective_options st v opts in
  Verify.signer_records i = Returned (cs, map VObj rs) ->
  truthy (Obj.get o "allowEmbeddedKey") = false ->
  (forall r, In r rs -> well_formed o cs r) ->
  let res := Verify.verify st v (VObj i) opts in
  Verify.verify_completion res = Returned (Resolved (Verify.verify_input res)).
Proof.
  intros o R E W res. subst res. unfold Verify.verify. rewrite R. fold o.
  rewrite (prepare_all_well_formed o v cs E rs W).
  cbn [Verify.verify_completion Verify.verify_input].
  apply outcome_chains, chains_for_are_handled.
Qed.

Lemma verify_resolves_whatever_the_keys_do_witness :
  let cs := [("alg", VStr "HS256"); ("kid", VStr "a"); ("signature", VStr "forged")] in
  let i := [("content", VStr "x"); (CLEARTEXT, VObj cs)] in
  let v := snd (Verify.createVerify Verify.loaded
                  (Toy.with_store [Toy.alice]) None) in
  let res := Verify.verify Verify.loaded v (VObj i) None in
  Verify.verify_completion res = Returned (Resolved (Verify.verify_input res))
  /\ map (fun c => key_verify (Verify.call_key c) (Verify.call_alg c)
                     (Verify.call_tbv c) (Verify.call_signature c))
       (Verify.verify_calls res)
     = [Rejected "verification failed"].
Proof.
  intros cs i v res. split; [|reflexivity].
  apply (verify_resolves_whatever_the_keys_do (J := Toy.jose) Verify.loaded v
           None i cs [cs] eq_refl eq_refl).
  intros r [<-|[]]. split; [eexists|]; reflexivity.
Defined.

Section Flags.

Context {J : Jose}.

Variable v : Verify.JWSVerifier.
Variable i : obj.
Variable cs : obj.
Variable n : nat.

(** The caller's document with [l] for its signer entries. *)
Let with_entries (l : list value) : obj :=
  Obj.set i CLEARTEXT (VObj (Obj.set cs "signers" (VArr l))).

Lemma update_signer_with_entries (l : list value) (j : nat) (f : obj -> obj) :
  Verify.update_signer (with_entries l) j f
  = with_entries (Verify.update_nth l j f).
Proof.
  unfold Verify.update_signer, with_entries.
  now rewrite !get_set_same, !set_set.
Qed.

Lemma write_back_several (index : nat) (input : obj) (r : promise bool) :
  Nat.eqb n 1 = false ->
  Verify.write_back n index input r
  = Verify.update_signer input index (fun e => flagged e r).
Proof.
  intros Hn. unfold Verify.write_back. rewrite Hn. now destruct r.
Qed.

(** A chain settles as [settles] says, whatever the chains before it
    left in the scratch document. *)
Lemma check_settles (data : obj) (r : obj) :
  based_on n i cs data ->
  let '(data', _, p) :=
    Verify.check n data
      {| Verify.signee := signee_of r;
         Verify.header := Verify.effective_header cs r;
         Verify.signature := signature_of r |}
      (Resolved (fallback_key v (Verify.effective_header cs r))) in
  based_on n i cs data' /\ p = settles v i n cs r.
Proof.
  intros B. unfold Verify.check, settles. simpl then_.
  destruct (fallback_key v (Verify.effective_header cs r)) as [key|].
  - cbn [Verify.signee Verify.header Verify.signature]. split.
    + now apply based_on_step.
    + now rewrite (B _).
  - now split.
Qed.

Lemma check_settles_eq (data : obj) (r : obj) :
  based_on n i cs data ->
  exists data' calls,
    Verify.check n data
      {| Verify.signee := signee_of r;
         Verify.header := Verify.effective_header cs r;
         Verify.signature := signature_of r |}
      (Resolved (fallback_key v (Verify.effective_header cs r)))
    = (data', calls, settles v i n cs r)
    /\ based_on n i cs data'.
Proof.
  intros B. pose proof (check_settles data r B) as C.
  destruct (Verify.check n data _ _) as [[d c] p].
  destruct C as [B' ->]. now exists d, c.
Qed.

Lemma run_flags (l : list obj) (pre : list value) (sh : Verify.Shared) :
  Nat.eqb n 1 = false ->
  based_on n i cs (Verify.shared_data sh) ->
  Verify.shared_input sh = with_entries (pre ++ map VObj l) ->
  Verify.shared_input
    (Verify.run n (length pre) sh (map (chain_for v cs) l))
  = with_entries
      (pre ++ map (fun r => VObj (flagged r (settles v i n cs r))) l).
Proof.
  intros Hn. revert pre sh.
  induction l as [|r l IH]; intros pre sh B I; [exact I|].
  cbn [map Verify.run chain_for].
  pose proof (check_settles (Verify.shared_data sh) r B) as C.
  destruct (Verify.check n (Verify.shared_data sh) _ _) as [[data' calls] p].
  destruct C as [B' ->].
  specialize (IH (pre ++ [VObj (flagged r (settles v i n cs r))])).
  rewrite length_app, Nat.add_1_r, <- !app_assoc in IH. simpl app in IH.
  apply IH; cbn [Verify.shared_data Verify.shared_input]; [exact B'|].
  rewrite (write_back_several _ _ _ Hn), I, update_signer_with_entries.
  cbn [map]. now rewrite update_nth_middle.
Qed.

End Flags.

Lemma flags_of_several {J : Jose} (st : Verify.store)
    (v : Verify.JWSVerifier) (opts : option obj) (i cs : obj) (rs : list obj) :
  let o := Verify.effective_options st v opts in
  let n := length rs in
  Obj.get i CLEARTEXT = VObj cs ->
  Obj.get cs "signers" = VArr (map VObj rs) ->
  Nat.eqb n 1 = false ->
  truthy (Obj.get o "allowEmbeddedKey") = false ->
  (forall r, In r rs -> well_formed o cs r) ->
  let res := Verify.verify st v (VObj i) opts in
  let flags r := VObj (flagged r (settles v i n cs r)) in
  let document :=
    VObj (Obj.set i CLEARTEXT
            (VObj (Obj.set cs "signers" (VArr (map flags rs))))) in
  Verify.verify_completion res = Returned (Resolved document)
  /\ Verify.verify_input res = document.
Proof.
  intros o n Hi Hs Hn E W res flags document.
  assert (R : Verify.signer_records i = Returned (cs, map VObj rs)).
  { unfold Verify.signer_records. now rewrite Hi, Hs. }
  assert (I : i = Obj.set i CLEARTEXT
                    (VObj (Obj.set cs "signers" (VArr (map VObj rs))))).
  { symmetry. rewrite (set_lookup_same cs "signers").
    - apply set_lookup_same. now apply get_object_lookup.
    - unfold Obj.get in Hs. destruct (Obj.lookup cs "signers");
        [congruence | discriminate]. }
  pose proof (run_flags v i cs n rs []
                {| Verify.shared_data := i; Verify.shared_input := i;
                   Verify.shared_calls := [] |} Hn
                (based_on_start n i cs Hi) I) as F.
  subst res. unfold Verify.verify. rewrite R. fold o.
  rewrite (prepare_all_well_formed o v cs E rs W).
  cbn [Verify.verify_completion Verify.verify_input].
  rewrite outcome_chains by apply chains_for_are_handled.
  rewrite length_map. simpl in F. unfold n in F.
  unfold document, flags, n. split; [do 3 f_equal | f_equal]; exact F.
Qed.

(** X16: failures are kept to their signer.  For a document with a
    number of well-formed signer records other than one, [verify]
    resolves with the document in which every entry has the flags of its
    own verification: [valid] as its key answered, or [valid: false] and
    the message of the error (["Key does not match"] when there is no key
    for it).  How an entry is flagged is a function of the verifier, the
    document and that entry alone. *)
Theorem verify_flags_each_signer_alone {J : Jose} (st : Verify.store)
    (v : Verify.JWSVerifier) (opts : option obj) (i cs : obj) (rs : list obj) :
  let o := Verify.effective_options st v opts in
  let n := length rs in
  Obj.get i CLEARTEXT = VObj cs ->
  Obj.get cs "signers" = VArr (map VObj rs) ->
  Nat.eqb n 1 = false ->
  truthy (Obj.get o "allowEmbeddedKey") = false ->
  (forall r, In r rs -> well_formed o cs r) ->
  let res := Verify.verify st v (VObj i) opts in
  let flags r := VObj (flagged r (settles v i n cs r)) in
  let document :=
    VObj (Obj.set i CLEARTEXT
            (VObj (Obj.set cs "signers" (VArr (map flags rs))))) in
  Verify.verify_completion res = Returned (Resolved document)
  /\ Verify.verify_input res = document.
Proof. exact (flags_of_several st v opts i cs rs). Qed.

Lemma verify_flags_each_signer_alone_witness :
  let signed :=
    Sign.sign_data
      (Sign.sign (Sign.createSign (J := Toy.jose) []
                    [Toy.bare Toy.alice; Toy.bare Toy.bob; Toy.bare Toy.carol])
         (VObj [("content", VStr "x")])) in
  let v := snd (Verify.createVerify Verify.loaded
                  (Toy.with_store [Toy.alice; Toy.carol]) None) in
  let res := Verify.verify Verify.loaded v signed None in
  Verify.verify_completion res = Returned (Resolved (Verify.verify_input res))
  /\ map (fun e => (field e "valid", field e "message"))
       (signer_entries (Verify.verify_input res))
     = [(VBool true, VUndef);
        (VBool false, VStr "Key does not match");
        (VBool true, VUndef)].
Proof.
  intros signed v res.
  set (i := match signed with VObj f => f | _ => [] end).
  set (cs := match Obj.get i CLEARTEXT with VObj c => c | _ => [] end).
  set (rs := flat_map (fun e => match e with VObj r => [r] | _ => [] end)
               (match Obj.get cs "signers" with VArr l => l | _ => [] end)).
  assert (W : forall r, In r rs ->
                well_formed (J := Toy.jose)
                  (Verify.effective_options Verify.loaded v None) cs r).
  { intros r H. vm_compute in H.
    destruct H as [<-|[<-|[<-|[]]]]; (split; [eexists|]; reflexivity). }
  destruct (verify_flags_each_signer_alone (J := Toy.jose) Verify.loaded v None
              i cs rs eq_refl eq_refl eq_refl eq_refl W) as [C I].
  change (Verify.verify Verify.loaded v (VObj i) None) with res in C, I.
  rewrite I at 1 2. split; [exact C | reflexivity].
Defined.

(** X17: one signer record, be it the reserved field itself or the only
    element of [signers], whose signature is a string and whose algorithm
    is allowed, verified with [allowEmbeddedKey] off.  [verify] resolves;
    when there is no key for the record or the key rejects,
    [valid: false] and the message are written on the reserved field
    itself, and when the key answers the document is left as it was. *)
Theorem verify_flags_single_signer_failure {J : Jose} (st : Verify.store)
    (v : Verify.JWSVerifier) (opts : option obj) (i cs r : obj) :
  let o := Verify.effective_options st v opts in
  Verify.signer_records i = Returned (cs, [VObj r]) ->
  truthy (Obj.get o "allowEmbeddedKey") = false ->
  well_formed o cs r ->
  let res := Verify.verify st v (VObj i) opts in
  let document :=
    match settles v i 1 cs r with
    | Resolved _ => VObj i
    | Rejected m =>
        VObj (Obj.set i CLEARTEXT (VObj (flagged cs (Rejected m))))
    end in
  Verify.verify_completion res = Returned (Resolved document)
  /\ Verify.verify_input res = document.
Proof.
  intros o R E W res document.
  pose proof (signer_records_reserved i cs _ R) as Hi.
  subst res. unfold Verify.verify. rewrite R. fold o.
  unfold Verify.prepare_all. rewrite (prepare_well_formed o v cs E r W).
  unfold chain_for. cbv iota.
  cbn [length Verify.run Verify.shared_data Verify.shared_input
       Verify.shared_calls].
  destruct (check_settles_eq v i cs 1 i r (based_on_start 1 i cs Hi))
    as (data' & calls & C & _).
  rewrite C.
  cbn [Verify.verify_completion Verify.verify_input Verify.outcome
       Verify.shared_input Verify.shared_data].
  unfold document. destruct (settles v i 1 cs r) as [valid|m]; simpl.
  - now split.
  - unfold Verify.update_top. rewrite Hi. now split.
Qed.

Lemma verify_flags_single_signer_failure_witness :
  let i := [("content", VStr "x");
            (CLEARTEXT, VObj [("alg", VStr "HS256"); ("kid", VStr "b");
                              ("signature", VStr "sig")])] in
  let v := snd (Verify.createVerify Verify.loaded
                  (Toy.with_store [Toy.alice]) None) in
  let res := Verify.verify Verify.loaded v (VObj i) None in
  Verify.verify_completion res = Returned (Resolved (Verify.verify_input res))
  /\ Verify.verify_input res
     = VObj [("content", VStr "x");
             (CLEARTEXT, VObj [("alg", VStr "HS256"); ("kid", VStr "b");
                               ("signature", VStr "sig");
                               ("valid", VBool false);
                               ("message", VStr "Key does not match")])].
Proof.
  intros i v res.
  destruct (verify_flags_single_signer_failure (J := Toy.jose) Verify.loaded v
              None i
              [("alg", VStr "HS256"); ("kid", VStr "b"); ("signature", VStr "sig")]
              [("alg", VStr "HS256"); ("kid", VStr "b"); ("signature", VStr "sig")]
              eq_refl eq_refl (conj (ex_intro _ "sig" eq_refl) eq_refl))
    as [C I].
  split; [|exact I]. fold res in C, I. rewrite I at 1. exact C.
Defined.

(** ** Precedence *)



(** X19: an option given to the call with a value that is neither an
    array nor an object takes precedence over the option of the verifier,
    unless it is given as [undefined]; an option that is not given to the
    call is the verifier's. *)
Theorem call_options_override_defaults {J : Jose} (st : Verify.store)
    (v : Verify.JWSVerifier) (o : obj) (f : string) :
  NoDup (Obj.keys o) ->
  (forall x, Obj.lookup o f = Some x -> primitive x = true ->
             Obj.get (Verify.effective_options st v (Some o)) f
             = match x with
               | VUndef => Obj.get (Verify.effective_options st v None) f
               | _ => x
               end)
  /\ (Obj.lookup o f = None ->
      Obj.get (Verify.effective_options st v (Some o)) f
      = Obj.get (Verify.effective_options st v None) f).
Proof.
  intros N.
  assert (E : Verify.effective_options st v None
              = merge [] (Verify.read st (Verify.globalOpts v))).
  { unfold Verify.effective_options.
    now change (merge ?x []) with x. }
  rewrite E. unfold Verify.effective_options.
  rewrite (merge_is_merge_fields _ o). split.
  - intros x L P. now rewrite (merge_fields_primitive o _ f x N L P).
  - intros L. now apply merge_fields_absent.
Qed.

Lemma call_options_override_defaults_witness :
  let v := snd (Verify.createVerify (J := Toy.jose) Verify.loaded
                  Verify.KsOther None) in
  let o := [("algorithms", VStr "HS256"); ("allowEmbeddedKey", VUndef)] in
  Obj.get (Verify.effective_options Verify.loaded v (Some o)) "algorithms"
  = VStr "HS256"
  /\ Obj.get (Verify.effective_options Verify.loaded v (Some o)) "allowEmbeddedKey"
     = VBool false.
Proof.
  intros v o.
  assert (N : NoDup (Obj.keys o))
    by (repeat constructor; simpl; intuition discriminate).
  split.
  - exact (proj1 (call_options_override_defaults Verify.loaded v o "algorithms" N)
             (VStr "HS256") eq_refl eq_refl).
  - exact (proj1 (call_options_override_defaults Verify.loaded v o
                    "allowEmbeddedKey" N) VUndef eq_refl eq_refl).
Defined.

(** ** The embedded certificate *)

(** X20: when [allowEmbeddedKey] is on and the header has no [jwk] but a
    certificate chain, the key is made from the first certificate of the
    chain alone; the verifier's own key and its key store are not
    used. *)
Theorem embedded_certificate_outranks_own_key {J : Jose} (opts : obj)
    (sig : Verify.Sig) (assumedKey : option Key) (keystore : KeyStore)
    (c : value) (rest : list value) :
  truthy (Obj.get opts "allowEmbeddedKey") = true ->
  truthy (Obj.get (Verify.header sig) "jwk") = false ->
  Obj.get (Verify.header sig) "x5c" = VArr (c :: rest) ->
  Verify.getAlgKey opts sig assumedKey keystore
  = match asKey_pkix c with
    | Returned p => Returned (then_ p (fun k => Resolved (Some k)))
    | Thrown m => Thrown m
    end.
Proof.
  intros A Hj Hx. unfold Verify.getAlgKey. now rewrite A, Hj, Hx.
Qed.

Lemma embedded_certificate_outranks_own_key_witness :
  let sig := {| Verify.signee := []; Verify.signature := "";
                Verify.header := [("alg", VStr "HS256");
                                  ("x5c", VArr [VStr "MIIB"; VStr "MIIC"])] |} in
  Verify.getAlgKey (J := Toy.jose) [("allowEmbeddedKey", VBool true)] sig
    (Some Toy.alice) [Toy.alice]
  = Returned (Rejected "unsupported key").
Proof.
  exact (embedded_certificate_outranks_own_key (J := Toy.jose)
           [("allowEmbeddedKey", VBool true)]
           {| Verify.signee := []; Verify.signature := "";
              Verify.header := [("alg", VStr "HS256");
                                ("x5c", VArr [VStr "MIIB"; VStr "MIIC"])] |}
           (Some Toy.alice) [Toy.alice] (VStr "MIIB") [VStr "MIIC"]
           eq_refl eq_refl eq_refl).
Defined.

(** ** Input that is no signed document *)

(** X21: input that is not an object with an object in the reserved
    field makes [verify] throw, synchronously, without a key being asked
    and without the input being changed: ["Input has to be a JOSN
    object."] for what is not an object, and, for a string, the error of
    reading the undeclared [intput]. *)
Theorem verify_throws_on_malformed_input {J : Jose} (st : Verify.store)
    (v : Verify.JWSVerifier) (opts : option obj) (input : value) :
  (forall i cs, input = VObj i -> Obj.get i CLEARTEXT <> VObj cs) ->
  let res := Verify.verify st v input opts in
  (exists m,
      Verify.verify_completion res = Thrown m
      /\ (isObject input = false ->
          m = match input with
              | VStr _ => "intput is not defined"
              | _ => "Input has to be a JOSN object."
              end))
  /\ Verify.verify_input res = input
  /\ Verify.verify_calls res = [].
Proof.
  intros H res. subst res.
  destruct input as [| |b|z|s|l|i];
    try (split; [eexists; split; [reflexivity | reflexivity] | now split]).
  unfold Verify.verify, Verify.signer_records.
  destruct (Obj.get i CLEARTEXT) as [| | | | | |cs] eqn:G;
    try (split; [eexists; split; [reflexivity | discriminate] | now split]).
  now destruct (H i cs eq_refl).
Qed.

Lemma verify_throws_on_malformed_input_witness :
  let v := snd (Verify.createVerify (J := Toy.jose) Verify.loaded
                  (Toy.with_key Toy.alice) None) in
  Verify.verify_completion
    (Verify.verify Verify.loaded v (VObj [("content", VStr "x")]) None)
  = Thrown "TypeError"
  /\ Verify.verify_completion
       (Verify.verify Verify.loaded v (VStr "{}") None)
     = Thrown "intput is not defined".
Proof.
  intros v. split.
  - destruct (verify_throws_on_malformed_input (J := Toy.jose) Verify.loaded v
                None (VObj [("content", VStr "x")]))
      as [(m & C & _) _]; [intros i cs [= <-]; discriminate|].
    reflexivity.
  - reflexivity.
Defined.

(** ** Signing a document that is signed already *)

(** X22: [sign] starts from an empty reserved field.  What the document
    held there before, an earlier signature for instance, has no
    influence on anything the call does. *)
Theorem sign_discards_earlier_signature {J : Jose} (signer : Sign.JWSSigner)
    (d : obj) (earlier : value) :
  Sign.finalized signer = false ->
  Sign.sign signer (VObj (Obj.set d CLEARTEXT earlier))
  = Sign.sign signer (VObj d).
Proof.
  intros F. unfold Sign.sign. rewrite F. now rewrite set_set.
Qed.

Lemma sign_discards_earlier_signature_witness :
  let signer := Sign.createSign (J := Toy.jose) [] [Toy.bare Toy.bob] in
  let once :=
    Sign.sign_data (Sign.sign (Sign.createSign (J := Toy.jose) []
                                 [Toy.bare Toy.alice])
                      (VObj [("content", VStr "x")])) in
  Sign.sign signer once = Sign.sign signer (VObj [("content", VStr "x")]).
Proof.
  intros signer once.
  exact (sign_discards_earlier_signature (J := Toy.jose) signer
           [("content", VStr "x")] _ eq_refl).
Defined.

(** ** One signatory: the document assembled *)

(** X23: one signatory whose key answers.  The key is asked once, for the
    bytes of the document with the signatory's header as reserved field,
    and [sign] resolves with the document whose reserved field is that
    header followed by [signature], the base64url form of the answer. *)
Theorem sign_single_signatory_flat_form {J : Jose} (d : obj)
    (s : Sign.Signatory) (mac : bytes) (ticks : list nat) :
  let tbs := JSON_stringify (VObj (Obj.set d CLEARTEXT (VObj (Sign.header s)))) in
  key_sign (Sign.key s) (Obj.get (Sign.header s) "alg") tbs (Sign.header s)
  = Resolved mac ->
  let res := Sign.sign {| Sign.signatories := [Resolved s];
                          Sign.settles := ticks;
                          Sign.finalized := false |} (VObj d) in
  Sign.sign_promise res
  = Resolved
      (VObj (Obj.set d CLEARTEXT
               (VObj (Obj.set (Sign.header s) "signature"
                        (VStr (base64url_encode mac))))))
  /\ Sign.sign_calls res
     = [{| Sign.call_key := Sign.key s;
           Sign.call_alg := Obj.get (Sign.header s) "alg";
           Sign.call_tbs := tbs;
           Sign.call_header := Sign.header s |}].
Proof.
  intros tbs Hk res. subst res. unfold Sign.sign. simpl.
  unfold Sign.sign_one, Sign.materialize. simpl.
  rewrite set_set. fold tbs. rewrite Hk. simpl.
  now rewrite omit_nothing, set_set.
Qed.

Lemma sign_single_signatory_flat_form_witness :
  let s := Toy.signatory Toy.alice [("alg", VStr "HS256"); ("kid", VStr "a")] in
  Sign.sign_promise
    (Sign.sign {| Sign.signatories := [Resolved s];
                  Sign.settles := [0];
                  Sign.finalized := false |}
       (VObj [("content", VStr "x")]))
  = Resolved
      (VObj [("content", VStr "x");
             (CLEARTEXT,
              VObj [("alg", VStr "HS256"); ("kid", VStr "a");
                    ("signature",
                     VStr "sa/HS256/{content:'x',__cleartext_signature:{alg:'HS256',kid:'a'}}")])]).
Proof.
  intros s.
  exact (proj1 (sign_single_signatory_flat_form (J := Toy.jose)
                  [("content", VStr "x")] s _ [0] eq_refl)).
Defined.

(** ** The bytes signed are the bytes verified *)

Section SignedBytes.

Context {J : Jose}.

Variable d : obj.
Variable sigs : list Sign.Signatory.
Variable mac_of : Sign.Signatory -> bytes.
Variable st : Verify.store.
Variable v : Verify.JWSVerifier.
Variable opts : option obj.
Variable key_of : Sign.Signatory -> Key.

Let n := length sigs.
Let g := Sign.globalHeaders sigs.
Let o := Verify.effective_options st v opts.

Let tbs_of (s : Sign.Signatory) : bytes :=
  snapshotForSigner d n (Obj.omit (Sign.header s) (Obj.keys g)) g.

Let call_of (s : Sign.Signatory) : Verify.VerifyCall :=
  {| Verify.call_key := key_of s;
     Verify.call_alg := Obj.get (Sign.header s) "alg";
     Verify.call_tbv := tbs_of s;
     Verify.call_signature := mac_of s |}.

Let chain_of (x : value) (s : Sign.Signatory) : Verify.prepared :=
  Verify.PChain
    {| Verify.signee := Obj.omit (Sign.header s) (Obj.keys g);
       Verify.header :=
         Verify.effective_header (Obj.set g "signers" x)
           (stored_record g s (mac_of s));
       Verify.signature := mac_of s |}
    (Resolved (Some (key_of s))).

Hypothesis several : Nat.eqb n 1 = false.

Hypothesis plain : forall s, In s sigs -> plain_header (Sign.header s).

Hypothesis strings :
  forall s, In s sigs ->
    string_field (Sign.header s) "alg" /\ string_or_absent (Sign.header s) "kid".

Hypothesis embedded_off : truthy (Obj.get o "allowEmbeddedKey") = false.

Hypothesis allowed :
  forall s, In s sigs ->
    AlgConfig_match (Obj.get o "algorithms") (Obj.get (Sign.header s) "alg") = true.

Hypothesis codec :
  forall s, In s sigs ->
    base64url_decode (base64url_encode (mac_of s)) = mac_of s.

Hypothesis resolving :
  forall s, In s sigs -> fallback_key v (Sign.header s) = Some (key_of s).

Lemma run_calls_several (x : list value) (l : list Sign.Signatory)
    (index : nat) (sh : Verify.Shared) :
  incl l sigs ->
  based_on n (Obj.set d CLEARTEXT (VObj (Obj.set g "signers" (VArr x))))
    (Obj.set g "signers" (VArr x)) (Verify.shared_data sh) ->
  Verify.shared_calls (Verify.run n index sh (map (chain_of (VArr x)) l))
  = Verify.shared_calls sh ++ map call_of l.
Proof.
  revert index sh. induction l as [|s l IH]; intros index sh Hl B.
  - simpl. now rewrite app_nil_r.
  - assert (Hs : In s sigs) by (apply Hl; now left).
    cbn [map Verify.run chain_of]. unfold Verify.check. simpl then_.
    cbn [Verify.signee Verify.header Verify.signature].
    pose proof (based_on_signed d sigs several x _ s B) as T.
    fold n g in T. fold (tbs_of s) in T. rewrite T.
    destruct (prepare_several sigs mac_of plain st v opts key_of strings
                embedded_off allowed codec resolving s (VArr x) Hs) as [Ga _].
    fold g in Ga. rewrite Ga. rewrite IH.
    + cbn [Verify.shared_calls]. now rewrite <- app_assoc.
    + intros y Hy. apply Hl. now right.
    + cbn [Verify.shared_data]. now apply based_on_step.
Qed.

End SignedBytes.

(** X24: the bytes signed are the bytes verified.  A document is signed
    by a number of signatories other than one, whose headers are plain
    (no field named [signature], [signers], [valid] or [message]) and
    have a string as [alg] and a string or nothing as [kid], and every
    key answers with a signature that the base64url coding gives back.
    It is verified with [allowEmbeddedKey] off, the algorithm of every
    header allowed, and a verifier that finds a key for every header.
    Then [verify] asks, for every signatory in order, the key found for
    its header to verify its signature under its algorithm over exactly
    the bytes its key signed, whatever the keys then answer. *)
Theorem verify_rebuilds_signed_bytes {J : Jose} (d : obj)
    (sigs : list Sign.Signatory) (mac_of : Sign.Signatory -> bytes)
    (st : Verify.store) (v : Verify.JWSVerifier) (opts : option obj)
    (key_of : Sign.Signatory -> Key) (ticks : list nat) :
  let n := length sigs in
  let g := Sign.globalHeaders sigs in
  let o := Verify.effective_options st v opts in
  let tbs_of s := snapshotForSigner d n (Obj.omit (Sign.header s) (Obj.keys g)) g in
  Nat.eqb n 1 = false ->
  (forall s, In s sigs -> plain_header (Sign.header s)) ->
  (forall s, In s sigs ->
     key_sign (Sign.key s) (Obj.get (Sign.header s) "alg") (tbs_of s)
       (Sign.header s) = Resolved (mac_of s)) ->
  (forall s, In s sigs ->
     string_field (Sign.header s) "alg"
     /\ string_or_absent (Sign.header s) "kid") ->
  truthy (Obj.get o "allowEmbeddedKey") = false ->
  (forall s, In s sigs ->
     AlgConfig_match (Obj.get o "algorithms") (Obj.get (Sign.header s) "alg")
     = true) ->
  (forall s, In s sigs ->
     base64url_decode (base64url_encode (mac_of s)) = mac_of s) ->
  (forall s, In s sigs -> fallback_key v (Sign.header s) = Some (key_of s)) ->
  let made := Sign.sign {| Sign.signatories := map Resolved sigs;
                           Sign.settles := ticks;
                           Sign.finalized := false |} (VObj d) in
  let res := Verify.verify st v (Sign.sign_data made) opts in
  Verify.verify_calls res
  = map (fun s => {| Verify.call_key := key_of s;
                     Verify.call_alg := Obj.get (Sign.header s) "alg";
                     Verify.call_tbv := tbs_of s;
                     Verify.call_signature := mac_of s |}) sigs
  /\ map Verify.call_tbv (Verify.verify_calls res)
     = map Sign.call_tbs (Sign.sign_calls made).
Proof.
  intros n g o tbs_of Hn Hp Hs Hstr He Ha Hc Hr made res.
  destruct (sign_several d sigs mac_of ticks Hn Hp Hs) as [_ S2].
  subst tbs_of o g n.
  set (g := Sign.globalHeaders sigs) in *.
  set (x := map VObj (map (fun s => stored_record g s (mac_of s)) sigs)) in *.
  assert (X : x = map (fun s => VObj (stored_record g s (mac_of s))) sigs).
  { unfold x. now rewrite map_map. }
  assert (S : Sign.sign_data made
              = VObj (Obj.set d CLEARTEXT
                        (VObj (Obj.set g "signers" (VArr x))))) by exact S2.
  assert (T : map Sign.call_tbs (Sign.sign_calls made)
              = map (fun s => snapshotForSigner d (length sigs)
                                (Obj.omit (Sign.header s) (Obj.keys g)) g) sigs).
  { unfold made, Sign.sign. cbn [Sign.finalized Sign.signatories].
    rewrite promise_all_at_map_resolved.
    set (sh0 := {| Sign.shared_globalHeaders := Sign.globalHeaders sigs;
                   Sign.shared_data := Obj.set d CLEARTEXT (VObj []) |}).
    assert (H0 : shared_from d g sh0).
    { unfold sh0. split; [|split]; simpl; [eexists; reflexivity | easy | easy]. }
    pose proof (sign_map_pure (length sigs) d g sigs sh0 Hn H0
                  (fun s H => proj1 (proj2 (proj2 (Hp s H))))) as P.
    destruct (Sign.sign_map (length sigs) sh0 sigs) as [[sh calls] ps].
    simpl in P. now destruct (promise_all_at _ ps). }
  assert (V : Verify.verify_calls res
              = map (fun s => {| Verify.call_key := key_of s;
                                 Verify.call_alg := Obj.get (Sign.header s) "alg";
                                 Verify.call_tbv :=
                                   snapshotForSigner d (length sigs)
                                     (Obj.omit (Sign.header s) (Obj.keys g)) g;
                                 Verify.call_signature := mac_of s |}) sigs).
  { unfold res. rewrite S. unfold Verify.verify, g.
    rewrite (signer_records_signed_with d sigs x).
    pose proof (prepare_all_several sigs mac_of Hp st v opts key_of Hstr He Ha
                  Hc Hr sigs (VArr x) (incl_refl _)) as P.
    fold g in P. rewrite <- X in P. fold g. rewrite P.
    cbn [Verify.verify_calls].
    replace (length x) with (length sigs) by (rewrite X; now rewrite length_map).
    unfold g.
    rewrite (run_calls_several d sigs mac_of st v opts key_of Hn Hp Hstr He Ha
               Hc Hr x sigs 0).
    - reflexivity.
    - apply incl_refl.
    - apply based_on_start. apply get_set_same. }
  split; [exact V|]. rewrite V, T, map_map. reflexivity.
Qed.

Lemma verify_rebuilds_signed_bytes_witness :
  let sigs :=
    [Toy.signatory Toy.alice [("alg", VStr "HS256"); ("kid", VStr "a")];
     Toy.signatory Toy.bob [("alg", VStr "HS256"); ("kid", VStr "b")]] in
  let v := snd (Verify.createVerify Verify.loaded
                  (Toy.with_store [Toy.alice; Toy.bob]) None) in
  let made :=
    Sign.sign {| Sign.signatories := map Resolved sigs;
                 Sign.settles := [0; 0];
                 Sign.finalized := false |}
      (VObj [("content", VStr "x")]) in
  map Verify.call_tbv
    (Verify.verify_calls (Verify.verify Verify.loaded v (Sign.sign_data made) None))
  = map Sign.call_tbs (Sign.sign_calls made).
Proof.
  intros sigs v made.
  refine (proj2
    (verify_rebuilds_signed_bytes (J := Toy.jose) [("content", VStr "x")] sigs
       (fun s => Toy.mac (Sign.key s) (Obj.get (Sign.header s) "alg")
                   (snapshotForSigner (J := Toy.jose) [("content", VStr "x")] 2
                      (Obj.omit (Sign.header s)
                         (Obj.keys (Sign.globalHeaders sigs)))
                      (Sign.globalHeaders sigs)))
       Verify.loaded v None (fun s => Sign.key s) [0; 0]
       eq_refl _ _ _ eq_refl _ _ _));
    intros s [<-|[<-|[]]]; try reflexivity;
    try (repeat split; try reflexivity;
         try (repeat constructor; simpl; intuition discriminate);
         try (now left); try (right; eexists; reflexivity);
         try (eexists; reflexivity)).
Defined.

(** ** Verifying a document that is verified already *)

Section VerifiedAgain.

Context {J : Jose}.

Lemma omit_set_omitted (o : obj) (ks : list string) (k : string) (x : value) :
  Obj.mem k ks = true -> Obj.omit (Obj.set o k x) ks = Obj.omit o ks.
Proof.
  intros M. induction o as [|[k' v'] o IH]; simpl.
  - now rewrite M.
  - destruct (String.eqb k' k) eqn:E; simpl.
    + apply String.eqb_eq in E. subst k'. now rewrite M.
    + now rewrite IH.
Qed.

Lemma omit_flagged (r : obj) (p : promise bool) :
  Obj.omit (flagged r p) ["valid"; "message"] = Obj.omit r ["valid"; "message"].
Proof.
  destruct p as [valid|m]; simpl; now rewrite !omit_set_omitted.
Qed.

Lemma get_flagged (r : obj) (p : promise bool) (k : string) :
  k <> "valid" -> k <> "message" -> Obj.get (flagged r p) k = Obj.get r k.
Proof.
  intros Hv Hm. destruct p as [valid|m]; simpl;
    now rewrite !get_set_other by congruence.
Qed.

Lemma flagged_twice (r : obj) (p : promise bool) :
  flagged (flagged r p) p = flagged r p.
Proof.
  destruct p as [valid|m]; simpl.
  - apply set_set.
  - rewrite (set_lookup_same _ "valid").
    + apply set_set.
    + rewrite lookup_set_other by discriminate. apply lookup_set_same.
Qed.

Lemma effective_header_flagged (cs r : obj) (p : promise bool) (x : value) :
  Verify.effective_header (Obj.set cs "signers" x) (flagged r p)
  = Verify.effective_header cs r.
Proof.
  unfold Verify.effective_header.
  now rewrite omit_flagged, omit_set_omitted.
Qed.

Lemma settles_flagged (v : Verify.JWSVerifier) (i cs r : obj) (n : nat)
    (p : promise bool) (x : list value) :
  Nat.eqb n 1 = false ->
  settles v (Obj.set i CLEARTEXT (VObj (Obj.set cs "signers" (VArr x)))) n
    (Obj.set cs "signers" (VArr x)) (flagged r p)
  = settles v i n cs r.
Proof.
  intros Hn. unfold settles. rewrite effective_header_flagged.
  unfold signee_of, signature_of. rewrite omit_flagged.
  rewrite get_flagged by discriminate.
  unfold snapshotForSigner, snapshot_document. rewrite Hn.
  now rewrite !set_set.
Qed.

End VerifiedAgain.

(** X25: verifying a verified document changes nothing.  For a document
    with a number of signer records other than one, whose signatures are
    strings and whose algorithms are allowed, verified with
    [allowEmbeddedKey] off, a second [verify] of what the first left
    resolves with the same document: the flags written by the first
    neither enter the bytes nor pile up. *)
Theorem verify_twice_is_verify_once {J : Jose} (st : Verify.store)
    (v : Verify.JWSVerifier) (opts : option obj) (i cs : obj) (rs : list obj) :
  let o := Verify.effective_options st v opts in
  Obj.get i CLEARTEXT = VObj cs ->
  Obj.get cs "signers" = VArr (map VObj rs) ->
  Nat.eqb (length rs) 1 = false ->
  truthy (Obj.get o "allowEmbeddedKey") = false ->
  (forall r, In r rs -> well_formed o cs r) ->
  let once := Verify.verify st v (VObj i) opts in
  let twice := Verify.verify st v (Verify.verify_input once) opts in
  Verify.verify_completion twice = Verify.verify_completion once
  /\ Verify.verify_input twice = Verify.verify_input once.
Proof.
  intros o Hi Hs Hn E W once twice.
  destruct (flags_of_several st v opts i cs rs Hi Hs Hn E W) as [C1 I1].
  fold once in C1, I1.
  set (n := length rs) in *.
  set (rs1 := map (fun r => flagged r (settles v i n cs r)) rs).
  set (cs1 := Obj.set cs "signers" (VArr (map VObj rs1))).
  set (i1 := Obj.set i CLEARTEXT (VObj cs1)).
  assert (D : Verify.verify_input once = VObj i1).
  { rewrite I1. unfold i1, cs1, rs1. now rewrite map_map. }
  assert (L : length rs1 = n) by (unfold rs1; apply length_map).
  assert (W1 : forall r, In r rs1 -> well_formed o cs1 r).
  { intros r1 H. unfold rs1 in H. apply in_map_iff in H.
    destruct H as (r & <- & H). destruct (W r H) as [[s S] M].
    unfold cs1. split.
    - exists s. now rewrite get_flagged by discriminate.
    - now rewrite effective_header_flagged. }
  assert (Hn1 : Nat.eqb (length rs1) 1 = false) by now rewrite L.
  destruct (flags_of_several st v opts i1 cs1 rs1 (get_set_same _ _ _)
              (get_set_same _ _ _) Hn1 E W1) as [C2 I2].
  assert (Q : Obj.set i1 CLEARTEXT
                (VObj (Obj.set cs1 "signers"
                         (VArr (map (fun r => VObj (flagged r
                                 (settles v i1 (length rs1) cs1 r))) rs1))))
              = i1).
  { assert (M : map (fun r => VObj (flagged r
                         (settles v i1 (length rs1) cs1 r))) rs1
                = map VObj rs1).
    { apply map_ext_in. intros r1 H. unfold rs1 in H. apply in_map_iff in H.
      destruct H as (r & <- & _). rewrite L. unfold i1, cs1.
      rewrite (settles_flagged v i cs r n _ (map VObj rs1) Hn).
      now rewrite flagged_twice. }
    rewrite M. unfold i1. rewrite set_set. do 2 f_equal.
    unfold cs1. apply set_set. }
  rewrite Q in C2, I2.
  unfold twice. rewrite D, C2, I2, C1. rewrite <- I1, D. now split.
Qed.

Lemma verify_twice_is_verify_once_witness :
  let signed :=
    Sign.sign_data
      (Sign.sign (Sign.createSign (J := Toy.jose) []
                    [Toy.bare Toy.alice; Toy.bare Toy.bob; Toy.bare Toy.carol])
         (VObj [("content", VStr "x")])) in
  let v := snd (Verify.createVerify Verify.loaded
                  (Toy.with_store [Toy.alice; Toy.carol]) None) in
  let once := Verify.verify Verify.loaded v signed None in
  let twice := Verify.verify Verify.loaded v (Verify.verify_input once) None in
  Verify.verify_input once <> signed
  /\ Verify.verify_input twice = Verify.verify_input once.
Proof.
  intros signed v once twice. split; [discriminate|].
  set (i := match signed with VObj f => f | _ => [] end).
  set (cs := match Obj.get i CLEARTEXT with VObj c => c | _ => [] end).
  set (rs := flat_map (fun e => match e with VObj r => [r] | _ => [] end)
               (match Obj.get cs "signers" with VArr l => l | _ => [] end)).
  assert (W : forall r, In r rs ->
                well_formed (J := Toy.jose)
                  (Verify.effective_options Verify.loaded v None) cs r).
  { intros r H. vm_compute in H.
    destruct H as [<-|[<-|[<-|[]]]]; (split; [eexists|]; reflexivity). }
  exact (proj2 (verify_twice_is_verify_once (J := Toy.jose) Verify.loaded v None
                  i cs rs eq_refl eq_refl eq_refl eq_refl W)).
Defined.

(** ** A signatory given as a key *)

(** X26: a signatory given as a key, without fields in the options,
    resolves to that key with the header [{alg, kid}]: the first signing
    algorithm of the key and the [kid] of its JSON form, or [{alg}] when
    the JSON form has no [kid]. *)
Theorem bare_key_signatory_header {J : Jose} (r : KeyRef) (k : Key)
    (idx : nat) :
  asKey r = Resolved k ->
  let alg := ("alg", VStr (hd "" (algorithms k))) in
  Sign.resolve [] (Sign.SpecKey r) idx
  = Resolved
      {| Sign.key := k;
         Sign.header :=
           match Obj.lookup (toJSON k) "kid" with
           | Some kid => [alg; ("kid", kid)]
           | None => [alg]
           end |}.
Proof.
  intros A alg. unfold Sign.resolve. rewrite A. simpl then_.
  unfold Sign.complete. simpl. unfold Obj.has, Obj.get.
  now destruct (Obj.lookup (toJSON k) "kid").
Qed.

Lemma bare_key_signatory_header_witness :
  Sign.signatories (Sign.createSign (J := Toy.jose) [] [Toy.bare Toy.alice])
  = [Resolved (Toy.signatory Toy.alice
                 [("alg", VStr "HS256"); ("kid", VStr "a")])].
Proof.
  unfold Sign.createSign. cbn [Sign.signatories Sign.resolve_from].
  change (match Obj.get (merge DEFAULTS []) "fields" with
          | VObj f => f
          | _ => []
          end) with (@nil (string * value)).
  unfold Toy.bare.
  now rewrite (bare_key_signatory_header (J := Toy.jose) (Some Toy.alice)
                 Toy.alice 0 eq_refl).
Defined.

(** ** When [sign] resolves *)

Section SignResolves.

Context {J : Jose}.

Lemma sign_map_answered (n : nat) (sigs : list Sign.Signatory)
    (sh : Sign.Shared) :
  (forall c, In c (snd (fst (Sign.sign_map n sh sigs))) ->
             exists mac,
               key_sign (Sign.call_key c) (Sign.call_alg c) (Sign.call_tbs c)
                 (Sign.call_header c) = Resolved mac) ->
  exists recs, promise_all (snd (Sign.sign_map n sh sigs)) = Resolved recs.
Proof.
  revert sh. induction sigs as [|s sigs IH]; intros sh H; [now exists []|].
  simpl in *. specialize (IH (Sign.materialize n sh s)).
  destruct (Sign.sign_map n (Sign.materialize n sh s) sigs) as [[sh2 cs] ps].
  simpl in *. destruct (H _ (or_introl eq_refl)) as [mac M]. simpl in M.
  rewrite M. simpl.
  destruct IH as [recs ->]; [|eexists; reflexivity].
  intros c Hc. apply H. now right.
Qed.

End SignResolves.

(** X27: when all signatories resolve and every key that is asked
    answers, [sign] resolves, with the caller's document. *)
Theorem sign_resolves_when_every_key_answers {J : Jose}
    (signer : Sign.JWSSigner) (d : obj) (sigs : list Sign.Signatory) :
  Sign.finalized signer = false ->
  promise_all (Sign.signatories signer) = Resolved sigs ->
  let res := Sign.sign signer (VObj d) in
  (forall c, In c (Sign.sign_calls res) ->
             exists mac,
               key_sign (Sign.call_key c) (Sign.call_alg c) (Sign.call_tbs c)
                 (Sign.call_header c) = Resolved mac) ->
  Sign.sign_promise res = Resolved (Sign.sign_data res).
Proof.
  intros F P res. subst res. unfold Sign.sign.
  rewrite F, (promise_all_at_resolved _ _ _ P).
  pose proof (sign_map_answered (length sigs) sigs
                {| Sign.shared_globalHeaders := Sign.globalHeaders sigs;
                   Sign.shared_data := Obj.set d CLEARTEXT (VObj []) |}) as H.
  destruct (Sign.sign_map _ _ sigs) as [[sh calls] ps]. simpl in H.
  destruct (promise_all_at _ ps) as [recs|m] eqn:E; simpl; [reflexivity|].
  intros A. destruct (H A) as [recs R].
  apply (promise_all_at_resolved (map Sign.call_settles calls)) in R.
  congruence.
Qed.

Lemma sign_resolves_when_every_key_answers_witness :
  let res :=
    Sign.sign (Sign.createSign (J := Toy.jose) []
                 [Toy.bare Toy.alice; Toy.bare Toy.bob])
      (VObj [("content", VStr "x")]) in
  Sign.sign_promise res = Resolved (Sign.sign_data res).
Proof.
  intros res.
  apply (sign_resolves_when_every_key_answers (J := Toy.jose)
           (Sign.createSign (J := Toy.jose) []
              [Toy.bare Toy.alice; Toy.bare Toy.bob])
           [("content", VStr "x")]
           [Toy.signatory Toy.alice [("alg", VStr "HS256"); ("kid", VStr "a")];
            Toy.signatory Toy.bob [("alg", VStr "HS256"); ("kid", VStr "b")]]
           eq_refl eq_refl).
  intros c [<-|[<-|[]]]; eexists; reflexivity.
Defined.

(** ** Several signers, signed and verified: the round trip *)

(** X28: the round trip for any number of signatories other than one.
    When the signatories have plain headers (no field named [signature],
    [signers], [valid] or [message]) with a string as [alg] and a string
    or nothing as [kid], every key answers with a signature that the
    base64url coding gives back, the verifier finds for every header a
    key that accepts what was signed, the algorithms are allowed and
    [allowEmbeddedKey] is off, [verify] of what [sign] resolved with
    resolves, every signer entry has [valid: true], and the content of
    the document is unchanged. *)
Theorem several_signers_round_trip {J : Jose} (d : obj)
    (sigs : list Sign.Signatory) (mac_of : Sign.Signatory -> bytes)
    (st : Verify.store) (v : Verify.JWSVerifier) (opts : option obj)
    (key_of : Sign.Signatory -> Key) (ticks : list nat) :
  let n := length sigs in
  let g := Sign.globalHeaders sigs in
  let o := Verify.effective_options st v opts in
  let tbs_of s := snapshotForSigner d n (Obj.omit (Sign.header s) (Obj.keys g)) g in
  Nat.eqb n 1 = false ->
  (forall s, In s sigs -> plain_header (Sign.header s)) ->
  (forall s, In s sigs ->
     key_sign (Sign.key s) (Obj.get (Sign.header s) "alg") (tbs_of s)
       (Sign.header s) = Resolved (mac_of s)) ->
  (forall s, In s sigs ->
     string_field (Sign.header s) "alg"
     /\ string_or_absent (Sign.header s) "kid") ->
  truthy (Obj.get o "allowEmbeddedKey") = false ->
  (forall s, In s sigs ->
     AlgConfig_match (Obj.get o "algorithms") (Obj.get (Sign.header s) "alg")
     = true) ->
  (forall s, In s sigs ->
     base64url_decode (base64url_encode (mac_of s)) = mac_of s) ->
  (forall s, In s sigs -> fallback_key v (Sign.header s) = Some (key_of s)) ->
  (forall s, In s sigs ->
     key_verify (key_of s) (Obj.get (Sign.header s) "alg") (tbs_of s) (mac_of s)
     = Resolved true) ->
  let made := Sign.sign {| Sign.signatories := map Resolved sigs;
                           Sign.settles := ticks;
                           Sign.finalized := false |} (VObj d) in
  let signed := Sign.sign_data made in
  let res := Verify.verify st v signed opts in
  Sign.sign_promise made = Resolved signed
  /\ Verify.verify_completion res = Returned (Resolved (Verify.verify_input res))
  /\ map (fun e => field e "valid") (signer_entries (Verify.verify_input res))
     = map (fun _ => VBool true) sigs
  /\ (exists f, Verify.verify_input res = VObj f
                /\ forall k, k <> CLEARTEXT -> Obj.lookup f k = Obj.lookup d k).
Proof.
  intros n g o tbs_of Hn Hp Hs Hstr He Ha Hc Hr Hv.
  exact (several_signers_verified d sigs mac_of ticks Hn Hp Hs st v opts key_of Hstr He
           Ha Hc Hr Hv).
Qed.

Lemma several_signers_round_trip_witness :
  let sigs :=
    [Toy.signatory Toy.alice [("alg", VStr "HS256"); ("kid", VStr "a")];
     Toy.signatory Toy.bob [("alg", VStr "HS256"); ("kid", VStr "b")]] in
  let v := snd (Verify.createVerify Verify.loaded
                  (Toy.with_store [Toy.bob; Toy.alice]) None) in
  let signed :=
    Sign.sign_data
      (Sign.sign {| Sign.signatories := map Resolved sigs;
                    Sign.settles := [0; 0];
                    Sign.finalized := false |}
         (VObj [("content", VStr "x")])) in
  map (fun e => field e "valid")
    (signer_entries (Verify.verify_input (Verify.verify Verify.loaded v signed None)))
  = [VBool true; VBool true].
Proof.
  intros sigs v signed.
  refine (proj1 (proj2 (proj2
    (several_signers_round_trip (J := Toy.jose) [("content", VStr "x")] sigs
       (fun s => Toy.mac (Sign.key s) (Obj.get (Sign.header s) "alg")
                   (snapshotForSigner (J := Toy.jose) [("content", VStr "x")] 2
                      (Obj.omit (Sign.header s)
                         (Obj.keys (Sign.globalHeaders sigs)))
                      (Sign.globalHeaders sigs)))
       Verify.loaded v None (fun s => Sign.key s) [0; 0]
       eq_refl _ _ _ eq_refl _ _ _ _))));
    intros s [<-|[<-|[]]]; try reflexivity;
    try (repeat split; try reflexivity;
         try (repeat constructor; simpl; intuition discriminate);
         try (now left); try (right; eexists; reflexivity);
         try (eexists; reflexivity)).
Defined.
